(** * The G2D renderer of Weston (libweston/renderer-g2d/g2d-renderer.c)

    A shallow embedding of the repaint pipeline of the G2D renderer:
    the rotation resolver, the destination clamp with its proportional
    source adjustment, the damage ring of an output, the state of a
    surface with its creation on first access and the attaching of a
    buffer, the per-view repaint driver and the read-back path, together
    with the properties that the design document of the renderer states
    about them.

    Conventions of the embedding:
    - a C [int] is a [Z] and the arithmetic of the code is wrapped to 32
      bits ([int32], [uint32], [uint8]);
    - a C [float] is an IEEE 754 binary32 number, a [spec_float] of the
      Standard Library with precision 24 and maximal exponent 128, every
      operation rounding to nearest even; a [double] is binary64;
    - the conversion of a [float] to an [int] has a result only when the
      truncated value fits an [int] (the C standard leaves the other cases
      undefined);
    - a call into the G2D library, into EGL or into the kernel is an event
      appended to a trace, and its answer comes from the environment. *)

From Stdlib Require Import ZArith Lia Bool List String.
From Stdlib Require Import Floats.SpecFloat.
From stdpp Require Import base option list.

Local Open Scope Z_scope.

(** ** Machine integers *)

Definition int32 (z : Z) : Z := (z + 2 ^ 31) mod 2 ^ 32 - 2 ^ 31.
Definition uint32 (z : Z) : Z := z mod 2 ^ 32.
Definition uint8 (z : Z) : Z := z mod 2 ^ 8.

Definition is_int (z : Z) : Prop := - 2 ^ 31 <= z < 2 ^ 31.

(** ** Floating-point numbers *)

Definition cond_neg (s : bool) (m : Z) : Z := if s then - m else m.

(** Binary32, the [float] of the code. *)
Module F32.
Definition prec : Z := 24.
Definition emax : Z := 128.

  (** [(float)n] for an integer [n]. *)
Definition of_int (n : Z) : spec_float := binary_normalize prec emax n 0 false.

Definition add : spec_float -> spec_float -> spec_float := SFadd prec emax.
Definition sub : spec_float -> spec_float -> spec_float := SFsub prec emax.
Definition mul : spec_float -> spec_float -> spec_float := SFmul prec emax.
Definition div : spec_float -> spec_float -> spec_float := SFdiv prec emax.

  (** [floorf]: the largest integral value not above the argument; zeros,
      infinities and NaN are returned as they are. *)
Definition floorf (x : spec_float) : spec_float :=
    match x with
    | S754_finite s m e => of_int (Z.shiftl (cond_neg s (Z.pos m)) e)
    | _ => x
    end.

  (** [(int)x]: truncation toward zero, defined when the result fits. *)
Definition to_int (x : spec_float) : option Z :=
    match x with
    | S754_zero _ => Some 0
    | S754_finite s m e =>
        let t := cond_neg s (Z.shiftl (Z.pos m) e) in
        if (- 2 ^ 31 <=? t) && (t <? 2 ^ 31) then Some t else None
    | _ => None
    end.

Definition ltb : spec_float -> spec_float -> bool := SFltb.
Definition geb (x y : spec_float) : bool := SFleb y x.
Definition leb : spec_float -> spec_float -> bool := SFleb.
Definition one : spec_float := of_int 1.

  (** [(float)x] for a [double x]. *)
Definition of_double (x : spec_float) : spec_float :=
    match x with
    | S754_finite s m e => binary_normalize prec emax (cond_neg s (Z.pos m)) e s
    | _ => x
    end.
End F32.

(** Binary64, the [double] of the code. *)
Module F64.
Definition prec : Z := 53.
Definition emax : Z := 1024.

Definition of_int (n : Z) : spec_float := binary_normalize prec emax n 0 false.

  (** [(double)x] for a [float x]: the same number, written with the
      mantissa of a double. *)
Definition of_float (x : spec_float) : spec_float :=
    match x with
    | S754_finite s m e => binary_normalize prec emax (cond_neg s (Z.pos m)) e s
    | _ => x
    end.

Definition ltb : spec_float -> spec_float -> bool := SFltb.
Definition gtb (x y : spec_float) : bool := SFltb y x.
Definition one : spec_float := of_int 1.
End F64.

(** ** Rectangles and rotations *)

(** [g2dRECT] *)
Record g2dRECT : Type := mkRECT { left : Z; top : Z; right : Z; bottom : Z }.

Definition set_left (v : Z) (r : g2dRECT) : g2dRECT := mkRECT v (top r) (right r) (bottom r).
Definition set_top (v : Z) (r : g2dRECT) : g2dRECT := mkRECT (left r) v (right r) (bottom r).
Definition set_right (v : Z) (r : g2dRECT) : g2dRECT := mkRECT (left r) (top r) v (bottom r).
Definition set_bottom (v : Z) (r : g2dRECT) : g2dRECT := mkRECT (left r) (top r) (right r) v.

(** [enum g2d_rotation] of the G2D library: the four rotations that
    [convert_transform_to_rot] produces and the two flips
    ([g2d_renderer_read_pixels] uses [G2D_FLIP_V]). *)
Inductive g2d_rotation : Type :=
  | G2D_ROTATION_0
  | G2D_ROTATION_90
  | G2D_ROTATION_180
  | G2D_ROTATION_270
  | G2D_FLIP_H
  | G2D_FLIP_V.

(** [enum g2d_rotation_angle]: the bit patterns of the angle. *)
Definition G2D_ROTATION_ANGLE_0 : Z := 0x10.
Definition G2D_ROTATION_ANGLE_POSITIVE_90 : Z := 0x20.
Definition G2D_ROTATION_ANGLE_POSITIVE_180 : Z := 0x40.
Definition G2D_ROTATION_ANGLE_POSITIVE_270 : Z := 0x80.
Definition G2D_ROTATION_ANGLE_NEGATIVE_90 : Z := 0x08.
Definition G2D_ROTATION_ANGLE_NEGATIVE_180 : Z := 0x04.
Definition G2D_ROTATION_ANGLE_NEGATIVE_270 : Z := 0x02.

(** [enum wl_output_transform], by ordinal. *)
Definition WL_OUTPUT_TRANSFORM_NORMAL : Z := 0.
Definition WL_OUTPUT_TRANSFORM_90 : Z := 1.
Definition WL_OUTPUT_TRANSFORM_180 : Z := 2.
Definition WL_OUTPUT_TRANSFORM_270 : Z := 3.
Definition WL_OUTPUT_TRANSFORM_FLIPPED : Z := 4.
Definition WL_OUTPUT_TRANSFORM_FLIPPED_90 : Z := 5.
Definition WL_OUTPUT_TRANSFORM_FLIPPED_180 : Z := 6.
Definition WL_OUTPUT_TRANSFORM_FLIPPED_270 : Z := 7.

(** The [uint8_t angle] of [convert_transform_to_rot] after the two
    shifts: the left shift is computed on the promoted [int] and stored
    back into eight bits. *)
Definition rot_angle (view_transform output_transform : Z) : Z :=
  let angle := G2D_ROTATION_ANGLE_0 in
  let angle := uint8 (Z.shiftl angle view_transform) in
  let angle := uint8 (Z.shiftr angle output_transform) in
  angle.

(** [convert_transform_to_rot] *)
Definition convert_transform_to_rot (view_transform output_transform : Z) : g2d_rotation :=
  let angle := rot_angle view_transform output_transform in
  if angle =? G2D_ROTATION_ANGLE_0 then G2D_ROTATION_0
  else if (angle =? G2D_ROTATION_ANGLE_POSITIVE_270) || (angle =? G2D_ROTATION_ANGLE_NEGATIVE_90)
  then G2D_ROTATION_90
  else if (angle =? G2D_ROTATION_ANGLE_POSITIVE_90) || (angle =? G2D_ROTATION_ANGLE_NEGATIVE_270)
  then G2D_ROTATION_270
  else if (angle =? G2D_ROTATION_ANGLE_POSITIVE_180) || (angle =? G2D_ROTATION_ANGLE_NEGATIVE_180)
  then G2D_ROTATION_180
  else G2D_ROTATION_0.

(** [calculate_rect_with_transform] *)
Definition calculate_rect_with_transform (surfaceWidth surfaceHeight transform : Z)
    (rect : g2dRECT) : g2dRECT :=
  let tmp := rect in
  if transform =? WL_OUTPUT_TRANSFORM_270 then
    let r := int32 (surfaceWidth - top tmp) in
    let l := int32 (r - int32 (bottom tmp - top tmp)) in
    let t := left tmp in
    let b := int32 (t + int32 (right tmp - left tmp)) in
    mkRECT l t r b
  else if transform =? WL_OUTPUT_TRANSFORM_90 then
    let l := top tmp in
    let r := int32 (l + int32 (bottom tmp - top tmp)) in
    let b := int32 (surfaceHeight - left tmp) in
    let t := int32 (b - int32 (right tmp - left tmp)) in
    mkRECT l t r b
  else if transform =? WL_OUTPUT_TRANSFORM_180 then
    let l := int32 (surfaceWidth - right tmp) in
    let r := int32 (l + int32 (right tmp - left tmp)) in
    let b := int32 (surfaceHeight - top tmp) in
    let t := int32 (b - int32 (bottom tmp - top tmp)) in
    mkRECT l t r b
  else rect.

(** [convert_size_by_view_transform]: the pair [(width_out, height_out)]. *)
Definition convert_size_by_view_transform (width height transform : Z) : Z * Z :=
  if (transform =? WL_OUTPUT_TRANSFORM_90) || (transform =? WL_OUTPUT_TRANSFORM_270)
     || (transform =? WL_OUTPUT_TRANSFORM_FLIPPED_90) || (transform =? WL_OUTPUT_TRANSFORM_FLIPPED_270)
  then (height, width)
  else (width, height).

(** ** The destination clamp: [g2d_clip_rects] *)

(** The two rectangles that [g2d_clip_rects] updates in place. *)
Record rects : Type := mkRects { r_src : g2dRECT; r_dst : g2dRECT }.

(** Where the control of [g2d_clip_rects] stands after a block: the
    conversion of a float had no result ([Undefined]), the function has
    left through one of its [return]s ([Return]), or it goes on to the
    next block ([Go]). *)
Inductive flow : Type :=
  | Undefined
  | Return (r : rects)
  | Go (r : rects).

Definition and_then (f : flow) (k : rects -> flow) : flow :=
  match f with
  | Go r => k r
  | _ => f
  end.

Notation "f >>> k" := (and_then f k) (at level 61, left associativity).

(** [x += f] and [x -= f] for an [int x] and a [float f]. *)
Definition add_assign (x : Z) (f : spec_float) : option Z := F32.to_int (F32.add (F32.of_int x) f).
Definition sub_assign (x : Z) (f : spec_float) : option Z := F32.to_int (F32.sub (F32.of_int x) f).

(** [floorf((float)(over) * scale)] *)
Definition shrink (over : Z) (scale : spec_float) : spec_float :=
  F32.floorf (F32.mul (F32.of_int over) scale).

(** The edges of the source rectangle that a block moves. *)
Inductive src_edge : Type := src_left_add | src_right_sub | src_top_add | src_bottom_sub.

Definition move_src (e : src_edge) (f : spec_float) (s : g2dRECT) : option g2dRECT :=
  match e with
  | src_left_add => v ← add_assign (left s) f; Some (set_left v s)
  | src_right_sub => v ← sub_assign (right s) f; Some (set_right v s)
  | src_top_add => v ← add_assign (top s) f; Some (set_top v s)
  | src_bottom_sub => v ← sub_assign (bottom s) f; Some (set_bottom v s)
  end.

(** The edges of the destination rectangle, each with its test against
    the bound, the part that sticks out and the value it is clamped to. *)
Inductive dst_edge : Type := dst_left | dst_right | dst_top | dst_bottom.

Definition sticks_out (e : dst_edge) (d : g2dRECT) (dstWidth dstHeight : Z) : bool :=
  match e with
  | dst_left => left d <? 0
  | dst_right => right d >? dstWidth
  | dst_top => top d <? 0
  | dst_bottom => bottom d >? dstHeight
  end.

Definition overflow (e : dst_edge) (d : g2dRECT) (dstWidth dstHeight : Z) : Z :=
  match e with
  | dst_left => int32 (- left d)
  | dst_right => int32 (right d - dstWidth)
  | dst_top => int32 (- top d)
  | dst_bottom => int32 (bottom d - dstHeight)
  end.

Definition clamp_dst (e : dst_edge) (d : g2dRECT) (dstWidth dstHeight : Z) : g2dRECT :=
  match e with
  | dst_left => set_left 0 d
  | dst_right => set_right dstWidth d
  | dst_top => set_top 0 d
  | dst_bottom => set_bottom dstHeight d
  end.

(** One [if] block of [g2d_clip_rects]:
    [if (dst edge outside) { src edge += / -= floorf(over * scale);
     dst edge = bound; if (degenerate) return; }]. *)
Definition clip_block (de : dst_edge) (se : src_edge) (scale : spec_float)
    (degenerate : g2dRECT -> bool) (dstWidth dstHeight : Z) (r : rects) : flow :=
  if sticks_out de (r_dst r) dstWidth dstHeight then
    match move_src se (shrink (overflow de (r_dst r) dstWidth dstHeight) scale) (r_src r) with
    | None => Undefined
    | Some s =>
        let r' := mkRects s (clamp_dst de (r_dst r) dstWidth dstHeight) in
        if degenerate s then Return r' else Go r'
    end
  else Go r.

(** [g2d_clip_rects] *)
Definition g2d_clip_rects (transform : g2d_rotation) (r : rects) (dstWidth dstHeight : Z) : flow :=
  let s := r_src r in
  let d := r_dst r in
  let srcWidth := int32 (right s - left s) in
  let srcHeight := int32 (bottom s - top s) in
  let dstW := F32.of_int (int32 (right d - left d)) in
  let dstH := F32.of_int (int32 (bottom d - top d)) in
  let '(scale_h, scale_v) :=
    match transform with
    | G2D_ROTATION_90 | G2D_ROTATION_270 =>
        (F32.div (F32.of_int srcHeight) dstW, F32.div (F32.of_int srcWidth) dstH)
    | _ =>
        (F32.div (F32.of_int srcWidth) dstW, F32.div (F32.of_int srcHeight) dstH)
    end in
  let block de se scale degenerate := clip_block de se scale degenerate dstWidth dstHeight in
  match transform with
  | G2D_ROTATION_0 =>
      Go r
      >>> block dst_left src_left_add scale_h (fun s => left s >=? right s)
      >>> block dst_right src_right_sub scale_h (fun s => right s <=? left s)
      >>> block dst_top src_top_add scale_v (fun s => top s >=? bottom s)
      >>> block dst_bottom src_bottom_sub scale_v (fun s => bottom s <? 0)
  | G2D_ROTATION_270 =>
      Go r
      >>> block dst_left src_bottom_sub scale_h (fun s => top s >=? bottom s)
      >>> block dst_bottom src_right_sub scale_v (fun s => right s <? 0)
      >>> block dst_top src_left_add scale_v (fun s => left s >? right s)
      >>> block dst_right src_top_add scale_h (fun s => top s >=? bottom s)
  | G2D_ROTATION_90 =>
      Go r
      >>> block dst_left src_top_add scale_h (fun s => top s >=? bottom s)
      >>> block dst_top src_right_sub scale_v (fun s => left s >=? right s)
      >>> block dst_bottom src_left_add scale_v (fun s => right s <=? left s)
      >>> block dst_right src_bottom_sub scale_h (fun s => bottom s <=? top s)
  | G2D_ROTATION_180 =>
      Go r
      >>> block dst_left src_right_sub scale_h (fun s => left s >=? right s)
      >>> block dst_right src_left_add scale_h (fun s => right s <=? left s)
      >>> block dst_top src_bottom_sub scale_v (fun s => top s >=? bottom s)
      >>> block dst_bottom src_top_add scale_v (fun s => top s >=? bottom s)
  | _ => Go r
  end.

(** The rectangles as the caller finds them after the call. *)
Definition clipped (f : flow) : option rects :=
  match f with
  | Undefined => None
  | Return r | Go r => Some r
  end.

Definition rect_inside (d : g2dRECT) (W H : Z) : Prop :=
  0 <= left d /\ right d <= W /\ 0 <= top d /\ bottom d <= H.

Definition rect_area (r : g2dRECT) : Z := (right r - left r) * (bottom r - top r).

(** ** Regions *)

(** [pixman_box32_t]: the half-open box [x1 <= x < x2], [y1 <= y < y2]. *)
Record pixman_box32 : Type := mkBox { x1 : Z; y1 : Z; x2 : Z; y2 : Z }.

(** [pixman_region32_t], by the rectangles that
    [pixman_region32_rectangles] hands out. *)
Definition pixman_region32 : Type := list pixman_box32.

Definition box_contains (b : pixman_box32) (x y : Z) : bool :=
  (x1 b <=? x) && (x <? x2 b) && (y1 b <=? y) && (y <? y2 b).

(** The pixels of a region. *)
Definition region_contains (r : pixman_region32) (x y : Z) : bool :=
  existsb (fun b => box_contains b x y) r.

(** [pixman_region32_init]: the empty region. *)
Definition pixman_region32_init : pixman_region32 := [].

(** [pixman_region32_not_empty] *)
Definition pixman_region32_not_empty (r : pixman_region32) : bool :=
  match r with
  | [] => false
  | _ :: _ => true
  end.

(** [pixman_region32_rectangles] *)
Definition pixman_region32_rectangles (r : pixman_region32) : list pixman_box32 := r.

(** The operations of the pixman library on regions that the renderer
    calls; the library is not part of the renderer. *)
Class Pixman : Type := {
  pixman_region32_union : pixman_region32 -> pixman_region32 -> pixman_region32;
  pixman_region32_intersect : pixman_region32 -> pixman_region32 -> pixman_region32;
  pixman_region32_subtract : pixman_region32 -> pixman_region32 -> pixman_region32;
  pixman_region32_init_rect : Z -> Z -> Z -> Z -> pixman_region32;
}.

(** What pixman promises of a union: its pixels are those of the two
    arguments. *)
Definition union_law `{Pixman} : Prop :=
  forall a b x y,
    region_contains (pixman_region32_union a b) x y
    = region_contains a x y || region_contains b x y.

(** A plain implementation of the region operations on lists of boxes,
    used to run the renderer on concrete inputs. *)
Module BoxLists.
Definition box_not_empty (b : pixman_box32) : bool := (x1 b <? x2 b) && (y1 b <? y2 b).

Definition box_intersect (a b : pixman_box32) : pixman_box32 :=
    mkBox (Z.max (x1 a) (x1 b)) (Z.max (y1 a) (y1 b)) (Z.min (x2 a) (x2 b)) (Z.min (y2 a) (y2 b)).

  (** [a] without [b]: the bands above and below [b], then the parts left
      and right of it. *)
Definition box_subtract (a b : pixman_box32) : pixman_region32 :=
    let i := box_intersect a b in
    if box_not_empty i then
      List.filter (fun c => box_not_empty c)
        [ mkBox (x1 a) (y1 a) (x2 a) (y1 i);
          mkBox (x1 a) (y1 i) (x1 i) (y2 i);
          mkBox (x2 i) (y1 i) (x2 a) (y2 i);
          mkBox (x1 a) (y2 i) (x2 a) (y2 a) ]
    else [a].

Definition intersect (r s : pixman_region32) : pixman_region32 :=
    List.filter (fun c => box_not_empty c)
      (flat_map (fun a => map (box_intersect a) s) r).

Definition subtract (r s : pixman_region32) : pixman_region32 :=
    fold_left (fun acc b => flat_map (fun a => box_subtract a b) acc) s r.

Definition union (r s : pixman_region32) : pixman_region32 := r ++ s.

Definition init_rect (x y width height : Z) : pixman_region32 :=
    List.filter (fun c => box_not_empty c) [mkBox x y (x + width) (y + height)].

#[export] Instance pixman : Pixman := {
    pixman_region32_union := union;
    pixman_region32_intersect := intersect;
    pixman_region32_subtract := subtract;
    pixman_region32_init_rect := init_rect;
  }.
End BoxLists.

(** ** The damage ring of an output *)

Definition BUFFER_DAMAGE_COUNT : Z := 3.

(** [struct g2d_output_state], the fields of the damage ring. The state
    is allocated zeroed by [g2d_drm_renderer_output_create], which then
    initialises each region of [buffer_damage]. *)
Record damage_ring : Type := mkRing {
  current_buffer : Z;
  buffer_damage : list pixman_region32;
}.

Definition output_create_ring : damage_ring :=
  mkRing 0 (replicate (Z.to_nat BUFFER_DAMAGE_COUNT) pixman_region32_init).

(** The [current_buffer] indexes the array and the array has
    [BUFFER_DAMAGE_COUNT] regions. *)
Definition ring_ok (go : damage_ring) : Prop :=
  0 <= current_buffer go < BUFFER_DAMAGE_COUNT
  /\ length (buffer_damage go) = Z.to_nat BUFFER_DAMAGE_COUNT.

Section DamageRing.
Context `{Pixman}.

  (** [output_get_damage]: the loop over [i = 0 .. BUFFER_DAMAGE_COUNT - 1]
      that unions [go->buffer_damage[i]] into [buffer_damage]. *)
Definition output_get_damage (go : damage_ring) (buffer_damage0 : pixman_region32)
      : pixman_region32 :=
    fold_left (fun acc slot => pixman_region32_union acc slot)
      (take (Z.to_nat BUFFER_DAMAGE_COUNT) (buffer_damage go)) buffer_damage0.

  (** [output_rotate_damage]; no result when the new index falls outside
      the array. *)
Definition output_rotate_damage (go : damage_ring) (output_damage : pixman_region32)
      : option damage_ring :=
    let cb := Z.rem (int32 (current_buffer go + 1)) BUFFER_DAMAGE_COUNT in
    if (0 <=? cb) && (Z.to_nat cb <? length (buffer_damage go))%nat then
      Some (mkRing cb (<[Z.to_nat cb := output_damage]> (buffer_damage go)))
    else None.

  (** The opening of [g2d_renderer_repaint_output]: the [total_damage]
      that is handed to [repaint_views], and the ring after the call. *)
Definition repaint_output_damage (go : damage_ring) (output_damage : pixman_region32)
      : option (pixman_region32 * damage_ring) :=
    let total_damage := pixman_region32_init in
    let buffer_damage := pixman_region32_init in
    let buffer_damage := output_get_damage go buffer_damage in
    go' ← output_rotate_damage go output_damage;
    let total_damage := pixman_region32_union buffer_damage output_damage in
    Some (total_damage, go').

  (** Successive repaints of one output: the total damage of each frame,
      oldest first, and the ring after the last one. *)
Fixpoint repaint_frames (go : damage_ring) (frames : list pixman_region32)
      : option (list pixman_region32 * damage_ring) :=
    match frames with
    | [] => Some ([], go)
    | d :: rest =>
        '(total, go') ← repaint_output_damage go d;
        '(totals, go'') ← repaint_frames go' rest;
        Some (total :: totals, go'')
    end.
End DamageRing.

(** ** Surfaces of the G2D library *)

(** [enum g2d_format], the formats that the renderer names. *)
Inductive g2d_format : Type :=
  | G2D_RGB565 | G2D_RGBA8888 | G2D_RGBX8888 | G2D_BGRA8888 | G2D_BGRX8888
  | G2D_BGR565 | G2D_ARGB8888 | G2D_ABGR8888 | G2D_XRGB8888 | G2D_XBGR8888
  | G2D_NV12 | G2D_I420 | G2D_YV12 | G2D_YUYV.

(** [_hasAlpha] *)
Definition _hasAlpha (format : g2d_format) : bool :=
  match format with
  | G2D_RGBA8888 | G2D_BGRA8888 | G2D_ARGB8888 | G2D_ABGR8888 => true
  | _ => false
  end.

(** [enum g2d_blend_func]: the two factors that the renderer sets, and
    the zero of a cleared structure. *)
Inductive g2d_blend_func : Type := G2D_ZERO | G2D_ONE | G2D_ONE_MINUS_SRC_ALPHA.

(** [enum g2d_cap_mode] *)
Inductive g2d_cap_mode : Type := G2D_BLEND | G2D_GLOBAL_ALPHA.

(** [struct g2d_surface] *)
Record g2d_surface : Type := mkSurface {
  base_format : g2d_format;
  base_planes : list Z;
  base_left : Z;
  base_top : Z;
  base_right : Z;
  base_bottom : Z;
  base_stride : Z;
  base_width : Z;
  base_height : Z;
  base_blendfunc : g2d_blend_func;
  base_global_alpha : Z;
  base_clrcolor : Z;
  base_rot : g2d_rotation;
}.

(** [struct g2d_surfaceEx]: the surface, its tiling, the tile status
    ([ts_addr], [fc_enabled], [fc_value], [fc_value_upper]) and the first
    reserved word, which carries a fence. *)
Record g2d_surfaceEx : Type := mkSurfaceEx {
  base : g2d_surface;
  tiling : Z;
  ts : Z * Z * Z * Z;
  reserved0 : Z;
}.

Definition with_base (f : g2d_surface -> g2d_surface) (s : g2d_surfaceEx) : g2d_surfaceEx :=
  mkSurfaceEx (f (base s)) (tiling s) (ts s) (reserved0 s).

Definition set_rect (rect : g2dRECT) (b : g2d_surface) : g2d_surface :=
  mkSurface (base_format b) (base_planes b) (left rect) (top rect) (right rect) (bottom rect)
    (base_stride b) (base_width b) (base_height b) (base_blendfunc b) (base_global_alpha b)
    (base_clrcolor b) (base_rot b).

Definition set_blendfunc (f : g2d_blend_func) (b : g2d_surface) : g2d_surface :=
  mkSurface (base_format b) (base_planes b) (base_left b) (base_top b) (base_right b) (base_bottom b)
    (base_stride b) (base_width b) (base_height b) f (base_global_alpha b)
    (base_clrcolor b) (base_rot b).

Definition set_global_alpha (a : Z) (b : g2d_surface) : g2d_surface :=
  mkSurface (base_format b) (base_planes b) (base_left b) (base_top b) (base_right b) (base_bottom b)
    (base_stride b) (base_width b) (base_height b) (base_blendfunc b) a
    (base_clrcolor b) (base_rot b).

Definition set_clrcolor (c : Z) (b : g2d_surface) : g2d_surface :=
  mkSurface (base_format b) (base_planes b) (base_left b) (base_top b) (base_right b) (base_bottom b)
    (base_stride b) (base_width b) (base_height b) (base_blendfunc b) (base_global_alpha b)
    c (base_rot b).

Definition set_rot (r : g2d_rotation) (b : g2d_surface) : g2d_surface :=
  mkSurface (base_format b) (base_planes b) (base_left b) (base_top b) (base_right b) (base_bottom b)
    (base_stride b) (base_width b) (base_height b) (base_blendfunc b) (base_global_alpha b)
    (base_clrcolor b) r.

(** [g2d_SetSurfaceRect], for the two pointers that every caller passes
    non-null. *)
Definition g2d_SetSurfaceRect (g2dSurface : g2d_surfaceEx) (rect : g2dRECT) : g2d_surfaceEx :=
  with_base (set_rect rect) g2dSurface.

(** [struct g2d_buf]: the physical and the virtual address of a buffer. *)
Record g2d_buf : Type := mkBuf { buf_paddr : Z; buf_vaddr : Z }.

(** [struct wl_viv_buffer], the fields that [get_g2dSurface] reads. *)
Record wl_viv_buffer : Type := mkViv {
  viv_width : Z;
  viv_height : Z;
  viv_format : g2d_format;
  viv_alignedWidth : Z;
  viv_physical : Z * Z * Z;
  viv_gpuBaseAddr : Z;
  viv_tiling : Z;
  viv_ts_addr : Z;
  viv_fc_enabled : Z;
  viv_fcValue : Z;
  viv_fcValueUpper : Z;
  viv_tileStatus_enabled : Z;
}.

(** ** Calls that leave the renderer *)

(** The two listeners of a surface state. *)
Inductive destroy_listener : Type := surface_destroy_listener | renderer_destroy_listener.

(** [enum weston_buffer_reference_type] *)
Inductive weston_buffer_access : Type := BUFFER_MAY_BE_ACCESSED | BUFFER_WILL_NOT_BE_ACCESSED.

(** A call into the G2D library, into EGL, into the C library, into
    libweston and libwayland or into the log, with the arguments that the
    renderer passes. [weston_buffer_reference] tells whether it is given
    the buffer or a null pointer, and [weston_buffer_release_reference]
    whether it is given the release of the surface or a null pointer. *)
Inductive hw_call : Type :=
  | g2d_enable (cap : g2d_cap_mode)
  | g2d_disable (cap : g2d_cap_mode)
  | g2d_set_clipping (l t r b : Z)
  | g2d_clear (dst : g2d_surface)
  | g2d_blitEx (src dst : g2d_surfaceEx)
  | g2d_finish
  | g2d_alloc (size cacheable : Z)
  | g2d_free (buf : g2d_buf)
  | memcpy (dest src n : Z)
  | update_buffer
  | poll (fd timeout : Z)
  | weston_log (msg : string)
  | printG2dSurfaceInfo (g2dSurface : g2d_surfaceEx) (msg : string)
  | zalloc
  | wl_signal_add (listener : destroy_listener)
  | weston_buffer_reference (buffer : bool) (access : weston_buffer_access)
  | weston_buffer_release_reference (buffer_release : bool)
  | wl_shm_buffer_begin_access
  | wl_shm_buffer_end_access.

(** What is outside the renderer answers a call knowing all the calls
    made so far, the last of which is the call to answer. *)
Record environment : Type := mkEnv {
  (** the status that a G2D call returns *)
  g2d_status : list hw_call -> Z;
  (** the buffer that [g2d_alloc] returns, if any *)
  g2d_alloc_result : list hw_call -> option g2d_buf;
  (** what [poll] returns, the [revents] it stores and the [errno] it leaves *)
  poll_result : list hw_call -> Z * Z * Z;
  (** the user data of a buffer of EGL once [update_buffer] has run *)
  updated_viv_buffer : list hw_call -> wl_viv_buffer;
  (** whether [zalloc] returns memory *)
  zalloc_result : list hw_call -> bool;
}.

(** The calls made so far, oldest first, and [errno]. *)
Record world : Type := mkWorld { calls : list hw_call; errno : Z }.

(** A computation of the renderer: it may have no defined result, and
    it extends the calls and sets [errno]. *)
Definition M (A : Type) : Type := world -> option (A * world).

Definition ret {A : Type} (a : A) : M A := fun w => Some (a, w).

Definition bind {A B : Type} (m : M A) (k : A -> M B) : M B :=
  fun w => match m w with
           | Some (a, w') => k a w'
           | None => None
           end.

Definition undefined {A : Type} : M A := fun _ => None.

Declare Scope renderer_scope.
Delimit Scope renderer_scope with M.
Notation "x <- m ;; k" := (bind m (fun x => k))
  (at level 100, m at next level, right associativity) : renderer_scope.
Notation "m ;;; k" := (bind m (fun _ => k))
  (at level 100, right associativity) : renderer_scope.

(** Performing a call: it joins the calls made so far. *)
Definition emit (c : hw_call) : M unit :=
  fun w => Some (tt, mkWorld (calls w ++ [c]) (errno w)).

(** A [for] loop over the values [l] of its index. *)
Fixpoint for_each {A : Type} (l : list A) (body : A -> M unit) : M unit :=
  match l with
  | [] => ret tt
  | x :: rest => (body x ;;; for_each rest body)%M
  end.

(** The numbers [0 .. n - 1]. *)
Definition upto (n : Z) : list Z := map Z.of_nat (seq 0 (Z.to_nat n)).

(** A G2D call and the status it returns. *)
Definition g2d (env : environment) (c : hw_call) : M Z :=
  fun w => let cs := calls w ++ [c] in Some (g2d_status env cs, mkWorld cs (errno w)).

Definition set_errno (e : Z) : M unit := fun w => Some (tt, mkWorld (calls w) e).
Definition get_errno : M Z := fun w => Some (errno w, w).

(** The calls that draw: the scissor, the clear and the blit. *)
Definition is_draw_call (c : hw_call) : bool :=
  match c with
  | g2d_set_clipping _ _ _ _ | g2d_clear _ | g2d_blitEx _ _ => true
  | _ => false
  end.

(** [g2d_clear_solid]: the status and the destination surface after it. *)
Definition g2d_clear_solid (env : environment) (dstG2dSurface : g2d_surfaceEx)
    (clipRect : g2dRECT) (clcolor : Z) : M (Z * g2d_surfaceEx) :=
  (let soildSurface := g2d_SetSurfaceRect dstG2dSurface clipRect in
   let soildSurface := with_base (set_clrcolor clcolor) soildSurface in
   st <- g2d env (g2d_clear (base soildSurface)) ;;
   if st =? 0 then ret (0, soildSurface)
   else (emit (printG2dSurfaceInfo soildSurface "SOILD DST:") ;;; ret (-1, soildSurface)))%M.

(** [g2d_blit_surface]: the status and the two surfaces after it. *)
Definition g2d_blit_surface (env : environment) (srcG2dSurface dstG2dSurface : g2d_surfaceEx)
    (srcRect dstRect : g2dRECT) : M (Z * g2d_surfaceEx * g2d_surfaceEx) :=
  (let src := g2d_SetSurfaceRect srcG2dSurface srcRect in
   let dst := g2d_SetSurfaceRect dstG2dSurface dstRect in
   let src := with_base (set_blendfunc G2D_ONE) src in
   let dst := with_base (set_blendfunc G2D_ONE_MINUS_SRC_ALPHA) dst in
   (if _hasAlpha (base_format (base src)) then ret tt else emit (g2d_disable G2D_BLEND)) ;;;
   st <- g2d env (g2d_blitEx src dst) ;;
   if st =? 0 then ret (0, src, dst)
   else (emit (printG2dSurfaceInfo src "SRC:") ;;;
         emit (printG2dSurfaceInfo dst "DST:") ;;;
         ret (-1, src, dst)))%M.

(** ** Views, surfaces and outputs of the compositor *)

(** [enum weston_buffer_type] *)
Inductive weston_buffer_type : Type :=
  | WESTON_BUFFER_SHM
  | WESTON_BUFFER_DMABUF
  | WESTON_BUFFER_RENDERER_OPAQUE
  | WESTON_BUFFER_SOLID.

(** [DRM_FORMAT_ARGB8888], the fourcc code 'AR24'. *)
Definition DRM_FORMAT_ARGB8888 : Z := 0x34325241.

(** [struct weston_buffer]: its type, whether it has a resource, the
    fourcc code of its pixel format, and the user data of the resource
    of a buffer that EGL owns. *)
Record weston_buffer : Type := mkBuffer {
  buffer_type : weston_buffer_type;
  buffer_resource : bool;
  buffer_pixel_format : Z;
  buffer_viv : wl_viv_buffer;
}.

(** [struct weston_buffer_viewport], the [buffer] part: the transform
    and the scale of the buffer and its source rectangle as [wl_fixed_t]. *)
Record buffer_viewport : Type := mkViewport {
  vp_transform : Z;
  vp_src_x : Z;
  vp_src_y : Z;
  vp_src_width : Z;
  vp_src_height : Z;
  vp_scale : Z;
}.

(** [enum wl_shm_format], the formats that the renderer names. *)
Inductive wl_shm_format : Type :=
  | WL_SHM_FORMAT_ARGB8888
  | WL_SHM_FORMAT_XRGB8888
  | WL_SHM_FORMAT_RGB565
  | WL_SHM_FORMAT_YUYV
  | WL_SHM_FORMAT_NV12
  | WL_SHM_FORMAT_YUV420
  | WL_SHM_FORMAT_other (code : Z).

(** [struct wl_shm_buffer], by what [wl_shm_buffer_get_width],
    [wl_shm_buffer_get_height], [wl_shm_buffer_get_format],
    [wl_shm_buffer_get_stride] and [wl_shm_buffer_get_data] return. *)
Record wl_shm_buffer : Type := mkShm {
  shm_width : Z;
  shm_height : Z;
  shm_format : wl_shm_format;
  shm_stride : Z;
  shm_data : Z;
}.

(** [struct linux_dmabuf_buffer]: the fields of its
    [struct dmabuf_attributes] that the renderer reads, each array by its
    entries, and its user data, the physical addresses of the planes. *)
Record linux_dmabuf_buffer : Type := mkDmabuf {
  attr_width : Z;
  attr_height : Z;
  attr_format : Z;
  attr_modifier0 : Z;
  attr_n_planes : Z;
  attr_offset : Z -> Z;
  attr_stride : Z -> Z;
  dmabuf_user_data : option (list Z);
}.

(** [struct weston_buffer] as attaching has it: the fields that the
    repaint reads ([weston_buffer]), the size that attaching stores, and
    what stands behind the buffer: shared memory ([shm_buffer], which is
    also what [wl_shm_buffer_get] finds behind the resource), a dmabuf, or
    the four channels of a solid colour. *)
Record attach_buffer : Type := mkAttachBuffer {
  buffer_base : weston_buffer;
  buffer_width : Z;
  buffer_height : Z;
  buffer_shm : option wl_shm_buffer;
  buffer_dmabuf : option linux_dmabuf_buffer;
  buffer_solid : spec_float * spec_float * spec_float * spec_float;
}.

Definition set_buffer_size (width height : Z) (b : attach_buffer) : attach_buffer :=
  mkAttachBuffer (buffer_base b) width height (buffer_shm b) (buffer_dmabuf b) (buffer_solid b).

(** [struct weston_surface]: beside what the repaint reads, the buffer
    that the surface refers to, its damage, and of each of its views
    whether it is on the primary plane. *)
Record weston_surface : Type := mkWSurface {
  surface_buffer_viewport : buffer_viewport;
  surface_width : Z;
  surface_height : Z;
  surface_opaque : pixman_region32;
  acquire_fence_fd : Z;
  surface_buffer_ref : option attach_buffer;
  surface_damage : pixman_region32;
  surface_views_on_primary_plane : list bool;
}.

(** [struct weston_coord]: two doubles. *)
Record weston_coord : Type := mkCoord { cx : spec_float; cy : spec_float }.

(** [struct weston_view]; [view_matrix] stands for the transformation
    that [weston_coord_surface_to_global] applies. *)
Record weston_view : Type := mkView {
  surface : weston_surface;
  alpha : spec_float;
  transform_enabled : bool;
  transform_boundingbox : pixman_region32;
  view_matrix : list spec_float;
  clip : pixman_region32;
  geometry_scissor_enabled : bool;
  geometry_scissor : pixman_region32;
}.

(** [struct weston_output]: the position and the transform. *)
Record weston_output : Type := mkOutput { output_x : Z; output_transform : Z }.

(** [struct g2d_surface_state] *)
Record g2d_surface_state : Type := mkGs {
  solid_clear : bool;
  clcolor : Z;
  buffer_ref_buffer : option weston_buffer;
  attached : Z;
  g2d_surface_of : g2d_surfaceEx;
}.

Definition set_g2d_surface (s : g2d_surfaceEx) (gs : g2d_surface_state) : g2d_surface_state :=
  mkGs (solid_clear gs) (clcolor gs) (buffer_ref_buffer gs) (attached gs) s.

Definition set_solid_clear (v : bool) (s : g2d_surface_state) : g2d_surface_state :=
  mkGs v (clcolor s) (buffer_ref_buffer s) (attached s) (g2d_surface_of s).
Definition set_clcolor (v : Z) (s : g2d_surface_state) : g2d_surface_state :=
  mkGs (solid_clear s) v (buffer_ref_buffer s) (attached s) (g2d_surface_of s).
Definition set_buffer_ref (v : option weston_buffer) (s : g2d_surface_state)
    : g2d_surface_state :=
  mkGs (solid_clear s) (clcolor s) v (attached s) (g2d_surface_of s).
Definition set_attached (v : Z) (s : g2d_surface_state) : g2d_surface_state :=
  mkGs (solid_clear s) (clcolor s) (buffer_ref_buffer s) v (g2d_surface_of s).

(** The whole of [struct g2d_surface_state], which
    [surface->renderer_state] points to: the fields that the repaint
    reads ([g2d_surface_state]) and beside them the colour, the pitch,
    the bytes of a pixel, the buffer of the G2D library that holds the
    copy of a buffer in shared memory, its length, and the damage not yet
    copied. *)
Record renderer_state : Type := mkState {
  gs_state : g2d_surface_state;
  gs_color : spec_float * spec_float * spec_float * spec_float;
  gs_pitch : Z;
  gs_bpp : Z;
  gs_shm_buf : option g2d_buf;
  gs_shm_buf_length : Z;
  gs_texture_damage : pixman_region32;
}.

Definition with_state (f : g2d_surface_state -> g2d_surface_state) (gs : renderer_state)
    : renderer_state :=
  mkState (f (gs_state gs)) (gs_color gs) (gs_pitch gs) (gs_bpp gs) (gs_shm_buf gs)
    (gs_shm_buf_length gs) (gs_texture_damage gs).
Definition set_color (c : spec_float * spec_float * spec_float * spec_float)
    (gs : renderer_state) : renderer_state :=
  mkState (gs_state gs) c (gs_pitch gs) (gs_bpp gs) (gs_shm_buf gs) (gs_shm_buf_length gs)
    (gs_texture_damage gs).
Definition set_bpp (v : Z) (gs : renderer_state) : renderer_state :=
  mkState (gs_state gs) (gs_color gs) (gs_pitch gs) v (gs_shm_buf gs) (gs_shm_buf_length gs)
    (gs_texture_damage gs).
Definition set_shm_buf (v : option g2d_buf) (gs : renderer_state) : renderer_state :=
  mkState (gs_state gs) (gs_color gs) (gs_pitch gs) (gs_bpp gs) v (gs_shm_buf_length gs)
    (gs_texture_damage gs).
Definition set_shm_buf_length (v : Z) (gs : renderer_state) : renderer_state :=
  mkState (gs_state gs) (gs_color gs) (gs_pitch gs) (gs_bpp gs) (gs_shm_buf gs) v
    (gs_texture_damage gs).
Definition set_texture_damage (v : pixman_region32) (gs : renderer_state) : renderer_state :=
  mkState (gs_state gs) (gs_color gs) (gs_pitch gs) (gs_bpp gs) (gs_shm_buf gs)
    (gs_shm_buf_length gs) v.

(** What the renderer takes from the headers of the G2D library and of
    drm_fourcc.h: [buf_size] of a [struct g2d_buf], three tilings, the
    [struct g2d_surfaceEx] of a zeroed structure, three modifiers; and
    whether the values of [enum g2d_format] are signed, which the compiler
    chooses and which decides the test [g2dFormat < 0]. *)
Class Platform : Type := {
  buf_size : g2d_buf -> Z;
  G2D_LINEAR : Z;
  G2D_SUPERTILED : Z;
  G2D_AMPHION_TILED : Z;
  zeroed_g2d_surface : g2d_surfaceEx;
  DRM_FORMAT_MOD_AMPHION_TILED : Z;
  DRM_FORMAT_MOD_VIVANTE_SUPER_TILED : Z;
  DRM_FORMAT_MOD_VIVANTE_SPLIT_SUPER_TILED : Z;
  g2d_format_signed : bool;
}.

(** [struct g2d_renderer]: whether [update_buffer] is set. *)
Record g2d_renderer : Type := mkRenderer { has_update_buffer : bool }.

(** [struct clip_context], the clip rectangle: four floats. *)
Record clip_context : Type := mkClip {
  clip_x1 : spec_float;
  clip_y1 : spec_float;
  clip_x2 : spec_float;
  clip_y2 : spec_float;
}.

(** The functions of libweston and of libwayland that the renderer calls
    on coordinates; a polygon is the list of its vertices. *)
Class Geometry : Type := {
  weston_coord_surface_to_global : weston_view -> weston_coord -> weston_coord;
  clip_simple : clip_context -> list weston_coord -> list weston_coord;
  clip_transformed : clip_context -> list weston_coord -> list weston_coord;
  wl_fixed_from_double : spec_float -> Z;
}.

(** [wl_fixed_to_int]: [f / 256]. *)
Definition wl_fixed_to_int (f : Z) : Z := Z.quot f 256.

(** [MIN] and [MAX] of shared/helpers.h on a float and a double, stored
    back into the float. *)
Definition MIN_fd (x y : spec_float) : spec_float :=
  if F64.ltb (F64.of_float x) y then x else F32.of_double y.
Definition MAX_fd (x y : spec_float) : spec_float :=
  if F64.gtb (F64.of_float x) y then x else F32.of_double y.

(** [min] and [max] of the renderer on a float and a double, stored back
    into the float. *)
Definition min_fd (a b : spec_float) : spec_float :=
  if F64.gtb (F64.of_float a) b then F32.of_double b else a.
Definition max_fd (a b : spec_float) : spec_float :=
  if F64.gtb (F64.of_float a) b then a else F32.of_double b.

(** [min] of the renderer on two ints. *)
Definition min_int (a b : Z) : Z := if a >? b then b else a.

(** The bounding box [(min_x, max_x, min_y, max_y)] of vertices, each
    bound a float that starts at the first vertex. *)
Definition bounding_box (lo hi : spec_float -> spec_float -> spec_float)
    (p0 : weston_coord) (ps : list weston_coord)
    : spec_float * spec_float * spec_float * spec_float :=
  fold_left
    (fun '(min_x, max_x, min_y, max_y) p =>
       (lo min_x (cx p), hi max_x (cx p), lo min_y (cy p), hi max_y (cy p)))
    ps
    (F32.of_double (cx p0), F32.of_double (cx p0), F32.of_double (cy p0), F32.of_double (cy p0)).

(** ** Attaching a buffer to a surface *)

(** [ALIGN_TO_16] and [ALIGN_TO_64], on an [int]. *)
Definition ALIGN_TO_16 (a : Z) : Z := Z.land (int32 (a + 15)) (Z.lnot 15).
Definition ALIGN_TO_64 (a : Z) : Z := Z.land (int32 (a + 63)) (Z.lnot 63).

(** The fourcc codes of drm_fourcc.h that the renderer names beside
    [DRM_FORMAT_ARGB8888]: 'AB24', 'XR24', 'RG16', 'YUYV', 'NV12', 'YU12'. *)
Definition DRM_FORMAT_ABGR8888 : Z := 0x34324241.
Definition DRM_FORMAT_XRGB8888 : Z := 0x34325258.
Definition DRM_FORMAT_RGB565 : Z := 0x36314752.
Definition DRM_FORMAT_YUYV : Z := 0x56595559.
Definition DRM_FORMAT_NV12 : Z := 0x3231564e.
Definition DRM_FORMAT_YUV420 : Z := 0x32315559.

(** [(uint8_t) round(x)] for a [float x]: the nearest integer, halves
    away from zero; the conversion has a result when that integer is a
    value of [uint8_t]. *)
Definition round_to_uint8 (x : spec_float) : option Z :=
  match x with
  | S754_zero _ => Some 0
  | S754_finite s m e =>
      let q :=
        if 0 <=? e then Z.shiftl (Z.pos m) e
        else Z.shiftr (Z.pos m + Z.shiftl 1 (- e - 1)) (- e) in
      let v := cond_neg s q in
      if (0 <=? v) && (v <=? 255) then Some v else None
  | _ => None
  end.

(** [pack_color]: the four channels are rounded first; then the format
    decides, and a format that is neither of the two fails the assertion,
    which ends the program. The shifts are computed on [int], where a left
    shift wraps as the other arithmetic does, and the result is converted
    to [uint32_t]. *)
Definition pack_color (format : Z) (c : spec_float * spec_float * spec_float * spec_float)
    : option Z :=
  let '(c0, c1, c2, c3) := c in
  r ← round_to_uint8 (F32.mul c0 (F32.of_int 255));
  g ← round_to_uint8 (F32.mul c1 (F32.of_int 255));
  b ← round_to_uint8 (F32.mul c2 (F32.of_int 255));
  a ← round_to_uint8 (F32.mul c3 (F32.of_int 255));
  if (format =? DRM_FORMAT_ARGB8888) || (format =? DRM_FORMAT_XRGB8888)
  then Some (uint32 (Z.lor (Z.lor (Z.lor (int32 (Z.shiftl a 24)) (int32 (Z.shiftl b 16)))
                             (int32 (Z.shiftl g 8))) r))
  else None.

(** [g2d_renderer_attach_solid], on the surface state that
    [get_surface_state] returns. *)
Definition g2d_renderer_attach_solid (gs : renderer_state) (buffer : attach_buffer)
    : option renderer_state :=
  let gs := set_color (buffer_solid buffer) gs in
  let gs := with_state (set_solid_clear true) gs in
  c ← pack_color (buffer_pixel_format (buffer_base buffer)) (gs_color gs);
  Some (with_state (set_clcolor (int32 c)) gs).

(** [g2d_renderer_attach_egl]: the size of the buffer is that of the
    buffer of EGL behind its resource. *)
Definition g2d_renderer_attach_egl (buffer : attach_buffer) : attach_buffer :=
  let vivBuffer := buffer_viv (buffer_base buffer) in
  set_buffer_size (viv_width vivBuffer) (viv_height vivBuffer) buffer.

(** [g2d_renderer_get_g2dformat_from_dmabuf]: the format stored through
    [g2dFormat], none for the value -1, and the bytes of a pixel stored
    through [bpp], which an unknown format leaves as they were. *)
Definition g2d_renderer_get_g2dformat_from_dmabuf (dmaformat : Z) (bpp : Z)
    : M (option g2d_format * Z) :=
  if dmaformat =? DRM_FORMAT_ARGB8888 then ret (Some G2D_BGRA8888, 4)
  else if dmaformat =? DRM_FORMAT_ABGR8888 then ret (Some G2D_RGBA8888, 4)
  else if dmaformat =? DRM_FORMAT_XRGB8888 then ret (Some G2D_BGRX8888, 4)
  else if dmaformat =? DRM_FORMAT_RGB565 then ret (Some G2D_RGB565, 2)
  else if dmaformat =? DRM_FORMAT_YUYV then ret (Some G2D_YUYV, 2)
  else if dmaformat =? DRM_FORMAT_NV12 then ret (Some G2D_NV12, 1)
  else if dmaformat =? DRM_FORMAT_YUV420 then ret (Some G2D_I420, 1)
  else (emit (weston_log "warning: unknown dmabuf buffer format") ;;; ret (None, bpp))%M.

(** The local variables that the [switch] of
    [g2d_renderer_copy_shm_buffer] sets. *)
Record shm_plan : Type := mkPlan {
  n_planes : Z;
  plan_height : Z;
  plane_size : list Z;
  src_plane_offset : list Z;
  dst_plane_offset : list Z;
  uv_src_stride : Z;
  uv_dst_stride : Z;
}.

(** The entry [i] of an array of three [int]. *)
Definition at_plane (l : list Z) (i : Z) : Z := nth (Z.to_nat i) l 0.

(** The [switch] of [g2d_renderer_copy_shm_buffer]; no plan for a format
    that it does not name. *)
Definition copy_plan (shm : wl_shm_buffer) (buffer_height alignedWidth : Z) : option shm_plan :=
  let stride := shm_stride shm in
  let size0 := int32 (stride * buffer_height) in
  match shm_format shm with
  | WL_SHM_FORMAT_XRGB8888 | WL_SHM_FORMAT_ARGB8888 | WL_SHM_FORMAT_RGB565 =>
      Some (mkPlan 1 buffer_height [size0; 0; 0] [0; 0; 0] [0; 0; 0] 0 0)
  | WL_SHM_FORMAT_YUYV =>
      Some (mkPlan 1 (ALIGN_TO_16 buffer_height) [size0; 0; 0] [0; 0; 0] [0; 0; 0] 0 0)
  | WL_SHM_FORMAT_NV12 =>
      let height := ALIGN_TO_16 buffer_height in
      Some (mkPlan 2 height [size0; Z.quot size0 2; 0] [0; size0; 0]
              [0; int32 (alignedWidth * height); 0] stride alignedWidth)
  | WL_SHM_FORMAT_YUV420 =>
      let height := ALIGN_TO_16 buffer_height in
      let size1 := Z.quot size0 4 in
      let dst1 := int32 (alignedWidth * height) in
      Some (mkPlan 3 height [size0; size1; size1] [0; size0; int32 (size0 + size1)]
              [0; dst1; int32 (dst1 + Z.quot (int32 (alignedWidth * height)) 4)]
              (Z.quot stride 2) (Z.quot alignedWidth 2))
  | WL_SHM_FORMAT_other _ => None
  end.

(** The format, the bytes of a pixel, the height and the length of the
    buffer that the [switch] of [g2d_renderer_attach_shm] sets; the height
    and the length are 0 where the [switch] leaves them. *)
Definition shm_layout (format : wl_shm_format) (buffer_height alignedWidth : Z)
    : option (g2d_format * Z * Z * Z) :=
  let height := ALIGN_TO_16 buffer_height in
  match format with
  | WL_SHM_FORMAT_XRGB8888 => Some (G2D_BGRX8888, 4, 0, 0)
  | WL_SHM_FORMAT_ARGB8888 => Some (G2D_BGRA8888, 4, 0, 0)
  | WL_SHM_FORMAT_RGB565 => Some (G2D_RGB565, 2, 0, 0)
  | WL_SHM_FORMAT_YUYV =>
      Some (G2D_YUYV, 2, height, int32 (int32 (alignedWidth * height) * 2))
  | WL_SHM_FORMAT_YUV420 =>
      Some (G2D_I420, 1, height, Z.quot (int32 (int32 (alignedWidth * height) * 3)) 2)
  | WL_SHM_FORMAT_NV12 =>
      Some (G2D_NV12, 1, height, Z.quot (int32 (int32 (alignedWidth * height) * 3)) 2)
  | WL_SHM_FORMAT_other _ => None
  end.

Section Driver.
Context `{Geometry} `{Pixman} `{Platform}.
Variable env : environment.

  (** [calculate_edges]: the vertices written to [e]; their number is the
      value that the function returns. *)
Definition calculate_edges (ev : weston_view) (rect surf_rect : pixman_box32)
      : list weston_coord :=
    let tmp :=
      [ mkCoord (F64.of_int (x1 surf_rect)) (F64.of_int (y1 surf_rect));
        mkCoord (F64.of_int (x2 surf_rect)) (F64.of_int (y1 surf_rect));
        mkCoord (F64.of_int (x2 surf_rect)) (F64.of_int (y2 surf_rect));
        mkCoord (F64.of_int (x1 surf_rect)) (F64.of_int (y2 surf_rect)) ] in
    let ctx := mkClip (F32.of_int (x1 rect)) (F32.of_int (y1 rect))
                      (F32.of_int (x2 rect)) (F32.of_int (y2 rect)) in
    let surf := map (weston_coord_surface_to_global ev) tmp in
    match surf with
    | [] => []
    | p0 :: ps =>
        let '(min_x, max_x, min_y, max_y) := bounding_box MIN_fd MAX_fd p0 ps in
        if F32.geb min_x (clip_x2 ctx) || F32.leb max_x (clip_x1 ctx)
           || F32.geb min_y (clip_y2 ctx) || F32.leb max_y (clip_y1 ctx)
        then []
        else if negb (transform_enabled ev) then clip_simple ctx surf
        else
          let e := clip_transformed ctx surf in
          if (Z.of_nat (length e) <? 3) then [] else e
    end.

  (** [g2d_int_from_double] *)
Definition g2d_int_from_double (d : spec_float) : Z :=
    wl_fixed_to_int (wl_fixed_from_double d).

  (** The [clipRect] of one damage rectangle and one surface rectangle:
      the bounding box of the vertices [e], moved to the output and turned
      with it. *)
Definition clip_rect_of (output : weston_output) (dstsurface : g2d_surfaceEx)
      (e0 : weston_coord) (es : list weston_coord) : g2dRECT :=
    let '(min_x, max_x, min_y, max_y) := bounding_box min_fd max_fd e0 es in
    let clipRect :=
      mkRECT (g2d_int_from_double (F64.of_float min_x)) (g2d_int_from_double (F64.of_float min_y))
             (g2d_int_from_double (F64.of_float max_x)) (g2d_int_from_double (F64.of_float max_y)) in
    let clipRect :=
      if output_x output >? 0 then
        mkRECT (int32 (left clipRect - output_x output)) (top clipRect)
               (int32 (right clipRect - output_x output)) (bottom clipRect)
      else clipRect in
    calculate_rect_with_transform (base_width (base dstsurface)) (base_height (base dstsurface))
      (output_transform output) clipRect.

  (** What the two loops of [repaint_region] carry from one pair of
      rectangles to the next: the local copy [srcsurface] and the surface
      behind [go->drm_hw_buffer]. *)
Record loop_state : Type := mkLoop { loop_src : g2d_surfaceEx; loop_dst : g2d_surfaceEx }.

  (** The body of the inner loop of [repaint_region] for the damage
      rectangle [rect] and the surface rectangle [surf_rect]. The result
      tells whether the function returns ([true]) or the loops go on. *)
Definition repaint_pair (ev : weston_view) (output : weston_output) (gs : g2d_surface_state)
      (srcRect dstrect : g2dRECT) (rect surf_rect : pixman_box32) (st : loop_state)
      : M (bool * loop_state) :=
    (match calculate_edges ev rect surf_rect with
     | e0 :: es =>
         if Z.of_nat (length (e0 :: es)) <? 3 then ret (false, st)
         else
           let clipRect := clip_rect_of output (loop_dst st) e0 es in
           if (left clipRect >=? right clipRect) || (top clipRect >=? bottom clipRect)
           then ret (true, st)
           else
             emit (g2d_set_clipping (left clipRect) (top clipRect) (right clipRect) (bottom clipRect)) ;;;
             solid <-
               (if solid_clear gs then
                  match buffer_ref_buffer gs with
                  | None => undefined
                  | Some buffer =>
                      ret (match buffer_type buffer with
                           | WESTON_BUFFER_SOLID => negb (buffer_pixel_format buffer =? DRM_FORMAT_ARGB8888)
                           | _ => false
                           end)
                  end
                else ret false) ;;
             if (solid : bool) then
               cleared <- g2d_clear_solid env (loop_dst st) clipRect (clcolor gs) ;;
               ret (false, mkLoop (loop_src st) (snd cleared))
             else
               blitted <- g2d_blit_surface env (loop_src st) (loop_dst st) srcRect dstrect ;;
               ret (false, mkLoop (snd (fst blitted)) (snd blitted))
     | [] => ret (false, st)
     end)%M.

  (** The inner loop, over the surface rectangles. *)
Fixpoint repaint_surf_rects (ev : weston_view) (output : weston_output) (gs : g2d_surface_state)
      (srcRect dstrect : g2dRECT) (rect : pixman_box32) (surf_rects : list pixman_box32)
      (st : loop_state) : M (bool * loop_state) :=
    match surf_rects with
    | [] => ret (false, st)
    | surf_rect :: rest =>
        (r <- repaint_pair ev output gs srcRect dstrect rect surf_rect st ;;
         if (fst r : bool) then ret (true, snd r)
         else repaint_surf_rects ev output gs srcRect dstrect rect rest (snd r))%M
    end.

  (** The outer loop, over the damage rectangles. *)
Fixpoint repaint_rects (ev : weston_view) (output : weston_output) (gs : g2d_surface_state)
      (srcRect dstrect : g2dRECT) (rects : list pixman_box32) (surf_rects : list pixman_box32)
      (st : loop_state) : M (bool * loop_state) :=
    match rects with
    | [] => ret (false, st)
    | rect :: rest =>
        (r <- repaint_surf_rects ev output gs srcRect dstrect rect surf_rects st ;;
         if (fst r : bool) then ret (true, snd r)
         else repaint_rects ev output gs srcRect dstrect rest surf_rects (snd r))%M
    end.

  (** [repaint_region]: the surface behind [go->drm_hw_buffer] after the
      call. *)
Definition repaint_region (ev : weston_view) (output : weston_output)
      (gs : g2d_surface_state) (drm_hw_buffer : g2d_surfaceEx)
      (region surf_region : pixman_region32) : M g2d_surfaceEx :=
    let dstsurface := drm_hw_buffer in
    let srcsurface := g2d_surface_of gs in
    let vp := surface_buffer_viewport (surface ev) in
    let view_transform := vp_transform vp in
    let src_x := wl_fixed_to_int (vp_src_x vp) in
    let src_y := wl_fixed_to_int (vp_src_y vp) in
    let width := wl_fixed_to_int (vp_src_width vp) in
    let height := wl_fixed_to_int (vp_src_height vp) in
    let scale := vp_scale vp in
    if F64.ltb (F64.of_float (alpha ev)) F64.one then ret dstsurface
    else if negb (solid_clear gs)
            && ((base_width (base srcsurface) <=? 0) || (base_height (base srcsurface) <=? 0))
    then ret dstsurface
    else
      let bb_rects := pixman_region32_rectangles (transform_boundingbox ev) in
      let nbb := Z.of_nat (length bb_rects) in
      if (attached gs =? 0) || (nbb <=? 0) then ret dstsurface
      else
        match bb_rects with
        | [] => ret dstsurface
        | bb0 :: _ =>
            let '(src_width, src_height) :=
              convert_size_by_view_transform width height view_transform in
            let rects := pixman_region32_rectangles region in
            let surf_rects := pixman_region32_rectangles surf_region in
            let srcRect :=
              if negb (src_width =? -1) && (src_width >? 0) && (src_x >=? 0) && (src_y >=? 0)
                 && (src_x <? base_width (base (g2d_surface_of gs)))
                 && (src_y <? base_height (base (g2d_surface_of gs)))
              then
                mkRECT (int32 (src_x * scale)) (int32 (src_y * scale))
                  (min_int (base_width (base (g2d_surface_of gs))) (int32 (int32 (src_x + src_width) * scale)))
                  (min_int (base_height (base (g2d_surface_of gs))) (int32 (int32 (src_y + src_height) * scale)))
              else
                mkRECT (base_left (base srcsurface)) (base_top (base srcsurface))
                       (base_right (base srcsurface)) (base_bottom (base srcsurface)) in
            let dstWidth := base_width (base dstsurface) in
            let dstHeight := base_height (base dstsurface) in
            let dstrect := mkRECT (x1 bb0) (y1 bb0) (x2 bb0) (y2 bb0) in
            let dstrect :=
              if output_x output >? 0 then
                mkRECT (int32 (left dstrect - output_x output)) (top dstrect)
                       (int32 (right dstrect - output_x output)) (bottom dstrect)
              else dstrect in
            let dstrect :=
              calculate_rect_with_transform (base_width (base dstsurface))
                (base_height (base dstsurface)) (output_transform output) dstrect in
            let srcsurface :=
              with_base (set_rot (convert_transform_to_rot view_transform (output_transform output)))
                srcsurface in
            match clipped (g2d_clip_rects (base_rot (base srcsurface)) (mkRects srcRect dstrect)
                             dstWidth dstHeight) with
            | None => undefined
            | Some r =>
                (done <- repaint_rects ev output gs (r_src r) (r_dst r)
                          rects surf_rects (mkLoop srcsurface dstsurface) ;;
                 ret (loop_dst (snd done)))%M
            end
        end.

  (** [errno] values and [poll] events of Linux. *)
Definition EINTR : Z := 4.
Definition EAGAIN : Z := 11.
Definition EINVAL : Z := 22.
Definition ETIME : Z := 62.
Definition POLLERR : Z := 0x008.
Definition POLLNVAL : Z := 0x020.

  (** The [do ... while] loop of [sync_wait]; [fuel] bounds the number of
      calls of [poll], and the loop has no result when it is used up. *)
Fixpoint sync_wait_loop (fuel : nat) (fd timeout : Z) : M Z :=
    match fuel with
    | O => undefined
    | S fuel' =>
        fun w =>
          let cs := calls w ++ [poll fd timeout] in
          let '(r, revents, e) := poll_result env cs in
          let w' := mkWorld cs e in
          if r >? 0 then
            if negb (Z.land revents (Z.lor POLLERR POLLNVAL) =? 0)
            then Some (-1, mkWorld cs EINVAL)
            else Some (0, w')
          else if r =? 0 then Some (-1, mkWorld cs ETIME)
          else if (r =? -1) && ((e =? EINTR) || (e =? EAGAIN))
          then sync_wait_loop fuel' fd timeout w'
          else Some (r, w')
    end.

  (** [sync_wait] *)
Definition sync_wait (fuel : nat) (fd timeout : Z) : M Z :=
    if fd <? 0 then (set_errno EINVAL ;;; ret (-1))%M
    else sync_wait_loop fuel fd timeout.

  (** [G2D_TILED_STATUS] of the G2D library. *)
Variable G2D_TILED_STATUS : Z.

  (** [get_g2dSurface]: the status and the surface after the call. *)
Definition get_g2dSurface (buffer : wl_viv_buffer) (g2dSurface : g2d_surfaceEx)
      : M (Z * g2d_surfaceEx) :=
    if (viv_width buffer <=? 0) || (viv_height buffer <=? 0) then
      (emit (weston_log "invalid EGL buffer in function get_g2dSurface") ;;;
       ret (- EINVAL, g2dSurface))%M
    else
      let '(p0, p1, p2) := viv_physical buffer in
      let b := base g2dSurface in
      let b' :=
        mkSurface (viv_format buffer)
          [int32 (uint32 (p0 + viv_gpuBaseAddr buffer));
           int32 (uint32 (p1 + viv_gpuBaseAddr buffer));
           int32 (uint32 (p2 + viv_gpuBaseAddr buffer))]
          0 0 (viv_width buffer) (viv_height buffer)
          (int32 (viv_alignedWidth buffer)) (viv_width buffer) (viv_height buffer)
          (base_blendfunc b) (base_global_alpha b) (base_clrcolor b) G2D_ROTATION_0 in
      if negb (viv_ts_addr buffer =? 0) && negb (viv_tileStatus_enabled buffer =? 0) then
        ret (0, mkSurfaceEx b' (Z.lor (viv_tiling buffer) G2D_TILED_STATUS)
                  (viv_ts_addr buffer, viv_fc_enabled buffer, viv_fcValue buffer,
                   viv_fcValueUpper buffer)
                  (reserved0 g2dSurface))
      else
        ret (0, mkSurfaceEx b' (viv_tiling buffer) (ts g2dSurface) (reserved0 g2dSurface)).

  (** [ensure_surface_buffer_is_ready]: the status and the surface state
      after the call. *)
Definition ensure_surface_buffer_is_ready (fuel : nat) (gr : g2d_renderer)
      (surface : weston_surface) (gs : g2d_surface_state) : M (Z * g2d_surface_state) :=
    match buffer_ref_buffer gs with
    | None => ret (0, gs)
    | Some buffer =>
        let wait (gs : g2d_surface_state) : M (Z * g2d_surface_state) :=
          (if acquire_fence_fd surface <? 0 then ret (0, gs)
           else
             r <- sync_wait fuel (acquire_fence_fd surface) 2000 ;;
             e <- get_errno ;;
             if (r <? 0) && (e =? ETIME) then
               emit (weston_log "ensure_surface_buffer_is_ready: Warning: wait for fence fd") ;;;
               r <- sync_wait fuel (acquire_fence_fd surface) (-1) ;;
               ret (r, gs)
             else ret (r, gs))%M in
        match buffer_type buffer with
        | WESTON_BUFFER_RENDERER_OPAQUE =>
            if negb (buffer_resource buffer) then ret (0, gs)
            else
              (vivBuffer <-
                 (if has_update_buffer gr then
                    fun w => let cs := calls w ++ [update_buffer] in
                             Some (updated_viv_buffer env cs, mkWorld cs (errno w))
                  else ret (buffer_viv buffer)) ;;
               got <- get_g2dSurface vivBuffer (g2d_surface_of gs) ;;
               let gs := set_g2d_surface (snd got) gs in
               if fst got <? 0 then ret (fst got, gs) else wait gs)%M
        | _ => wait gs
        end
    end.

  (** [g2d_renderer_copy_shm_buffer]. There is no result when the buffer
      has no shared memory behind it or the surface state has no buffer
      of the G2D library. *)
Definition g2d_renderer_copy_shm_buffer (gs : renderer_state) (buffer : attach_buffer)
      : M unit :=
    match buffer_shm buffer, gs_shm_buf gs with
    | Some shm, Some shm_buf =>
        let alignedWidth := ALIGN_TO_16 (buffer_width buffer) in
        let src := shm_data shm in
        let dst := buf_vaddr shm_buf in
        let bpp := gs_bpp gs in
        match copy_plan shm (buffer_height buffer) alignedWidth with
        | None => emit (weston_log "warning: copy shm buffer meet unknown format")
        | Some plan =>
            (emit wl_shm_buffer_begin_access ;;;
             (if (alignedWidth =? buffer_width buffer)
                 && (plan_height plan =? buffer_height buffer)
              then
                for_each (upto (n_planes plan))
                  (fun i => emit (memcpy (dst + at_plane (dst_plane_offset plan) i)
                                    (src + at_plane (src_plane_offset plan) i)
                                    (at_plane (plane_size plan) i)))
              else
                let src_stride := shm_stride shm in
                let dst_stride := int32 (alignedWidth * bpp) in
                for_each (upto (buffer_height buffer))
                  (fun i => emit (memcpy
                                    (dst + at_plane (dst_plane_offset plan) 0
                                     + int32 (dst_stride * i))
                                    (src + at_plane (src_plane_offset plan) 0
                                     + int32 (src_stride * i))
                                    src_stride)) ;;;
                for_each (map (Z.add 1) (upto (n_planes plan - 1)))
                  (fun i =>
                     for_each (upto (Z.quot (buffer_height buffer) 2))
                       (fun j => emit (memcpy
                                         (dst + at_plane (dst_plane_offset plan) i
                                          + int32 (uv_dst_stride plan * j))
                                         (src + at_plane (src_plane_offset plan) i
                                          + int32 (uv_src_stride plan * j))
                                         (uv_src_stride plan))))) ;;;
             emit wl_shm_buffer_end_access)%M
        end
    | _, _ => undefined
    end.

  (** [g2d_renderer_flush_damage], on the surface state that
      [get_surface_state] returns: the surface state after the call. *)
Definition g2d_renderer_flush_damage (gs : renderer_state) (surface : weston_surface)
      (buffer : option attach_buffer) : M renderer_state :=
    let gs :=
      set_texture_damage
        (pixman_region32_union (gs_texture_damage gs) (surface_damage surface)) gs in
    match buffer with
    | None => ret gs
    | Some buffer =>
        let texture_used := existsb (fun on => on) (surface_views_on_primary_plane surface) in
        if negb texture_used then ret gs
        else
          ((if negb (pixman_region32_not_empty (gs_texture_damage gs)) then ret tt
            else
              match buffer_shm buffer with
              | Some _ => g2d_renderer_copy_shm_buffer gs buffer
              | None => ret tt
              end) ;;;
           let gs := set_texture_damage pixman_region32_init gs in
           emit (weston_buffer_reference false BUFFER_WILL_NOT_BE_ACCESSED) ;;;
           let gs := with_state (set_buffer_ref None) gs in
           emit (weston_buffer_release_reference false) ;;;
           ret gs)%M
    end.

  (** [g2d_renderer_attach_shm], on the surface state that
      [get_surface_state] returns: the surface state and the buffer after
      the call. There is no result when the buffer has no shared memory
      behind it, or when [g2d_alloc] returns no buffer, which the code
      dereferences. *)
Definition g2d_renderer_attach_shm (gs : renderer_state) (buffer : attach_buffer)
      : M (renderer_state * attach_buffer) :=
    match buffer_shm buffer with
    | None => undefined
    | Some shm_buffer =>
        let buffer := set_buffer_size (shm_width shm_buffer) (shm_height shm_buffer) buffer in
        let alignedWidth := ALIGN_TO_16 (buffer_width buffer) in
        match shm_layout (shm_format shm_buffer) (buffer_height buffer) alignedWidth with
        | None =>
            (emit (weston_log "warning: unknown shm buffer format") ;;; ret (gs, buffer))%M
        | Some (g2dFormat, bpp, height, buffer_length) =>
            let gs := set_bpp bpp gs in
            let height := if height =? 0 then buffer_height buffer else height in
            let buffer_length :=
              if buffer_length =? 0
              then int32 (int32 (alignedWidth * buffer_height buffer) * gs_bpp gs)
              else buffer_length in
            let gs := set_shm_buf_length buffer_length gs in
            let alloc_new_buff :=
              match gs_shm_buf gs with
              | Some old => negb (buf_size old >? buffer_length)
              | None => true
              end in
            (gs <-
               (if alloc_new_buff then
                  (match gs_shm_buf gs with
                   | Some old => emit (g2d_free old)
                   | None => ret tt
                   end) ;;;
                  new <- (fun w => let cs := calls w ++ [g2d_alloc buffer_length 0] in
                                   Some (g2d_alloc_result env cs, mkWorld cs (errno w))) ;;
                  match new with
                  | None => undefined
                  | Some buf =>
                      let plane0 := buf_paddr buf in
                      let plane1 := int32 (plane0 + int32 (alignedWidth * height)) in
                      let plane2 :=
                        int32 (plane1 + Z.quot (int32 (alignedWidth * height)) 4) in
                      let set_planes (b : g2d_surface) :=
                        mkSurface (base_format b)
                          (<[2%nat := plane2]>
                             (<[1%nat := plane1]> (<[0%nat := plane0]> (base_planes b))))
                          (base_left b) (base_top b) (base_right b) (base_bottom b)
                          (base_stride b) (base_width b) (base_height b) (base_blendfunc b)
                          (base_global_alpha b) (base_clrcolor b) (base_rot b) in
                      ret (with_state
                             (fun s => set_g2d_surface (with_base set_planes (g2d_surface_of s)) s)
                             (set_shm_buf (Some buf) gs))
                  end
                else ret gs) ;;
             let fill (s : g2d_surfaceEx) :=
               let b := base s in
               mkSurfaceEx
                 (mkSurface g2dFormat (base_planes b) 0 0 (buffer_width buffer)
                    (buffer_height buffer) alignedWidth (buffer_width buffer) height
                    (base_blendfunc b) (base_global_alpha b) (int32 0xFF400000) G2D_ROTATION_0)
                 G2D_LINEAR (ts s) (reserved0 s) in
             ret (with_state (fun s => set_g2d_surface (fill (g2d_surface_of s)) s) gs,
                  buffer))%M
        end
    end.

  (** [g2d_renderer_attach_dmabuf], on the surface state that
      [get_surface_state] returns: the surface state and the buffer after
      the call. There is no result when the buffer has no dmabuf behind
      it, when a plane is to be read from user data that are missing or
      too short or to be written past the three planes of a surface, and
      when the value -1 would be stored as the format of the surface. *)
Definition g2d_renderer_attach_dmabuf (gs : renderer_state) (buffer : attach_buffer)
      : M (renderer_state * attach_buffer) :=
    match buffer_dmabuf buffer with
    | None => undefined
    | Some dmabuf =>
        let buffer := set_buffer_size (attr_width dmabuf) (attr_height dmabuf) buffer in
        let super_tiled :=
          (attr_modifier0 dmabuf =? DRM_FORMAT_MOD_VIVANTE_SUPER_TILED)
          || (attr_modifier0 dmabuf =? DRM_FORMAT_MOD_VIVANTE_SPLIT_SUPER_TILED) in
        let alignedWidth := if super_tiled then ALIGN_TO_64 (buffer_width buffer) else 0 in
        (found <- g2d_renderer_get_g2dformat_from_dmabuf (attr_format dmabuf) 1 ;;
         let bpp := snd found in
         match fst found with
         | None => if g2d_format_signed then ret (gs, buffer) else undefined
         | Some g2dFormat =>
             let plane (planes : option (list Z)) (i : Z) : option (list Z) :=
               planes ← planes;
               paddr ← dmabuf_user_data dmabuf;
               p ← paddr !! Z.to_nat i;
               if (Z.to_nat i <? length planes)%nat
               then Some (<[Z.to_nat i := int32 (uint32 (p + attr_offset dmabuf i))]> planes)
               else None in
             match fold_left plane (upto (attr_n_planes dmabuf))
                     (Some (base_planes (base (g2d_surface_of (gs_state gs))))) with
             | Some planes =>
                 let stride0 := attr_stride dmabuf 0 in
                 let '(stride, tiling) :=
                   if attr_modifier0 dmabuf =? DRM_FORMAT_MOD_AMPHION_TILED
                   then (int32 stride0, G2D_AMPHION_TILED)
                   else if super_tiled then (alignedWidth, G2D_SUPERTILED)
                   else (int32 (uint32 stride0 / uint32 bpp), G2D_LINEAR) in
                 let fill (s : g2d_surfaceEx) :=
                   let b := base s in
                   mkSurfaceEx
                     (mkSurface g2dFormat planes 0 0 (buffer_width buffer)
                        (buffer_height buffer) stride (buffer_width buffer)
                        (buffer_height buffer) (base_blendfunc b) (base_global_alpha b)
                        (base_clrcolor b) G2D_ROTATION_0)
                     tiling (ts s) (reserved0 s) in
                 ret (with_state (fun s => set_g2d_surface (fill (g2d_surface_of s)) s) gs,
                      buffer)
             | None => undefined
             end
         end)%M
    end.

  (** [g2d_renderer_attach], on the surface state that
      [get_surface_state] returns: the surface state and the buffer after
      the call. *)
Definition g2d_renderer_attach (gs : renderer_state) (buffer : option attach_buffer)
      : M (renderer_state * option attach_buffer) :=
    let gs := with_state (set_solid_clear false) gs in
    match buffer with
    | None => ret (with_state (set_attached 0) gs, None)
    | Some buffer =>
        (r <-
           match buffer_type (buffer_base buffer) with
           | WESTON_BUFFER_SHM => g2d_renderer_attach_shm gs buffer
           | WESTON_BUFFER_DMABUF => g2d_renderer_attach_dmabuf gs buffer
           | WESTON_BUFFER_RENDERER_OPAQUE => ret (gs, g2d_renderer_attach_egl buffer)
           | WESTON_BUFFER_SOLID =>
               match g2d_renderer_attach_solid gs buffer with
               | Some gs => ret (gs, buffer)
               | None => undefined
               end
           end ;;
         let gs := with_state (set_attached 1) (fst r) in
         emit (weston_buffer_reference true BUFFER_MAY_BE_ACCESSED) ;;;
         let gs := with_state (set_buffer_ref (Some (buffer_base (snd r)))) gs in
         emit (weston_buffer_release_reference true) ;;;
         ret (gs, Some (snd r)))%M
    end.

  (** [g2d_renderer_create_surface]: the status and what
      [surface->renderer_state] points to after the call. *)
Definition g2d_renderer_create_surface (surface : weston_surface)
      : M (Z * option renderer_state) :=
    (allocated <- (fun w => let cs := calls w ++ [zalloc] in
                            Some (zalloc_result env cs, mkWorld cs (errno w))) ;;
     if negb (allocated : bool) then ret (-1, None)
     else
       let zero := S754_zero false in
       let gs :=
         mkState (mkGs false 0 None 0 zeroed_g2d_surface) (zero, zero, zero, zero)
           1 0 None 0 pixman_region32_init in
       emit (wl_signal_add surface_destroy_listener) ;;;
       emit (wl_signal_add renderer_destroy_listener) ;;;
       match surface_buffer_ref surface with
       | None => ret (0, Some gs)
       | Some buffer =>
           attached <- g2d_renderer_attach gs (Some buffer) ;;
           match buffer_type (buffer_base buffer) with
           | WESTON_BUFFER_SHM =>
               gs <- g2d_renderer_flush_damage (fst attached) surface (snd attached) ;;
               ret (0, Some gs)
           | _ => ret (0, Some (fst attached))
           end
       end)%M.

  (** [get_surface_state]: what [surface->renderer_state] points to, which
      is created when there is none; [state] is what it points to before
      the call. *)
Definition get_surface_state (surface : weston_surface) (state : option renderer_state)
      : M (option renderer_state) :=
    match state with
    | Some gs => ret (Some gs)
    | None => (created <- g2d_renderer_create_surface surface ;; ret (snd created))%M
    end.

  (** [gs->g2d_surface.base.global_alpha = ev->alpha * 0xFF] *)
Definition store_global_alpha (ev : weston_view) (gs : g2d_surface_state)
      : M g2d_surface_state :=
    match F32.to_int (F32.mul (alpha ev) (F32.of_int 0xFF)) with
    | None => undefined
    | Some a => ret (set_g2d_surface (with_base (set_global_alpha a) (g2d_surface_of gs)) gs)
    end.

  (** [draw_view]: what [surface->renderer_state] points to and the
      surface behind [go->drm_hw_buffer] after the call; [state] is what
      [surface->renderer_state] points to before it. There is no result
      when there is something to repaint and no surface state, which the
      code dereferences. *)
Definition draw_view (fuel : nat) (gr : g2d_renderer) (ev : weston_view)
      (output : weston_output) (state : option renderer_state) (drm_hw_buffer : g2d_surfaceEx)
      (damage : pixman_region32) : M (option renderer_state * g2d_surfaceEx) :=
    (state <- get_surface_state (surface ev) state ;;
     let repaint := pixman_region32_init in
     let repaint := pixman_region32_intersect (transform_boundingbox ev) damage in
     let repaint := pixman_region32_subtract repaint (clip ev) in
     if negb (pixman_region32_not_empty repaint) then ret (state, drm_hw_buffer)
     else
       match state with
       | None => undefined
       | Some whole =>
           let gs := gs_state whole in
           drawn <-
             (ready <- ensure_surface_buffer_is_ready fuel gr (surface ev) gs ;;
              let gs := snd ready in
              if fst ready <? 0 then ret (gs, drm_hw_buffer)
              else
                let surface_blend :=
                  pixman_region32_init_rect 0 0 (surface_width (surface ev))
                    (surface_height (surface ev)) in
                let surface_blend :=
                  if geometry_scissor_enabled ev
                  then pixman_region32_intersect surface_blend (geometry_scissor ev)
                  else surface_blend in
                let surface_blend :=
                  pixman_region32_subtract surface_blend (surface_opaque (surface ev)) in
                let surface_opaque :=
                  if geometry_scissor_enabled ev
                  then pixman_region32_intersect (surface_opaque (surface ev)) (geometry_scissor ev)
                  else surface_opaque (surface ev) in
                let translucent := F64.ltb (F64.of_float (alpha ev)) F64.one in
                after_opaque <-
                  (if pixman_region32_not_empty surface_opaque then
                     gs <-
                       (if translucent then
                          emit (g2d_enable G2D_BLEND) ;;;
                          emit (g2d_enable G2D_GLOBAL_ALPHA) ;;;
                          store_global_alpha ev gs
                        else ret gs) ;;
                     dst <- repaint_region ev output gs drm_hw_buffer repaint surface_opaque ;;
                     emit (g2d_disable G2D_GLOBAL_ALPHA) ;;;
                     emit (g2d_disable G2D_BLEND) ;;;
                     ret (gs, dst)
                   else ret (gs, drm_hw_buffer)) ;;
                let gs := fst after_opaque in
                let drm_hw_buffer := snd after_opaque in
                if pixman_region32_not_empty surface_blend then
                  emit (g2d_enable G2D_BLEND) ;;;
                  gs <-
                    (if translucent then
                       emit (g2d_enable G2D_GLOBAL_ALPHA) ;;;
                       store_global_alpha ev gs
                     else ret gs) ;;
                  dst <- repaint_region ev output gs drm_hw_buffer repaint surface_blend ;;
                  emit (g2d_disable G2D_GLOBAL_ALPHA) ;;;
                  emit (g2d_disable G2D_BLEND) ;;;
                  ret (gs, dst)
                else ret (gs, drm_hw_buffer)) ;;
           ret (Some (with_state (fun _ => fst drawn) whole), snd drawn)
       end)%M.

  (** [pixman_format_code_t], the formats that the renderer names. *)
Inductive pixman_format_code : Type :=
    | PIXMAN_r5g6b5 | PIXMAN_a8b8g8r8 | PIXMAN_x8b8g8r8 | PIXMAN_a8r8g8b8
    | PIXMAN_x8r8g8b8 | PIXMAN_b5g6r5 | PIXMAN_b8g8r8a8 | PIXMAN_r8g8b8a8
    | PIXMAN_b8g8r8x8 | PIXMAN_r8g8b8x8 | PIXMAN_yv12 | PIXMAN_yuy2
    | PIXMAN_other (code : Z).

  (** [PIXMAN_FORMAT_BPP] of pixman: the bits of a pixel. *)
Variable PIXMAN_FORMAT_BPP : pixman_format_code -> Z.

  (** [g2d_getG2dFormat_from_pixman]: the format stored through
      [g2dFormat], or nothing with the status -1. *)
Definition g2d_getG2dFormat_from_pixman (Format : pixman_format_code) : M (option g2d_format) :=
    match Format with
    | PIXMAN_r5g6b5 => ret (Some G2D_RGB565)
    | PIXMAN_a8b8g8r8 => ret (Some G2D_RGBA8888)
    | PIXMAN_x8b8g8r8 => ret (Some G2D_RGBX8888)
    | PIXMAN_a8r8g8b8 => ret (Some G2D_BGRA8888)
    | PIXMAN_x8r8g8b8 => ret (Some G2D_BGRX8888)
    | PIXMAN_b5g6r5 => ret (Some G2D_BGR565)
    | PIXMAN_b8g8r8a8 => ret (Some G2D_ARGB8888)
    | PIXMAN_r8g8b8a8 => ret (Some G2D_ABGR8888)
    | PIXMAN_b8g8r8x8 => ret (Some G2D_XRGB8888)
    | PIXMAN_r8g8b8x8 => ret (Some G2D_XBGR8888)
    | PIXMAN_yv12 => ret (Some G2D_YV12)
    | PIXMAN_yuy2 => ret (Some G2D_YUYV)
    | PIXMAN_other _ =>
        (emit (weston_log "Error in function g2d_getG2dFormat_from_pixman, Format not supported") ;;;
         ret None)%M
    end.

  (** The number of bytes that [g2d_renderer_read_pixels] copies:
      [width * height * PIXMAN_FORMAT_BPP(format->pixman_format)/8] on
      [uint32_t]. *)
Definition read_pixels_bytes (format : pixman_format_code) (width height : Z) : Z :=
    uint32 (uint32 (width * height) * PIXMAN_FORMAT_BPP format) / 8.

  (** [g2d_renderer_read_pixels]: the status and the surface behind
      [go->drm_hw_buffer] after the call. [dstSurface0] is the automatic
      variable [dstSurface] before its fields are assigned. *)
Definition g2d_renderer_read_pixels (drm_hw_buffer dstSurface0 : g2d_surfaceEx)
      (format : pixman_format_code) (pixels : Z) (x y width height : Z)
      : M (Z * g2d_surfaceEx) :=
    let srcRect := mkRECT (int32 x) (int32 y) (int32 (uint32 (x + width))) (int32 (uint32 (y + height))) in
    let dstRect := mkRECT 0 0 (int32 width) (int32 height) in
    (fmt <- g2d_getG2dFormat_from_pixman format ;;
     match fmt with
     | None => ret (-1, drm_hw_buffer)
     | Some dst_format =>
         read_buf <-
           (fun w => let cs := calls w ++ [g2d_alloc (int32 (uint32 (uint32 (width * height) * 4))) 0] in
                     Some (g2d_alloc_result env cs, mkWorld cs (errno w))) ;;
         match read_buf with
         | None => ret (-1, drm_hw_buffer)
         | Some read_buf =>
             let srcSurface := drm_hw_buffer in
             let b := base dstSurface0 in
             let dstSurface :=
               mkSurfaceEx
                 (mkSurface dst_format
                    (<[0%nat := buf_paddr read_buf]> (base_planes b))
                    (base_left b) (base_top b) (base_right b) (base_bottom b)
                    (int32 width) (int32 width) (int32 height)
                    (base_blendfunc b) (base_global_alpha b) (base_clrcolor b) G2D_FLIP_V)
                 (tiling dstSurface0) (ts dstSurface0) (reserved0 dstSurface0) in
             blitted <- g2d_blit_surface env srcSurface dstSurface srcRect dstRect ;;
             let src := snd (fst blitted) in
             if negb (fst (fst blitted) =? 0) then
               emit (g2d_free read_buf) ;;;
               ret (-1, src)
             else
               emit g2d_finish ;;;
               emit (memcpy pixels (buf_vaddr read_buf) (read_pixels_bytes format width height)) ;;;
               emit (g2d_free read_buf) ;;;
               ret (0, src)
         end
     end)%M.
End Driver.

(** ** A scene to run the renderer on *)

(** Views whose transformation is a scale and a translation along each
    axis, outputs whose hardware answers every call with success, and the
    region operations of [BoxLists]. *)
Module Scene.
Import BoxLists.

Definition dmul : spec_float -> spec_float -> spec_float := SFmul F64.prec F64.emax.
Definition dadd : spec_float -> spec_float -> spec_float := SFadd F64.prec F64.emax.

(** The matrix [[sx; tx; sy; ty]] maps [(x, y)] to [(sx * x + tx, sy * y + ty)]. *)
Definition to_global (ev : weston_view) (c : weston_coord) : weston_coord :=
  match view_matrix ev with
  | [sx; tx; sy; ty] => mkCoord (dadd (dmul sx (cx c)) tx) (dadd (dmul sy (cy c)) ty)
  | _ => c
  end.

Definition clamp (x lo hi : spec_float) : spec_float :=
  if SFltb x (F64.of_float lo) then F64.of_float lo
  else if SFltb (F64.of_float hi) x then F64.of_float hi
  else x.

(** Modelled from the spec: [clip_simple] of libweston's vertex-clipping.c,
    which is not among the sources of the renderer; it clips each
    coordinate of each vertex to the clip rectangle independently. *)
Definition clamp_polygon (ctx : clip_context) (surf : list weston_coord) : list weston_coord :=
  map (fun p => mkCoord (clamp (cx p) (clip_x1 ctx) (clip_x2 ctx))
                        (clamp (cy p) (clip_y1 ctx) (clip_y2 ctx))) surf.

(** [wl_fixed_from_double] of libwayland: the double times 256, rounded
    to the nearest integer, ties to even, in 32 bits. *)
Definition fixed_from_double (d : spec_float) : Z :=
  match d with
  | S754_finite s m e =>
      let k := - (e + 8) in
      let q :=
        if k <=? 0 then Z.shiftl (Z.pos m) (- k)
        else
          let lo := Z.shiftr (Z.pos m) k in
          let rest := Z.pos m - Z.shiftl lo k in
          let half := Z.shiftl 1 (k - 1) in
          if rest <? half then lo
          else if half <? rest then lo + 1
          else if Z.even lo then lo else lo + 1 in
      int32 (cond_neg s q)
  | _ => 0
  end.

(** For a quadrilateral with sides along the axes the clamp is also the
    polygon that [clip_transformed] computes. *)
#[export] Instance geometry : Geometry := {
  weston_coord_surface_to_global := to_global;
  clip_simple := clamp_polygon;
  clip_transformed := clamp_polygon;
  wl_fixed_from_double := fixed_from_double;
}.

Definition willing : environment := {|
  g2d_status := fun _ => 0;
  g2d_alloc_result := fun _ => Some (mkBuf 0x80000000 0x7f000000);
  poll_result := fun _ => (1, 1, 0);
  updated_viv_buffer := fun _ =>
    mkViv 64 64 G2D_RGBA8888 64 (0, 0, 0) 0 1 0 0 0 0 0;
  zalloc_result := fun _ => true;
|}.

(** The same hardware, whose blit fails. *)
Definition failing_blit : environment := {|
  g2d_status := fun cs => match last cs with Some (g2d_blitEx _ _) => -1 | _ => 0 end;
  g2d_alloc_result := g2d_alloc_result willing;
  poll_result := poll_result willing;
  updated_viv_buffer := updated_viv_buffer willing;
  zalloc_result := zalloc_result willing;
|}.

Definition blank (width height : Z) (format : g2d_format) : g2d_surfaceEx :=
  mkSurfaceEx
    (mkSurface format [0; 0; 0] 0 0 width height width width height G2D_ZERO 0 0 G2D_ROTATION_0)
    1 (0, 0, 0, 0) (-1).

(** A frame buffer of 1920 by 1080 pixels. *)
Definition frame_buffer : g2d_surfaceEx := blank 1920 1080 G2D_BGRX8888.

Definition output0 : weston_output := mkOutput 0 WL_OUTPUT_TRANSFORM_NORMAL.

Definition full_damage : pixman_region32 := [mkBox 0 0 1920 1080].

(** A client buffer of 100 by 100 pixels with an alpha channel. *)
Definition shm_buffer : weston_buffer :=
  mkBuffer WESTON_BUFFER_SHM true DRM_FORMAT_ARGB8888
    (mkViv 100 100 G2D_BGRA8888 112 (0, 0, 0) 0 1 0 0 0 0 0).

(** That buffer as the client has made it: 100 by 100 pixels of four
    bytes in shared memory, the rows one after the other. *)
Definition client_buffer : attach_buffer :=
  mkAttachBuffer shm_buffer 0 0 (Some (mkShm 100 100 WL_SHM_FORMAT_ARGB8888 400 0x10000)) None
    (S754_zero false, S754_zero false, S754_zero false, S754_zero false).

Definition attached_state : g2d_surface_state :=
  mkGs false 0 (Some shm_buffer) 1 (blank 100 100 G2D_BGRA8888).

(** The values of the headers: the tilings of g2dExt.h, a zeroed
    surface, the modifiers of drm_fourcc.h; the buffers of the G2D library
    are of one mebibyte. *)
#[export] Instance platform : Platform := {
  buf_size := fun _ => 0x100000;
  G2D_LINEAR := 1;
  G2D_SUPERTILED := 4;
  G2D_AMPHION_TILED := 8;
  zeroed_g2d_surface :=
    mkSurfaceEx
      (mkSurface G2D_RGB565 [0; 0; 0] 0 0 0 0 0 0 0 G2D_ZERO 0 0 G2D_ROTATION_0) 0 (0, 0, 0, 0) 0;
  DRM_FORMAT_MOD_AMPHION_TILED := 0x0800000000000001;
  DRM_FORMAT_MOD_VIVANTE_SUPER_TILED := 0x0600000000000002;
  DRM_FORMAT_MOD_VIVANTE_SPLIT_SUPER_TILED := 0x0600000000000004;
  g2d_format_signed := true;
}.

(** What [surface->renderer_state] points to once that buffer is
    attached. *)
Definition attached_renderer_state : renderer_state :=
  mkState attached_state (S754_zero false, S754_zero false, S754_zero false, S754_zero false)
    1 4 (Some (mkBuf 0x80000000 0x7f000000)) 44800 [].

(** The surface of that buffer: all of it opaque, the whole buffer
    shown ([src_width] is -1 as a [wl_fixed_t]), no fence. *)
Definition opaque_surface : weston_surface :=
  mkWSurface (mkViewport WL_OUTPUT_TRANSFORM_NORMAL 0 0 (-256) (-256) 1)
    100 100 [mkBox 0 0 100 100] (-1) (Some client_buffer) [mkBox 0 0 100 100] [true].

Definition half : spec_float := S754_finite false 8388608 (-24).

(** The view of that surface at the origin of the output, without
    transformation, with the opacity [a]. *)
Definition plain_view (a : spec_float) : weston_view :=
  mkView opaque_surface a false [mkBox 0 0 100 100] [] [] false [].

(** The same surface enlarged by 1.25 along x, which turns the
    transformation of the view on. *)
Definition scaled_view : weston_view :=
  mkView opaque_surface F32.one true [mkBox 0 0 125 100]
    [S754_finite false 5629499534213120 (-52); S754_zero false; F64.one; S754_zero false]
    [] false [].

(** A surface of the same size that holds a buffer of EGL of 64 by 64
    pixels, and its view at the origin of the output. *)
Definition egl_surface : weston_surface :=
  mkWSurface (mkViewport WL_OUTPUT_TRANSFORM_NORMAL 0 0 (-256) (-256) 1)
    100 100 [mkBox 0 0 100 100] (-1)
    (Some (mkAttachBuffer
             (mkBuffer WESTON_BUFFER_RENDERER_OPAQUE true DRM_FORMAT_ARGB8888
                (mkViv 64 64 G2D_RGBA8888 64 (0x90000000, 0, 0) 0 1 0 0 0 0 0))
             0 0 None None
             (S754_zero false, S754_zero false, S754_zero false, S754_zero false)))
    [mkBox 0 0 100 100] [true].

Definition egl_view : weston_view :=
  mkView egl_surface F32.one false [mkBox 0 0 100 100] [] [] false [].

Definition start : world := mkWorld [] 0.

Definition bpp (f : pixman_format_code) : Z :=
  match f with
  | PIXMAN_r5g6b5 | PIXMAN_b5g6r5 | PIXMAN_yuy2 => 16
  | PIXMAN_yv12 => 12
  | PIXMAN_other _ => 0
  | _ => 32
  end.
End Scene.

(** ** Predicates of the properties *)

(** The bit patterns that the [switch] of [convert_transform_to_rot]
    names. *)
Definition known_angle (angle : Z) : bool :=
  (angle =? G2D_ROTATION_ANGLE_0)
  || (angle =? G2D_ROTATION_ANGLE_POSITIVE_90) || (angle =? G2D_ROTATION_ANGLE_POSITIVE_180)
  || (angle =? G2D_ROTATION_ANGLE_POSITIVE_270) || (angle =? G2D_ROTATION_ANGLE_NEGATIVE_90)
  || (angle =? G2D_ROTATION_ANGLE_NEGATIVE_180) || (angle =? G2D_ROTATION_ANGLE_NEGATIVE_270).

Definition hardware_rotation (rot : g2d_rotation) : Prop :=
  rot = G2D_ROTATION_0 \/ rot = G2D_ROTATION_90 \/ rot = G2D_ROTATION_180 \/ rot = G2D_ROTATION_270.

Definition edge_inside (e : dst_edge) (d : g2dRECT) (W H : Z) : Prop :=
  sticks_out e d W H = false.

(** The source rectangle has been clipped away: it is empty or inverted,
    or its right or bottom edge has become negative. *)
Definition src_clipped_away (s : g2dRECT) : Prop :=
  left s >= right s \/ top s >= bottom s \/ right s < 0 \/ bottom s < 0.

Definition signed_or_nan (s : bool) (x : spec_float) : Prop :=
  match x with
  | S754_zero s' | S754_infinity s' | S754_finite s' _ _ => s' = s
  | S754_nan => True
  end.

Definition exact (mrs : shr_record) : Prop := shr_r mrs = false /\ shr_s mrs = false.

(** The float that [binary_round_aux] builds from a mantissa and an
    exponent that need no further rounding. *)
Definition pack (s : bool) (m e : Z) : spec_float :=
  match m with
  | 0 => S754_zero s
  | Z.pos p => if e <=? 104 then S754_finite s p e else S754_infinity s
  | Z.neg _ => S754_nan
  end.

(** The sign of a float: not negative, or not a number. *)
Definition nonneg (x : spec_float) : Prop := signed_or_nan false x.

(** What a block may do to the source rectangle: the edge of the block
    moves toward the inside or stays, the three others stay. *)
Definition moved (e : src_edge) (s s' : g2dRECT) : Prop :=
  match e with
  | src_left_add =>
      left s <= left s' /\ top s' = top s /\ right s' = right s /\ bottom s' = bottom s
  | src_right_sub =>
      right s' <= right s /\ left s' = left s /\ top s' = top s /\ bottom s' = bottom s
  | src_top_add =>
      top s <= top s' /\ left s' = left s /\ right s' = right s /\ bottom s' = bottom s
  | src_bottom_sub =>
      bottom s' <= bottom s /\ left s' = left s /\ top s' = top s /\ right s' = right s
  end.

Definition edge_of (e : src_edge) (s : g2dRECT) : Z :=
  match e with
  | src_left_add => left s
  | src_right_sub => right s
  | src_top_add => top s
  | src_bottom_sub => bottom s
  end.

(** The destination rectangle and the bounds are well inside the range
    of an [int], so that no difference of two of them wraps. *)
Definition dst_bounded (d : g2dRECT) (W H : Z) : Prop :=
  - 2 ^ 30 <= left d < 2 ^ 30 /\ - 2 ^ 30 <= right d < 2 ^ 30
  /\ - 2 ^ 30 <= top d < 2 ^ 30 /\ - 2 ^ 30 <= bottom d < 2 ^ 30
  /\ 0 <= W < 2 ^ 30 /\ 0 <= H < 2 ^ 30.

(** The source rectangle is a rectangle of non-negative coordinates
    below 2^24, which a float holds exactly. *)
Definition src_proper (s : g2dRECT) : Prop :=
  0 <= left s <= right s /\ right s < 2 ^ 24 /\ 0 <= top s <= bottom s /\ bottom s < 2 ^ 24.

Definition dst_proper (d : g2dRECT) (W H : Z) : Prop :=
  left d <= right d /\ top d <= bottom d /\ dst_bounded d W H.

(** No edge of [s'] lies outside [s]. *)
Definition src_within (s' s : g2dRECT) : Prop :=
  left s <= left s' /\ right s' <= right s /\ top s <= top s' /\ bottom s' <= bottom s.

(** The pixels of [total] are those of the regions [ds]. *)
Definition union_of (total : pixman_region32) (ds : list pixman_region32) : Prop :=
  forall x y, region_contains total x y = existsb (fun d => region_contains d x y) ds.

(** What five successive repaints of an output do with the damage
    [d1 .. d5] that they are given. *)
Definition ring_coverage `{Pixman} (go : damage_ring) (d1 d2 d3 d4 d5 : pixman_region32) : Prop :=
  exists t1 t2 t3 t4 t5 go',
    repaint_frames go [d1; d2; d3; d4; d5] = Some ([t1; t2; t3; t4; t5], go')
    /\ ring_ok go'
    /\ (forall x y, region_contains d1 x y = true ->
                   region_contains t1 x y = true /\ region_contains t2 x y = true
                   /\ region_contains t3 x y = true /\ region_contains t4 x y = true)
    /\ union_of t4 [d1; d2; d3; d4]
    /\ union_of t5 [d2; d3; d4; d5]
    /\ (go = output_create_ring ->
        union_of t1 [d1] /\ union_of t2 [d1; d2] /\ union_of t3 [d1; d2; d3]).

(** A computation that, whenever it has a result, has a result that
    satisfies [post], has only added calls that satisfy [ok] and has left
    the calls made before as they were. *)
Definition yields {A : Type} (ok : hw_call -> bool) (post : A -> Prop) (m : M A) : Prop :=
  forall w a w', m w = Some (a, w') ->
    post a /\ exists added, calls w' = calls w ++ added /\ forallb ok added = true.

(** The calls that do not draw. *)
Definition not_drawing (c : hw_call) : bool := negb (is_draw_call c).

(** The calls that [g2d_renderer_create_surface] makes, itself or through
    [g2d_renderer_attach] and [g2d_renderer_flush_damage]. *)
Definition is_creation_call (c : hw_call) : bool :=
  match c with
  | zalloc | wl_signal_add _ | weston_buffer_reference _ _ | weston_buffer_release_reference _
  | wl_shm_buffer_begin_access | wl_shm_buffer_end_access
  | g2d_alloc _ _ | g2d_free _ | memcpy _ _ _ => true
  | weston_log msg =>
      (msg =? "warning: unknown shm buffer format")%string
      || (msg =? "warning: unknown dmabuf buffer format")%string
      || (msg =? "warning: copy shm buffer meet unknown format")%string
  | _ => false
  end.

(** The calls of [ensure_surface_buffer_is_ready]: the refresh of a
    buffer of EGL, the wait for the fence, and its two log lines. *)
Definition is_readiness_call (c : hw_call) : bool :=
  match c with
  | update_buffer | poll _ _ => true
  | weston_log msg =>
      (msg =? "invalid EGL buffer in function get_g2dSurface")%string
      || (msg =? "ensure_surface_buffer_is_ready: Warning: wait for fence fd")%string
  | _ => false
  end.

(** The calls that switch a capability of the hardware on or off. *)
Definition is_switch_call (c : hw_call) : bool :=
  match c with
  | g2d_enable _ | g2d_disable _ => true
  | _ => false
  end.

Definition is_memcpy (c : hw_call) : bool :=
  match c with
  | memcpy _ _ _ => true
  | _ => false
  end.

(** [ev->alpha < 1.0] *)
Definition translucent (ev : weston_view) : bool :=
  F64.ltb (F64.of_float (alpha ev)) F64.one.

(** The formats that [g2d_getG2dFormat_from_pixman] knows. *)
Definition supported (format : pixman_format_code) : Prop :=
  match format with
  | PIXMAN_other _ => False
  | _ => True
  end.

(** The size that [g2d_renderer_read_pixels] asks [g2d_alloc] for:
    [width * height * 4], an [int]. *)
Definition read_pixels_alloc_size (width height : Z) : Z :=
  int32 (uint32 (uint32 (width * height) * 4)).

(** How [g2d_renderer_read_pixels] ends once [g2d_alloc] has returned
    [read_buf]: the calls up to the blit, then by the status of the blit
    either the wait, the copy and the release with the status 0, or the two
    log lines and the release with the status -1. *)
Definition read_pixels_outcome (env : environment) (bpp : pixman_format_code -> Z)
    (drm_hw_buffer dstSurface0 : g2d_surfaceEx) (format : pixman_format_code)
    (pixels x y width height : Z) (w : world) (read_buf : g2d_buf) : Prop :=
  exists before src dst,
    (before = [] \/ before = [g2d_disable G2D_BLEND])
    /\ g2d_renderer_read_pixels env bpp drm_hw_buffer dstSurface0 format pixels x y width height w
       = let upto_blit :=
           calls w ++ g2d_alloc (read_pixels_alloc_size width height) 0
                      :: before ++ [g2d_blitEx src dst] in
         if g2d_status env upto_blit =? 0 then
           Some ((0, src),
                 mkWorld (upto_blit
                          ++ [g2d_finish;
                              memcpy pixels (buf_vaddr read_buf)
                                (read_pixels_bytes bpp format width height);
                              g2d_free read_buf])
                   (errno w))
         else
           Some ((-1, src),
                 mkWorld (upto_blit
                          ++ [printG2dSurfaceInfo src "SRC:"; printG2dSurfaceInfo dst "DST:";
                              g2d_free read_buf])
                   (errno w)).

(** ** Predicates of the further properties *)

(** The rotation by [n] quarter turns. *)
Definition quarter_turns (n : Z) : g2d_rotation :=
  match n mod 4 with
  | 0 => G2D_ROTATION_0
  | 1 => G2D_ROTATION_90
  | 2 => G2D_ROTATION_180
  | _ => G2D_ROTATION_270
  end.

(** A rectangle with ordered edges inside a surface of [W] by [H]. *)
Definition rect_within (r : g2dRECT) (W H : Z) : Prop :=
  0 <= left r <= right r /\ right r <= W /\ 0 <= top r <= bottom r /\ bottom r <= H.

(** The width and the height of a rectangle. *)
Definition rect_size (r : g2dRECT) : Z * Z := (right r - left r, bottom r - top r).

(** A rectangle whose edges are far from the ends of [int]. *)
Definition rect_small (r : g2dRECT) : Prop :=
  - 2 ^ 29 <= left r < 2 ^ 29 /\ - 2 ^ 29 <= top r < 2 ^ 29
  /\ - 2 ^ 29 <= right r < 2 ^ 29 /\ - 2 ^ 29 <= bottom r < 2 ^ 29.

(** The damage that the ring of an output holds, oldest first: the region
    that the next repaint overwrites, the one after it, and the region
    at [current_buffer], which the last repaint wrote. *)
Definition ring_history (go : damage_ring) : list pixman_region32 :=
  let slot i :=
    nth (Z.to_nat ((current_buffer go + i) mod BUFFER_DAMAGE_COUNT)) (buffer_damage go)
      pixman_region32_init in
  [slot 1; slot 2; slot 3].

(** Frame [i] repaints the damage of the window of four that starts
    at position [i] of the damage so far. *)
Definition sliding_window `{Pixman} (history totals : list pixman_region32) : Prop :=
  forall (i : nat) t, totals !! i = Some t -> union_of t (take 4 (drop i history)).

(** The answer of [poll] after which [sync_wait] polls again: -1 with
    [errno] at [EINTR] or [EAGAIN]. *)
Definition interrupted (answer : Z * Z * Z) : bool :=
  (fst (fst answer) =? -1) && ((snd answer =? EINTR) || (snd answer =? EAGAIN)).

(** The answer of [poll] that says the descriptor is ready: a positive
    count and neither [POLLERR] nor [POLLNVAL] among the events. *)
Definition signalled (answer : Z * Z * Z) : bool :=
  (fst (fst answer) >? 0) && (Z.land (snd (fst answer)) (Z.lor POLLERR POLLNVAL) =? 0).

(** The [k]-th answer that [poll fd timeout] gets after the calls [cs]. *)
Definition poll_answer (env : environment) (cs : list hw_call) (fd timeout : Z) (k : nat)
    : Z * Z * Z :=
  poll_result env (cs ++ replicate (S k) (poll fd timeout)).

(** What [sync_wait] returns and the [errno] it leaves on an answer of
    [poll] that ends its loop. *)
Definition sync_wait_end (answer : Z * Z * Z) : Z * Z :=
  if signalled answer then (0, snd answer)
  else if fst (fst answer) >? 0 then (-1, EINVAL)
  else if fst (fst answer) =? 0 then (-1, ETIME)
  else (fst (fst answer), snd answer).

(** A computation that, whenever it has a result, has left the calls made
    before as they were, and whose result and added calls satisfy [post]. *)
Definition appends {A : Type} (post : A -> list hw_call -> Prop) (m : M A) : Prop :=
  forall w a w', m w = Some (a, w') -> exists added, calls w' = calls w ++ added /\ post a added.

(** The scissor discipline, read along the calls: [armed] tells whether a
    scissor has been set that no clear and no blit has used yet. A
    scissor is set only when none is pending, and a clear or a blit uses
    up the pending one; there is no result when a call breaks this. *)
Fixpoint scissor_scan (armed : bool) (cs : list hw_call) : option bool :=
  match cs with
  | [] => Some armed
  | g2d_set_clipping _ _ _ _ :: cs' => if armed then None else scissor_scan true cs'
  | g2d_clear _ :: cs' | g2d_blitEx _ _ :: cs' => if armed then scissor_scan false cs' else None
  | _ :: cs' => scissor_scan armed cs'
  end.

(** Every clear and every blit has a scissor of its own. *)
Definition scissored (cs : list hw_call) : Prop := scissor_scan false cs = Some false.

Definition is_clear_or_blit (c : hw_call) : bool :=
  match c with
  | g2d_clear _ | g2d_blitEx _ _ => true
  | _ => false
  end.

(** The number of clears and blits among the calls. *)
Definition draws (cs : list hw_call) : nat := length (List.filter is_clear_or_blit cs).

(** What a clear or a blit into a surface leaves of it: all but its
    rectangle, its blend function and its clear colour. *)
Definition same_buffer (a b : g2d_surfaceEx) : Prop :=
  base_format (base a) = base_format (base b)
  /\ base_planes (base a) = base_planes (base b)
  /\ base_stride (base a) = base_stride (base b)
  /\ base_width (base a) = base_width (base b)
  /\ base_height (base a) = base_height (base b)
  /\ base_global_alpha (base a) = base_global_alpha (base b)
  /\ base_rot (base a) = base_rot (base b)
  /\ tiling a = tiling b /\ ts a = ts b /\ reserved0 a = reserved0 b.

(** What [repaint_region] and its loops add to the calls. *)
Definition drawn (bound : nat) (dst0 dst : g2d_surfaceEx) (added : list hw_call) : Prop :=
  same_buffer dst dst0 /\ scissored added /\ (draws added <= bound)%nat.

Definition is_enable (c : hw_call) : bool :=
  match c with
  | g2d_enable _ => true
  | _ => false
  end.

(** The calls leave the two capabilities of the hardware switched off:
    they end with the two [g2d_disable] of [draw_view]. *)
Definition ends_disabled (added : list hw_call) : Prop :=
  exists before, added = before ++ [g2d_disable G2D_GLOBAL_ALPHA; g2d_disable G2D_BLEND].

(** The buffer of EGL that [ensure_surface_buffer_is_ready] hands to
    [get_g2dSurface], and the calls made by then. *)
Definition refreshed_calls (gr : g2d_renderer) (w : world) : list hw_call :=
  if has_update_buffer gr then calls w ++ [update_buffer] else calls w.

Definition refreshed_viv_buffer (env : environment) (gr : g2d_renderer) (buffer : weston_buffer)
    (w : world) : wl_viv_buffer :=
  if has_update_buffer gr then updated_viv_buffer env (refreshed_calls gr w)
  else buffer_viv buffer.

(** The buffers that [g2d_alloc] has handed out among the calls [added]
    made after the calls [before]. *)
Fixpoint allocated (env : environment) (before added : list hw_call) : list g2d_buf :=
  match added with
  | [] => []
  | c :: rest =>
      match c, g2d_alloc_result env (before ++ [c]) with
      | g2d_alloc _ _, Some buf => buf :: allocated env (before ++ [c]) rest
      | _, _ => allocated env (before ++ [c]) rest
      end
  end.

(** The buffers that the calls give back with [g2d_free]. *)
Fixpoint freed (added : list hw_call) : list g2d_buf :=
  match added with
  | [] => []
  | g2d_free buf :: rest => buf :: freed rest
  | _ :: rest => freed rest
  end.

(** The part of [ensure_surface_buffer_is_ready] that waits for the
    fence once it has timed out. *)
Definition wait_for_ever (env : environment) (fuel : nat) (fd : Z) (gs : g2d_surface_state)
    : M (Z * g2d_surface_state) :=
  (r <- sync_wait env fuel fd (-1) ;; ret (r, gs))%M.

(** The colour word 0xAABBGGRR of four channels. *)
Definition color_word (r g b a : Z) : Z := r + g * 2 ^ 8 + b * 2 ^ 16 + a * 2 ^ 24.

(** The byte [i] of a word, counted from the low end. *)
Definition byte_of (v i : Z) : Z := Z.land (Z.shiftr v (8 * i)) 255.

Definition is_channel (v : Z) : Prop := 0 <= v <= 255.

(** A call that paints with the colour [color] if it paints at all: no
    blit, and a clear only with that colour. *)
Definition paints_with (color : Z) (c : hw_call) : Prop :=
  match c with
  | g2d_blitEx _ _ => False
  | g2d_clear s => base_clrcolor s = color
  | _ => True
  end.

(** [g2d_alloc] hands out buffers of at least the size asked for. *)
Definition alloc_sized `{Platform} (env : environment) : Prop :=
  forall cs n cacheable buf,
    g2d_alloc_result env (cs ++ [g2d_alloc n cacheable]) = Some buf -> n <= buf_size buf.

(** A [memcpy] that writes only between the addresses [lo] and [hi]. *)
Definition copy_within (lo hi : Z) (c : hw_call) : Prop :=
  match c with
  | memcpy dest _ n => 0 <= n /\ lo <= dest /\ dest + n <= hi
  | _ => True
  end.

(** The formats of one plane of colours. *)
Definition rgb_shm_format (f : wl_shm_format) : Prop :=
  f = WL_SHM_FORMAT_XRGB8888 \/ f = WL_SHM_FORMAT_ARGB8888 \/ f = WL_SHM_FORMAT_RGB565.

(** Inputs on which the properties are run. *)
Module Cases.

(** [poll] is interrupted twice, then the descriptor is ready. *)
Definition interrupted_twice : environment := {|
  g2d_status := fun _ => 0;
  g2d_alloc_result := fun _ => None;
  poll_result := fun cs => if (length cs <? 3)%nat then (-1, 0, EINTR) else (1, 1, 0);
  updated_viv_buffer := updated_viv_buffer Scene.willing;
  zalloc_result := fun _ => true;
|}.

(** [poll] times out. *)
Definition timing_out : environment := {|
  g2d_status := fun _ => 0;
  g2d_alloc_result := fun _ => None;
  poll_result := fun _ => (0, 0, 0);
  updated_viv_buffer := updated_viv_buffer Scene.willing;
  zalloc_result := fun _ => true;
|}.

(** [g2d_alloc] hands out its buffer of one mebibyte for a request that
    fits it, and nothing otherwise. *)
Definition bounded_alloc : environment := {|
  g2d_status := fun _ => 0;
  g2d_alloc_result := fun cs =>
    match last cs with
    | Some (g2d_alloc n _) => if n <=? 0x100000 then Some (mkBuf 0x80000000 0x7f000000) else None
    | _ => None
    end;
  poll_result := fun _ => (1, 1, 0);
  updated_viv_buffer := updated_viv_buffer Scene.willing;
  zalloc_result := fun _ => true;
|}.

(** There is no memory for a surface state. *)
Definition out_of_memory : environment := {|
  g2d_status := fun _ => 0;
  g2d_alloc_result := fun _ => None;
  poll_result := fun _ => (1, 1, 0);
  updated_viv_buffer := updated_viv_buffer Scene.willing;
  zalloc_result := fun _ => false;
|}.

(** A state whose buffer of EGL has lost its size. *)
Definition egl_state : renderer_state :=
  mkState
    (mkGs false 0
       (Some (mkBuffer WESTON_BUFFER_RENDERER_OPAQUE true DRM_FORMAT_ARGB8888
                (mkViv 0 64 G2D_RGBA8888 64 (0, 0, 0) 0 1 0 0 0 0 0)))
       1 (Scene.blank 64 64 G2D_RGBA8888))
    (S754_zero false, S754_zero false, S754_zero false, S754_zero false) 1 0 None 0 [].

(** A surface with a fence, and the state of its buffer. *)
Definition fenced_surface : weston_surface :=
  mkWSurface (mkViewport WL_OUTPUT_TRANSFORM_NORMAL 0 0 (-256) (-256) 1)
    100 100 [mkBox 0 0 100 100] 7 (Some Scene.client_buffer) [mkBox 0 0 100 100] [true].

(** A buffer of one colour: red, opaque, without alpha in its format. *)
Definition solid_buffer : attach_buffer :=
  mkAttachBuffer (mkBuffer WESTON_BUFFER_SOLID false DRM_FORMAT_XRGB8888
                    (mkViv 0 0 G2D_RGBA8888 0 (0, 0, 0) 0 1 0 0 0 0 0))
    0 0 None None (F32.one, S754_zero false, S754_zero false, F32.one).

(** A surface state as [g2d_renderer_create_surface] starts with. *)
Definition fresh_state : renderer_state :=
  mkState (mkGs false 0 None 0 (@zeroed_g2d_surface Scene.platform))
    (S754_zero false, S754_zero false, S754_zero false, S754_zero false) 1 0 None 0 [].

(** The shared memory of the client buffer of the scene, and the state
    of its surface once [g2d_renderer_attach_shm] has run on a fresh
    state. *)
Definition client_shm : wl_shm_buffer := mkShm 100 100 WL_SHM_FORMAT_ARGB8888 400 0x10000.

Definition attached_shm : renderer_state :=
  mkState
    (mkGs false 0 None 0
       (mkSurfaceEx
          (mkSurface G2D_BGRA8888 [2147483648; -2147472448; -2147469648]
             0 0 100 100 112 100 100 G2D_ZERO 0 (-12582912) G2D_ROTATION_0)
          1 (0, 0, 0, 0) 0))
    (S754_zero false, S754_zero false, S754_zero false, S754_zero false)
    1 4 (Some (mkBuf 0x80000000 0x7f000000)) 44800 [].

(** A buffer of two by two pixels in shared memory, as attached. *)
Definition tiny_shm : wl_shm_buffer := mkShm 2 2 WL_SHM_FORMAT_XRGB8888 8 0x10000.

Definition tiny_buffer : attach_buffer :=
  mkAttachBuffer (mkBuffer WESTON_BUFFER_SHM true DRM_FORMAT_XRGB8888
                    (mkViv 2 2 G2D_BGRX8888 16 (0, 0, 0) 0 1 0 0 0 0 0))
    2 2 (Some tiny_shm) None
    (S754_zero false, S754_zero false, S754_zero false, S754_zero false).
End Cases.

(** * Properties *)

(** ** The rotation resolver *)

Lemma convert_transform_to_rot_hardware (vt ot : Z) :
  hardware_rotation (convert_transform_to_rot vt ot).
Proof.
  unfold convert_transform_to_rot, hardware_rotation.
  repeat match goal with |- context [if ?c then _ else _] => destruct c end; auto.
Qed.

Lemma convert_transform_to_rot_default (vt ot : Z) :
  known_angle (rot_angle vt ot) = false -> convert_transform_to_rot vt ot = G2D_ROTATION_0.
Proof.
  unfold known_angle, convert_transform_to_rot.
  intros Hk. repeat (apply orb_false_elim in Hk; destruct Hk as [Hk ?]).
  repeat match goal with E : _ = false |- _ => rewrite E; clear E end.
  reflexivity.
Qed.

(** The rotations of the 8 by 4 table, row by row of the view transform. *)
Lemma convert_transform_to_rot_table :
  map (fun vt => map (convert_transform_to_rot vt) [0; 1; 2; 3]) [0; 1; 2; 3; 4; 5; 6; 7]
  = [ [G2D_ROTATION_0; G2D_ROTATION_90; G2D_ROTATION_180; G2D_ROTATION_270];
      [G2D_ROTATION_270; G2D_ROTATION_0; G2D_ROTATION_90; G2D_ROTATION_180];
      [G2D_ROTATION_180; G2D_ROTATION_270; G2D_ROTATION_0; G2D_ROTATION_90];
      [G2D_ROTATION_90; G2D_ROTATION_180; G2D_ROTATION_270; G2D_ROTATION_0];
      [G2D_ROTATION_0; G2D_ROTATION_0; G2D_ROTATION_0; G2D_ROTATION_0];
      [G2D_ROTATION_0; G2D_ROTATION_0; G2D_ROTATION_0; G2D_ROTATION_0];
      [G2D_ROTATION_0; G2D_ROTATION_0; G2D_ROTATION_0; G2D_ROTATION_0];
      [G2D_ROTATION_0; G2D_ROTATION_0; G2D_ROTATION_0; G2D_ROTATION_0] ].
Proof. vm_compute. reflexivity. Qed.

(** C4. For a view transform of ordinal 0 to 7 and an output transform of
    ordinal 0 to 3, [convert_transform_to_rot] returns one of the four
    hardware rotations 0, 90, 180 and 270 degrees, and it returns 0 degrees
    whenever the shifted angle is none of the bit patterns that the switch
    names. *)
Theorem convert_transform_to_rot_total (view_transform output_transform : Z) :
  0 <= view_transform <= 7 ->
  0 <= output_transform <= 3 ->
  hardware_rotation (convert_transform_to_rot view_transform output_transform)
  /\ (known_angle (rot_angle view_transform output_transform) = false ->
      convert_transform_to_rot view_transform output_transform = G2D_ROTATION_0).
Proof.
  intros _ _. split.
  - apply convert_transform_to_rot_hardware.
  - apply convert_transform_to_rot_default.
Qed.

Lemma convert_transform_to_rot_total_witness :
  hardware_rotation (convert_transform_to_rot 3 1)
  /\ (known_angle (rot_angle 3 1) = false -> convert_transform_to_rot 3 1 = G2D_ROTATION_0).
Proof. apply (convert_transform_to_rot_total 3 1); lia. Defined.

(** ** The destination clamp *)

Lemma rect_inside_edges (d : g2dRECT) (W H : Z) :
  rect_inside d W H <-> (forall e, edge_inside e d W H).
Proof.
  unfold rect_inside, edge_inside. split.
  - intros (Hl & Hr & Ht & Hb) []; cbn; lia.
  - intros He.
    pose proof (He dst_left) as Hl. pose proof (He dst_right) as Hr.
    pose proof (He dst_top) as Ht. pose proof (He dst_bottom) as Hb.
    cbn in Hl, Hr, Ht, Hb. lia.
Qed.

Lemma clip_block_inside de se scale degenerate W H r :
  edge_inside de (r_dst r) W H -> clip_block de se scale degenerate W H r = Go r.
Proof. unfold edge_inside, clip_block. intros ->. reflexivity. Qed.

(** What one block leaves behind: when control goes on, the edge of the
    block is inside and the other edges are as they were; when the
    function returns there, the test of the block holds of the source. *)
Lemma clip_block_outcome de se scale degenerate W H r :
  match clip_block de se scale degenerate W H r with
  | Undefined => True
  | Return r' => degenerate (r_src r') = true
  | Go r' =>
      edge_inside de (r_dst r') W H
      /\ (forall e, edge_inside e (r_dst r) W H -> edge_inside e (r_dst r') W H)
  end.
Proof.
  unfold clip_block.
  destruct (sticks_out de (r_dst r) W H) eqn:Hout.
  - destruct (move_src se _ (r_src r)) as [s|]; [|exact I].
    destruct (degenerate s) eqn:Hd; cbn; [exact Hd|].
    split.
    + unfold edge_inside. destruct de; cbn; lia.
    + unfold edge_inside. intros e. destruct de, e; cbn; intros; lia.
  - split; [exact Hout | auto].
Qed.

(** C7. With rotation 0, the destination rectangle (-10,-10,90,90), a
    frame buffer of 80 by 80 and the source rectangle (0,0,100,100),
    [g2d_clip_rects] leaves the destination (0,0,80,80) and the source
    (10,10,90,90). *)
Theorem g2d_clip_rects_scenario :
  g2d_clip_rects G2D_ROTATION_0
    (mkRects (mkRECT 0 0 100 100) (mkRECT (-10) (-10) 90 90)) 80 80
  = Go (mkRects (mkRECT 10 10 90 90) (mkRECT 0 0 80 80)).
Proof. vm_compute. reflexivity. Qed.

(** C6. For every rotation, when the destination rectangle lies inside
    the bounds (0 <= left, right <= W, 0 <= top, bottom <= H),
    [g2d_clip_rects] leaves the source and the destination rectangle as
    they are. *)
Theorem g2d_clip_rects_inside (transform : g2d_rotation) (src dst : g2dRECT) (W H : Z) :
  rect_inside dst W H ->
  g2d_clip_rects transform (mkRects src dst) W H = Go (mkRects src dst).
Proof.
  intros Hin. rewrite rect_inside_edges in Hin.
  unfold g2d_clip_rects.
  destruct transform; cbv beta iota zeta delta [and_then];
    repeat rewrite clip_block_inside by apply Hin; reflexivity.
Qed.

Lemma g2d_clip_rects_inside_witness :
  g2d_clip_rects G2D_ROTATION_90 (mkRects (mkRECT 0 0 100 100) (mkRECT 5 5 70 80)) 80 80
  = Go (mkRects (mkRECT 0 0 100 100) (mkRECT 5 5 70 80)).
Proof.
  apply (g2d_clip_rects_inside G2D_ROTATION_90 (mkRECT 0 0 100 100) (mkRECT 5 5 70 80) 80 80).
  unfold rect_inside; cbn; lia.
Defined.

Ltac clip_step :=
  lazymatch goal with
  | |- context [clip_block ?de ?se ?sc ?dg ?W ?H ?r] =>
      let Hb := fresh "Hb" in
      let r' := fresh "r" in
      pose proof (clip_block_outcome de se sc dg W H r) as Hb;
      destruct (clip_block de se sc dg W H r) as [|r'|r'];
      cbv beta iota delta [and_then];
      [ exact I
      | unfold src_clipped_away; lia
      | destruct Hb as [? ?] ]
  end.

Lemma g2d_clip_rects_outcome (transform : g2d_rotation) (r : rects) (W H : Z) :
  hardware_rotation transform ->
  match g2d_clip_rects transform r W H with
  | Undefined => True
  | Return r' => src_clipped_away (r_src r')
  | Go r' => rect_inside (r_dst r') W H
  end.
Proof.
  intros Hrot. unfold g2d_clip_rects.
  destruct transform;
    try (exfalso; destruct Hrot as [|[|[|]]]; discriminate);
    cbv beta iota zeta delta [and_then];
    do 4 clip_step;
    apply rect_inside_edges; intros []; auto.
Qed.

(** The flips are none of the cases of the [switch]: nothing is clamped. *)
Lemma g2d_clip_rects_flip (transform : g2d_rotation) (r : rects) (W H : Z) :
  ~ hardware_rotation transform -> g2d_clip_rects transform r W H = Go r.
Proof.
  intros Hrot. unfold g2d_clip_rects, hardware_rotation in *.
  destruct transform; try reflexivity; exfalso; apply Hrot; auto.
Qed.

(** ** Rounding of binary32 *)

Lemma binary_round_aux_sign prec emax sx mx ex lx :
  signed_or_nan sx (binary_round_aux prec emax sx mx ex lx).
Proof.
  unfold binary_round_aux.
  destruct (shr_fexp prec emax mx ex lx) as [mrs' e'].
  destruct (shr_fexp prec emax _ e' loc_Exact) as [mrs'' e''].
  destruct (shr_m mrs''); cbn; auto.
  destruct (Z.leb _ _); cbn; auto.
Qed.

Lemma binary_round_sign prec emax sx mx ex :
  signed_or_nan sx (binary_round prec emax sx mx ex).
Proof.
  unfold binary_round. destruct (shl_align _ _ _) as [mz ez]. apply binary_round_aux_sign.
Qed.

Lemma digits2_pos_log2 p : Z.pos (digits2_pos p) = Z.log2 (Z.pos p) + 1.
Proof.
  induction p as [p IH|p IH|]; cbn [digits2_pos].
  - rewrite Pos2Z.inj_succ, IH. 
    change (Z.pos p~1) with (2 * Z.pos p + 1). rewrite Z.log2_succ_double by lia. lia.
  - rewrite Pos2Z.inj_succ, IH.
    change (Z.pos p~0) with (2 * Z.pos p). rewrite Z.log2_double by lia. lia.
  - reflexivity.
Qed.

Lemma iter_xO_pow m d : Z.pos (Pos.iter xO m d) = Z.pos m * 2 ^ Z.pos d.
Proof.
  induction d as [|d IH] using Pos.peano_ind.
  - cbn. lia.
  - rewrite Pos.iter_succ, Pos2Z.inj_xO, IH, Pos2Z.inj_succ, Z.pow_succ_r by lia. lia.
Qed.

Lemma shr_1_spec mrs :
  0 <= shr_m mrs ->
  shr_m (shr_1 mrs) = shr_m mrs / 2
  /\ (exact mrs -> shr_m mrs mod 2 = 0 -> exact (shr_1 mrs)).
Proof.
  destruct mrs as [m r s]. cbn [shr_m]. intros Hm.
  destruct m as [|p|p]; [| |lia].
  - cbn. split; [reflexivity|]. intros [Hr Hs] _. cbn in *. subst. split; reflexivity.
  - destruct p as [p|p|]; cbn [shr_1 shr_m shr_r shr_s].
    + split. { rewrite (Pos2Z.inj_xI p). Z.to_euclidean_division_equations. lia. }
      intros _ Hmod. rewrite (Pos2Z.inj_xI p) in Hmod. Z.to_euclidean_division_equations. lia.
    + split. { rewrite (Pos2Z.inj_xO p). Z.to_euclidean_division_equations. lia. }
      intros [Hr Hs] _. cbn in *. subst. split; reflexivity.
    + split; [reflexivity|]. intros _ Hmod. cbn in Hmod. discriminate.
Qed.

Lemma iter_shr_1_spec (k : positive) : forall mrs,
  0 <= shr_m mrs ->
  shr_m (SpecFloat.iter_pos shr_1 k mrs) = shr_m mrs / 2 ^ Z.pos k
  /\ (exact mrs -> shr_m mrs mod 2 ^ Z.pos k = 0 -> exact (SpecFloat.iter_pos shr_1 k mrs)).
Proof.
  induction k as [k IH|k IH|]; intros mrs Hm; cbn [SpecFloat.iter_pos].
  - destruct (shr_1_spec mrs Hm) as [E1 X1].
    assert (0 <= shr_m (shr_1 mrs)) as H1 by (rewrite E1; apply Z.div_pos; lia).
    destruct (IH _ H1) as [E2 X2].
    assert (0 <= shr_m (SpecFloat.iter_pos shr_1 k (shr_1 mrs))) as H2
      by (rewrite E2; apply Z.div_pos; lia).
    destruct (IH _ H2) as [E3 X3].
    rewrite (Pos2Z.inj_xI k).
    replace (2 ^ (2 * Z.pos k + 1)) with (2 * (2 ^ Z.pos k * 2 ^ Z.pos k))
      by (rewrite Z.pow_add_r, Z.pow_1_r, <- Z.pow_add_r by lia; replace (2 * Z.pos k) with (Z.pos k + Z.pos k) by lia; lia).
    assert (0 < 2 ^ Z.pos k) as Hp by (apply Z.pow_pos_nonneg; lia).
    split.
    + rewrite E3, E2, E1. rewrite !Z.div_div by lia. reflexivity.
    + intros Hx Hmod.
      apply X3; [apply X2; [apply X1; [exact Hx|]|]|].
      * Z.to_euclidean_division_equations. nia.
      * rewrite E1. 
        apply Z.mod_divide in Hmod; [|nia]. destruct Hmod as [c Hc].
        rewrite Hc. replace (c * (2 * (2 ^ Z.pos k * 2 ^ Z.pos k))) with ((c * 2 ^ Z.pos k * 2 ^ Z.pos k) * 2) by lia.
        rewrite Z.div_mul by lia. apply Z.mod_divide; [lia|]. exists (c * 2 ^ Z.pos k). lia.
      * rewrite E2, E1.
        apply Z.mod_divide in Hmod; [|nia]. destruct Hmod as [c Hc].
        rewrite Hc. replace (c * (2 * (2 ^ Z.pos k * 2 ^ Z.pos k))) with ((c * 2 ^ Z.pos k * 2 ^ Z.pos k) * 2) by lia.
        rewrite Z.div_mul by lia. rewrite Z.div_mul by lia.
        apply Z.mod_divide; [lia|]. exists c. lia.
  - destruct (IH _ Hm) as [E2 X2].
    assert (0 <= shr_m (SpecFloat.iter_pos shr_1 k mrs)) as H2
      by (rewrite E2; apply Z.div_pos; lia).
    destruct (IH _ H2) as [E3 X3].
    rewrite (Pos2Z.inj_xO k).
    replace (2 ^ (2 * Z.pos k)) with (2 ^ Z.pos k * 2 ^ Z.pos k)
      by (rewrite <- Z.pow_add_r by lia; f_equal; lia).
    assert (0 < 2 ^ Z.pos k) as Hp by (apply Z.pow_pos_nonneg; lia).
    split.
    + rewrite E3, E2. rewrite !Z.div_div by lia. reflexivity.
    + intros Hx Hmod.
      apply Z.mod_divide in Hmod; [|nia]. destruct Hmod as [c Hc].
      apply X3; [apply X2; [exact Hx|]|].
      * rewrite Hc. apply Z.mod_divide; [lia|]. exists (c * 2 ^ Z.pos k). lia.
      * rewrite E2, Hc. rewrite Z.mul_assoc, Z.div_mul by lia.
        apply Z.mod_divide; [lia|]. exists c. lia.
  - destruct (shr_1_spec mrs Hm) as [E1 X1]. split; [exact E1|exact X1].
Qed.

Lemma fexp32 e : fexp 24 128 e = Z.max (e - 24) (-149).
Proof. reflexivity. Qed.

Lemma round_nearest_even_bounds (mrs : shr_record) :
  shr_m mrs <= round_nearest_even (shr_m mrs) (loc_of_shr_record mrs) <= shr_m mrs + 1
  /\ (exact mrs -> round_nearest_even (shr_m mrs) (loc_of_shr_record mrs) = shr_m mrs).
Proof.
  destruct mrs as [m [] []]; cbn; (split; [try destruct (Z.even m); lia|]);
    intros [Hr Hs]; cbn in *; try discriminate; reflexivity.
Qed.

Lemma shr_fexp_exact m e :
  0 <= m ->
  let k := fexp 24 128 (Zdigits2 m + e) - e in
  exists mrs,
    shr_fexp 24 128 m e loc_Exact = (mrs, if 0 <? k then e + k else e)
    /\ shr_m mrs = (if 0 <? k then m / 2 ^ k else m)
    /\ ((0 < k -> m mod 2 ^ k = 0) -> exact mrs).
Proof.
  intros Hm k. unfold shr_fexp, shr. fold k. cbn [shr_record_of_loc].
  destruct k as [|pk|pk] eqn:Ek; cbn [Z.ltb Z.compare].
  - eexists. split; [reflexivity|]. split; [reflexivity|]. intros _. split; reflexivity.
  - destruct (iter_shr_1_spec pk (Build_shr_record m false false)) as [Em Ex]; [exact Hm|].
    cbn [shr_m] in Em, Ex.
    eexists. split; [reflexivity|]. split; [exact Em|].
    intros Hmod. apply Ex; [split; reflexivity | apply Hmod; lia].
  - eexists. split; [reflexivity|]. split; [reflexivity|]. intros _. split; reflexivity.
Qed.

Lemma binary_round_aux_exact s m e :
  0 <= m ->
  let phi := fexp 24 128 (Zdigits2 m + e) in
  let k := phi - e in
  exists m1,
    (if 0 <? k then m / 2 ^ k <= m1 <= m / 2 ^ k + 1 /\ (m mod 2 ^ k = 0 -> m1 = m / 2 ^ k)
     else m1 = m)
    /\ binary_round_aux 24 128 s m e loc_Exact
       = let e1 := if 0 <? k then phi else e in
         let k2 := fexp 24 128 (Zdigits2 m1 + e1) - e1 in
         if 0 <? k2 then pack s (m1 / 2 ^ k2) (e1 + k2) else pack s m1 e1.
Proof.
  intros Hm phi k. unfold binary_round_aux.
  destruct (shr_fexp_exact m e Hm) as (mrs & -> & Em & Ex). fold phi k in Em, Ex |- *.
  destruct (round_nearest_even_bounds mrs) as [Hb Hx].
  set (m1 := round_nearest_even (shr_m mrs) (loc_of_shr_record mrs)) in *.
  exists m1. rewrite Em in Hb, Hx.
  assert (0 <= m1) as Hm1.
  { destruct (0 <? k) eqn:Hk0; [apply Z.ltb_lt in Hk0|lia].
    assert (0 <= m / 2 ^ k) by (apply Z.div_pos; [lia | apply Z.pow_pos_nonneg; lia]). lia. }
  split.
  - destruct (0 <? k) eqn:Hk.
    + split; [exact Hb|]. intros Hmod. apply Hx, Ex. intros _. exact Hmod.
    + apply Hx, Ex. intros Hk'. apply Z.ltb_ge in Hk. lia.
  - replace (if 0 <? k then e + k else e) with (if 0 <? k then phi else e)
      by (destruct (0 <? k); [unfold k; lia | reflexivity]).
    set (e1 := if 0 <? k then phi else e).
    destruct (shr_fexp_exact m1 e1 Hm1) as (mrs2 & -> & Em2 & _).
    cbv zeta. rewrite Em2.
    destruct (0 <? fexp 24 128 (Zdigits2 m1 + e1) - e1); reflexivity.
Qed.

Lemma Zdigits2_log2 m : 0 < m -> Zdigits2 m = Z.log2 m + 1.
Proof. destruct m as [|p|p]; try lia. intros _. apply digits2_pos_log2. Qed.

Lemma shiftl_nonpos m e : e <= 0 -> Z.shiftl m e = m / 2 ^ (- e).
Proof. intros He. rewrite Z.shiftl_div_pow2 by lia. reflexivity. Qed.

Lemma shiftl_nonneg m e : 0 <= e -> Z.shiftl m e = m * 2 ^ e.
Proof. intros He. apply Z.shiftl_mul_pow2. exact He. Qed.

Lemma to_int_pack m e r :
  0 <= m -> F32.to_int (pack false m e) = Some r -> r = Z.shiftl m e.
Proof.
  intros Hm. unfold pack. destruct m as [|p|p]; try lia.
  - cbn. intros [= <-]. rewrite Z.shiftl_0_l. reflexivity.
  - destruct (e <=? 104); [|discriminate]. cbn [F32.to_int cond_neg].
    destruct (_ && _); [|discriminate]. intros [= <-]. reflexivity.
Qed.

Lemma pow2_pos n : 0 <= n -> 0 < 2 ^ n.
Proof. intros. apply Z.pow_pos_nonneg; lia. Qed.

Lemma pow2_split a b : 0 <= a -> 0 <= b -> 2 ^ (a + b) = 2 ^ a * 2 ^ b.
Proof. intros. apply Z.pow_add_r; assumption. Qed.

(** The rounded value is at most an integer below 2^24 that the exact
    value does not exceed. *)
Lemma round_upper (M : positive) (ez a r : Z) :
  ez <= 0 -> 0 <= a < 2 ^ 24 ->
  Z.pos M <= a * 2 ^ (- ez) ->
  F32.to_int (binary_round_aux 24 128 false (Z.pos M) ez loc_Exact) = Some r ->
  r <= a.
Proof.
  intros Hez Ha HM.
  destruct (binary_round_aux_exact false (Z.pos M) ez) as (m1 & Hm1 & ->); [lia|].
  set (phi := fexp 24 128 (Zdigits2 (Z.pos M) + ez)) in *.
  set (k := phi - ez) in *.
  assert (0 < 2 ^ (- ez)) as Hpez by (apply pow2_pos; lia).
  destruct (0 <? k) eqn:Hk.
  - apply Z.ltb_lt in Hk. destruct Hm1 as [Hq Hexact].
    (* phi <= 0 *)
    assert (phi <= 0) as Hphi.
    { destruct (Z_le_gt_dec phi 0) as [|Hgt]; [assumption|exfalso].
      unfold phi in Hgt. rewrite fexp32 in Hgt.
      assert (Zdigits2 (Z.pos M) + ez - 24 >= 1) as Hd by lia.
      rewrite Zdigits2_log2 in Hd by lia.
      pose proof (Z.log2_spec (Z.pos M) ltac:(lia)) as [Hlo _].
      assert (2 ^ (24 + - ez) <= 2 ^ Z.log2 (Z.pos M)) by (apply Z.pow_le_mono_r; lia).
      rewrite pow2_split in * by lia. nia. }
    set (A := a * 2 ^ (- phi)).
    assert (0 < 2 ^ (- phi)) as Hpphi by (apply pow2_pos; lia).
    assert (0 < 2 ^ k) as Hpk by (apply pow2_pos; lia).
    assert (2 ^ (- ez) = 2 ^ (- phi) * 2 ^ k) as Hsplit
      by (rewrite <- pow2_split by lia; f_equal; unfold k; lia).
    assert (Z.pos M <= A * 2 ^ k) as HMA by (unfold A; nia).
    assert (0 <= Z.pos M / 2 ^ k) as Hq0 by (apply Z.div_pos; lia).
    assert (m1 <= A) as Hm1A.
    { destruct (Z.eq_dec (Z.pos M mod 2 ^ k) 0) as [Hmod|Hmod].
      - rewrite (Hexact Hmod). apply Z.div_le_upper_bound; lia.
      - assert (Z.pos M / 2 ^ k < A); [|lia].
        apply Z.div_lt_upper_bound; [lia|].
        assert (Z.pos M <> 2 ^ k * A); [|lia].
        intros Heq. apply Hmod. rewrite Heq, Z.mul_comm. apply Z.mod_mul. lia. }
    assert (0 <= m1) by lia.
    cbv zeta.
    destruct (0 <? fexp 24 128 (Zdigits2 m1 + phi) - phi) eqn:Hk2.
    + apply Z.ltb_lt in Hk2. set (k2 := fexp 24 128 (Zdigits2 m1 + phi) - phi) in *.
      assert (0 < 2 ^ k2) as Hpk2 by (apply pow2_pos; lia).
      assert (0 <= m1 / 2 ^ k2) as Hm2 by (apply Z.div_pos; lia).
      intros Hr. apply to_int_pack in Hr; [|exact Hm2]. subst r.
      assert (m1 / 2 ^ k2 * 2 ^ k2 <= m1) as Hfloor
        by (pose proof (Z.mul_div_le m1 (2 ^ k2) Hpk2); lia).
      destruct (Z_le_gt_dec 0 (phi + k2)) as [Hpos|Hneg].
      * rewrite shiftl_nonneg by lia.
        assert (2 ^ k2 = 2 ^ (phi + k2) * 2 ^ (- phi)) as Hs2
          by (rewrite <- pow2_split by lia; f_equal; lia).
        assert (0 < 2 ^ (phi + k2)) by (apply pow2_pos; lia).
        unfold A in Hm1A. nia.
      * rewrite shiftl_nonpos by lia.
        assert (2 ^ (- phi) = 2 ^ (- (phi + k2)) * 2 ^ k2) as Hs2
          by (rewrite <- pow2_split by lia; f_equal; lia).
        assert (0 < 2 ^ (- (phi + k2))) by (apply pow2_pos; lia).
        apply Z.div_le_upper_bound; [lia|]. unfold A in Hm1A. nia.
    + intros Hr. apply to_int_pack in Hr; [|lia]. subst r.
      rewrite shiftl_nonpos by lia.
      apply Z.div_le_upper_bound; [lia|]. unfold A in Hm1A. lia.
  - subst m1. cbv zeta. fold phi. fold k. rewrite Hk.
    intros Hr. apply to_int_pack in Hr; [|lia]. subst r.
    rewrite shiftl_nonpos by lia.
    apply Z.div_le_upper_bound; lia.
Qed.

Lemma to_int_pack_nonneg m e r :
  0 <= m -> F32.to_int (pack false m e) = Some r -> 0 <= r.
Proof.
  intros Hm Hr. apply to_int_pack in Hr; [|exact Hm]. subst r. apply Z.shiftl_nonneg. exact Hm.
Qed.

Lemma log2_lt_pow2 m n : 0 < m -> Z.log2 m < n -> m < 2 ^ n.
Proof. intros Hm Hl. apply Z.log2_lt_pow2; assumption. Qed.

Lemma log2_ge_pow2 m n : 0 < m -> 0 <= n -> n <= Z.log2 m -> 2 ^ n <= m.
Proof. intros Hm Hn Hl. apply Z.log2_le_pow2; assumption. Qed.

(** The rounded value is at least an integer below 2^24 that the exact
    value reaches. *)
Lemma round_lower (M : positive) (ez a r : Z) :
  ez <= 0 -> 0 <= a < 2 ^ 24 ->
  a * 2 ^ (- ez) <= Z.pos M ->
  F32.to_int (binary_round_aux 24 128 false (Z.pos M) ez loc_Exact) = Some r ->
  a <= r.
Proof.
  intros Hez Ha HM.
  destruct (binary_round_aux_exact false (Z.pos M) ez) as (m1 & Hm1 & ->); [lia|].
  set (phi := fexp 24 128 (Zdigits2 (Z.pos M) + ez)) in *.
  set (k := phi - ez) in *.
  assert (0 < 2 ^ (- ez)) as Hpez by (apply pow2_pos; lia).
  destruct (0 <? k) eqn:Hk.
  - apply Z.ltb_lt in Hk. destruct Hm1 as [Hq _].
    assert (0 < 2 ^ k) as Hpk by (apply pow2_pos; lia).
    assert (0 <= Z.pos M / 2 ^ k) as Hq0 by (apply Z.div_pos; lia).
    assert (0 <= m1) as Hm10 by lia.
    destruct (Z.eq_dec a 0) as [-> | Ha0].
    { cbv zeta. destruct (0 <? _) eqn:Hk2.
      - apply Z.ltb_lt in Hk2.
        apply to_int_pack_nonneg. apply Z.div_pos; [lia | apply pow2_pos; lia].
      - apply to_int_pack_nonneg. exact Hm10. }
    assert (phi = Z.max (Z.log2 (Z.pos M) + 1 + ez - 24) (-149)) as Ephi
      by (unfold phi; rewrite fexp32, Zdigits2_log2 by lia; reflexivity).
    (* the quotient is positive *)
    assert (1 <= Z.pos M / 2 ^ k) as Hq1.
    { destruct (Z_le_gt_dec phi 0) as [Hphi|Hphi].
      - assert (2 ^ (- ez) = 2 ^ (- phi) * 2 ^ k) as Hsplit
          by (rewrite <- pow2_split by lia; f_equal; unfold k; lia).
        assert (0 < 2 ^ (- phi)) by (apply pow2_pos; lia).
        apply Z.div_le_lower_bound; [lia|]. nia.
      - assert (k = Z.log2 (Z.pos M) - 23) as Ek by (unfold k; lia).
        apply Z.div_le_lower_bound; [lia|].
        pose proof (log2_ge_pow2 (Z.pos M) k ltac:(lia) ltac:(lia) ltac:(lia)). lia. }
    set (q := Z.pos M / 2 ^ k) in *.
    assert (Z.log2 q = Z.log2 (Z.pos M) - k) as Elq.
    { unfold q. rewrite <- Z.shiftr_div_pow2 by lia.
      rewrite Z.log2_shiftr by lia.
      assert (k <= Z.log2 (Z.pos M)); [|lia].
      destruct (Z_le_gt_dec k (Z.log2 (Z.pos M))) as [|Hgt]; [assumption|exfalso].
      pose proof (log2_lt_pow2 (Z.pos M) k ltac:(lia) ltac:(lia)).
      assert (q = 0) by (apply Z.div_small; lia). lia. }
    assert (Z.log2 q <= 23) as Hlq by lia.
    assert (m1 <= 2 ^ 24) as Hm1le.
    { pose proof (log2_lt_pow2 q 24 ltac:(lia) ltac:(lia)). lia. }
    cbv zeta.
    destruct (0 <? fexp 24 128 (Zdigits2 m1 + phi) - phi) eqn:Hk2.
    + apply Z.ltb_lt in Hk2.
      rewrite fexp32, Zdigits2_log2 in Hk2 by lia.
      assert (24 <= Z.log2 m1) as Hl1 by lia.
      pose proof (log2_ge_pow2 m1 24 ltac:(lia) ltac:(lia) Hl1) as Hge.
      assert (m1 = 2 ^ 24) as -> by lia.
      replace (fexp 24 128 (Zdigits2 (2 ^ 24) + phi) - phi) with 1
        by (rewrite fexp32; change (Zdigits2 (2 ^ 24)) with 25; lia).
      change (2 ^ 24 / 2 ^ 1) with (2 ^ 23).
      intros Hr. apply to_int_pack in Hr; [|lia]. subst r.
      destruct (Z_le_gt_dec phi 0) as [Hphi|Hphi].
      * assert (2 ^ (- ez) = 2 ^ (- phi) * 2 ^ k) as Hsplit
          by (rewrite <- pow2_split by lia; f_equal; unfold k; lia).
        assert (0 < 2 ^ (- phi)) by (apply pow2_pos; lia).
        assert (a * 2 ^ (- phi) <= q) as HA by (apply Z.div_le_lower_bound; [lia|]; nia).
        assert (a * 2 ^ (- phi) <= 2 ^ 24) as HA' by lia.
        destruct (Z.eq_dec phi 0) as [-> | Hne].
        -- change (Z.shiftl (2 ^ 23) (0 + 1)) with (2 ^ 24). change (2 ^ (- 0)) with 1 in HA'. lia.
        -- rewrite shiftl_nonpos by lia.
           apply Z.div_le_lower_bound; [apply pow2_pos; lia|].
           assert (2 ^ (- phi) = 2 ^ (- (phi + 1)) * 2) as Hs
             by (rewrite <- (Z.pow_1_r 2) at 3; rewrite <- pow2_split by lia; f_equal; lia).
           change (2 ^ 24) with (2 ^ 23 * 2) in HA'. nia.
      * rewrite shiftl_nonneg by lia.
        assert (1 <= 2 ^ (phi + 1)) by (pose proof (pow2_pos (phi + 1)); lia).
        change (2 ^ 24) with (2 ^ 23 * 2) in Ha.
        assert (2 ^ (phi + 1) = 2 ^ phi * 2)
          by (rewrite <- (Z.pow_1_r 2) at 3; rewrite <- pow2_split by lia; reflexivity).
        assert (0 < 2 ^ phi) by (apply pow2_pos; lia). nia.
    + intros Hr. apply to_int_pack in Hr; [|lia]. subst r.
      destruct (Z_le_gt_dec phi 0) as [Hphi|Hphi].
      * assert (2 ^ (- ez) = 2 ^ (- phi) * 2 ^ k) as Hsplit
          by (rewrite <- pow2_split by lia; f_equal; unfold k; lia).
        assert (0 < 2 ^ (- phi)) by (apply pow2_pos; lia).
        assert (a * 2 ^ (- phi) <= q) as HA by (apply Z.div_le_lower_bound; [lia|]; nia).
        rewrite shiftl_nonpos by lia.
        apply Z.div_le_lower_bound; lia.
      * assert (Z.log2 q = 23) as Elq23 by lia.
        pose proof (log2_ge_pow2 q 23 ltac:(lia) ltac:(lia) ltac:(lia)) as Hq23.
        rewrite shiftl_nonneg by lia.
        assert (2 <= 2 ^ phi).
        { change 2 with (2 ^ 1) at 1. apply Z.pow_le_mono_r; lia. }
        change (2 ^ 24) with (2 ^ 23 * 2) in Ha. nia.
  - subst m1. cbv zeta. fold phi. fold k. rewrite Hk.
    intros Hr. apply to_int_pack in Hr; [|lia]. subst r.
    rewrite shiftl_nonpos by lia.
    apply Z.div_le_lower_bound; lia.
Qed.

Lemma shl_align_fst m e e' :
  e' <= e -> Z.pos (fst (shl_align m e e')) = Z.pos m * 2 ^ (e - e').
Proof.
  intros He. unfold shl_align.
  destruct (e' - e) as [|d|d] eqn:Ed; try lia; cbn [fst].
  - replace (e - e') with 0 by lia. lia.
  - rewrite iter_xO_pow. f_equal. f_equal. lia.
Qed.

Lemma shl_align_snd m e e' : e' <= e -> snd (shl_align m e e') = e'.
Proof.
  intros He. unfold shl_align.
  destruct (e' - e) as [|d|d] eqn:Ed; try lia; cbn [snd]; lia.
Qed.

Lemma shl_align_id m e e' : e <= e' -> shl_align m e e' = (m, e).
Proof.
  intros He. unfold shl_align. destruct (e' - e) as [|d|d] eqn:Ed; try lia; reflexivity.
Qed.

Lemma binary_round_as_aux s M ez :
  exists M' ez',
    binary_round 24 128 s M ez = binary_round_aux 24 128 s (Z.pos M') ez' loc_Exact
    /\ ez' <= ez /\ Z.pos M' = Z.pos M * 2 ^ (ez - ez').
Proof.
  unfold binary_round.
  set (phi := fexp 24 128 (Z.pos (digits2_pos M) + ez)).
  destruct (Z_le_gt_dec ez phi) as [Hle|Hgt].
  - rewrite shl_align_id by exact Hle. exists M, ez.
    split; [reflexivity|]. split; [lia|]. replace (ez - ez) with 0 by lia. lia.
  - pose proof (shl_align_fst M ez phi ltac:(lia)) as Hf.
    pose proof (shl_align_snd M ez phi ltac:(lia)) as Hs.
    destruct (shl_align M ez phi) as [mz ez']. cbn [fst snd] in Hf, Hs. subst ez'.
    exists mz, phi. split; [reflexivity|]. split; [lia|exact Hf].
Qed.

Lemma binary_round_lower (M : positive) (ez a r : Z) :
  ez <= 0 -> 0 <= a < 2 ^ 24 ->
  a * 2 ^ (- ez) <= Z.pos M ->
  F32.to_int (binary_round 24 128 false M ez) = Some r ->
  a <= r.
Proof.
  intros Hez Ha HM.
  destruct (binary_round_as_aux false M ez) as (M' & ez' & -> & Hle & HM').
  apply round_lower; [lia | exact Ha |].
  rewrite HM'. replace (- ez') with (- ez + (ez - ez')) by lia.
  rewrite pow2_split by lia.
  assert (0 < 2 ^ (ez - ez')) by (apply pow2_pos; lia). nia.
Qed.

Lemma binary_round_upper (M : positive) (ez a r : Z) :
  ez <= 0 -> 0 <= a < 2 ^ 24 ->
  Z.pos M <= a * 2 ^ (- ez) ->
  F32.to_int (binary_round 24 128 false M ez) = Some r ->
  r <= a.
Proof.
  intros Hez Ha HM.
  destruct (binary_round_as_aux false M ez) as (M' & ez' & -> & Hle & HM').
  apply round_upper; [lia | exact Ha |].
  rewrite HM'. replace (- ez') with (- ez + (ez - ez')) by lia.
  rewrite pow2_split by lia.
  assert (0 < 2 ^ (ez - ez')) by (apply pow2_pos; lia). nia.
Qed.

(** An integer below 2^24 is a float: the mantissa of [(float)a] times
    two to its exponent is [a]. *)
Lemma of_int_small (a : Z) :
  0 < a < 2 ^ 24 ->
  exists ma ea, F32.of_int a = S754_finite false ma ea /\ ea <= 0 /\ Z.pos ma = a * 2 ^ (- ea).
Proof.
  intros Ha. destruct a as [|p|p]; try lia.
  unfold F32.of_int, binary_normalize, F32.prec, F32.emax.
  assert (Z.log2 (Z.pos p) < 24) as Hl by (apply Z.log2_lt_pow2; lia).
  pose proof (Z.log2_nonneg (Z.pos p)) as Hl0.
  unfold binary_round.
  set (phi := fexp 24 128 (Z.pos (digits2_pos p) + 0)).
  assert (phi = Z.log2 (Z.pos p) - 23) as Ephi
    by (unfold phi; rewrite fexp32, digits2_pos_log2; lia).
  pose proof (shl_align_fst p 0 phi ltac:(lia)) as Hf.
  pose proof (shl_align_snd p 0 phi ltac:(lia)) as Hs.
  destruct (shl_align p 0 phi) as [mz ez']. cbn [fst snd] in Hf, Hs. subst ez'.
  replace (0 - phi) with (- phi) in Hf by lia.
  destruct (binary_round_aux_exact false (Z.pos mz) phi) as (m1 & Hm1 & ->); [lia|].
  assert (Zdigits2 (Z.pos mz) + phi = Z.log2 (Z.pos p) + 1) as Hd.
  { rewrite Zdigits2_log2 by lia. rewrite Hf, Z.log2_mul_pow2 by lia. lia. }
  rewrite Hd in *.
  replace (fexp 24 128 (Z.log2 (Z.pos p) + 1)) with phi in * by (rewrite fexp32; lia).
  replace (phi - phi) with 0 in * by lia. cbn [Z.ltb Z.compare] in *. subst m1.
  cbv zeta. rewrite Hd.
  replace (fexp 24 128 (Z.log2 (Z.pos p) + 1) - phi) with 0 by (rewrite fexp32; lia).
  cbn [Z.ltb Z.compare pack].
  replace (phi <=? 104) with true by (symmetry; apply Z.leb_le; lia).
  exists mz, phi. split; [reflexivity|]. split; [lia|exact Hf].
Qed.

Lemma of_int_zero : F32.of_int 0 = S754_zero false.
Proof. reflexivity. Qed.

Lemma to_int_signed (s : bool) (x : spec_float) (r : Z) :
  signed_or_nan s x -> F32.to_int x = Some r -> if s then r <= 0 else 0 <= r.
Proof.
  destruct x as [s'|s'| |s' m e]; cbn [signed_or_nan F32.to_int]; try discriminate.
  - intros _ [= <-]. destruct s; lia.
  - intros ->. destruct (_ && _); [|discriminate]. intros [= <-].
    pose proof (Z.shiftl_nonneg (Z.pos m) e) as [_ Hn]. specialize (Hn ltac:(lia)).
    destruct s; cbn; lia.
Qed.

Lemma of_int_nonneg (n : Z) : 0 <= n -> nonneg (F32.of_int n).
Proof.
  intros Hn. unfold F32.of_int, binary_normalize, nonneg.
  destruct n as [|p|p]; try lia; [reflexivity | apply binary_round_sign].
Qed.

Lemma mul_nonneg (x y : spec_float) : nonneg x -> nonneg y -> nonneg (F32.mul x y).
Proof.
  unfold nonneg, F32.mul, SFmul.
  destruct x as [sx|sx| |sx mx ex], y as [sy|sy| |sy my ey]; cbn [signed_or_nan];
    intros; subst; try reflexivity; try exact I.
  apply binary_round_aux_sign.
Qed.

Lemma div_nonneg (x y : spec_float) : nonneg x -> nonneg y -> nonneg (F32.div x y).
Proof.
  unfold nonneg, F32.div, SFdiv.
  destruct x as [sx|sx| |sx mx ex], y as [sy|sy| |sy my ey]; cbn [signed_or_nan];
    intros; subst; try reflexivity; try exact I.
  destruct (SFdiv_core_binary _ _ _ _ _ _) as [[mz ez] lz]. apply binary_round_aux_sign.
Qed.

Lemma floorf_nonneg (x : spec_float) : nonneg x -> nonneg (F32.floorf x).
Proof.
  unfold nonneg. destruct x as [sx|sx| |sx mx ex]; cbn [signed_or_nan F32.floorf]; auto.
  intros ->. apply of_int_nonneg. cbn [cond_neg]. apply Z.shiftl_nonneg. lia.
Qed.

Lemma shrink_nonneg (over : Z) (scale : spec_float) :
  0 <= over -> nonneg scale -> nonneg (shrink over scale).
Proof.
  intros Ho Hs. unfold shrink. apply floorf_nonneg, mul_nonneg; [apply of_int_nonneg, Ho|exact Hs].
Qed.

Lemma to_int_finite_small ma ea a :
  ea <= 0 -> Z.pos ma = a * 2 ^ (- ea) -> 0 < a < 2 ^ 24 ->
  F32.to_int (S754_finite false ma ea) = Some a.
Proof.
  intros Hea Hma Ha. cbn [F32.to_int cond_neg].
  rewrite shiftl_nonpos, Hma, Z.div_mul by (try lia; pose proof (pow2_pos (- ea)); lia).
  replace ((- 2 ^ 31 <=? a) && (a <? 2 ^ 31)) with true; [reflexivity|].
  symmetry. apply andb_true_iff. split; [apply Z.leb_le | apply Z.ltb_lt]; lia.
Qed.

(** [x += f] does not lower [x], and [x -= f] does not raise it, when [x]
    is below 2^24 and [f] is not negative. *)
Lemma add_assign_lower (a : Z) (f : spec_float) (r : Z) :
  0 <= a < 2 ^ 24 -> nonneg f -> add_assign a f = Some r -> a <= r.
Proof.
  intros Ha Hf. unfold add_assign, F32.add.
  destruct (Z.eq_dec a 0) as [-> | Ha0].
  - rewrite of_int_zero. intros Hr.
    assert (nonneg (SFadd F32.prec F32.emax (S754_zero false) f)) as Hs.
    { destruct f as [s|s| |s m e]; cbn in Hf |- *; subst; try reflexivity; try exact I. }
    apply (to_int_signed false _ _ Hs Hr).
  - destruct (of_int_small a ltac:(lia)) as (ma & ea & -> & Hea & Hma).
    destruct f as [s|s| |s mf ef]; cbn [SFadd]; try discriminate.
    + intros Hr. rewrite (to_int_finite_small ma ea a) in Hr by (try assumption; lia).
      injection Hr as <-. lia.
    + cbn in Hf. subst s. cbn [cond_Zopp].
      set (ez := Z.min ea ef).
      pose proof (shl_align_fst ma ea ez ltac:(lia)) as HA.
      pose proof (shl_align_fst mf ef ez ltac:(lia)) as HF.
      destruct (shl_align ma ea ez) as [A' ?], (shl_align mf ef ez) as [F' ?].
      cbn [fst] in *. cbn [Z.add binary_normalize].
      apply binary_round_lower; [lia | lia |].
      rewrite Pos2Z.inj_add, HA, Hma.
      replace (- ez) with (- ea + (ea - ez)) by lia. rewrite pow2_split by lia. lia.
Qed.

Lemma sub_assign_upper (a : Z) (f : spec_float) (r : Z) :
  0 <= a < 2 ^ 24 -> nonneg f -> sub_assign a f = Some r -> r <= a.
Proof.
  intros Ha Hf. unfold sub_assign, F32.sub.
  destruct (Z.eq_dec a 0) as [-> | Ha0].
  - rewrite of_int_zero. intros Hr.
    destruct f as [s|s| |s m e]; cbn in Hf; subst; cbn [SFsub negb] in Hr; try discriminate.
    + injection Hr as <-. lia.
    + apply (to_int_signed true (S754_finite true m e) r eq_refl Hr).
  - destruct (of_int_small a ltac:(lia)) as (ma & ea & -> & Hea & Hma).
    destruct f as [s|s| |s mf ef]; cbn [SFsub]; try discriminate.
    + intros Hr. rewrite (to_int_finite_small ma ea a) in Hr by (try assumption; lia).
      injection Hr as <-. lia.
    + cbn in Hf. subst s. cbn [cond_Zopp].
      set (ez := Z.min ea ef).
      pose proof (shl_align_fst ma ea ez ltac:(lia)) as HA.
      pose proof (shl_align_fst mf ef ez ltac:(lia)) as HF.
      destruct (shl_align ma ea ez) as [A' ?], (shl_align mf ef ez) as [F' ?].
      cbn [fst] in *.
      assert (Z.pos A' = a * 2 ^ (- ez)) as HA'.
      { rewrite HA, Hma. replace (- ez) with (- ea + (ea - ez)) by lia.
        rewrite pow2_split by lia. lia. }
      destruct (Z.pos A' - Z.pos F') as [|M|M] eqn:Ed; cbn [binary_normalize].
      * intros [= <-]. lia.
      * apply binary_round_upper; lia.
      * intros Hr.
        pose proof (to_int_signed true _ _ (binary_round_sign 24 128 true M ez) Hr) as Hneg.
        cbn in Hneg. lia.
Qed.

Lemma int32_small (z : Z) : - 2 ^ 31 <= z < 2 ^ 31 -> int32 z = z.
Proof. intros Hz. unfold int32. rewrite Z.mod_small by lia. lia. Qed.

Lemma overflow_nonneg de d W H :
  dst_bounded d W H -> sticks_out de d W H = true -> 0 <= overflow de d W H.
Proof.
  unfold dst_bounded. intros Hb Hout.
  destruct de; cbn in Hout |- *; rewrite int32_small by lia; lia.
Qed.

Lemma move_src_moved se f s s' :
  nonneg f -> 0 <= edge_of se s < 2 ^ 24 ->
  move_src se f s = Some s' -> moved se s s'.
Proof.
  intros Hf He. destruct se; cbn [move_src edge_of moved] in *.
  - destruct (add_assign (left s) f) as [v|] eqn:Ev; [|discriminate].
    intros [= <-]. cbn. pose proof (add_assign_lower _ _ _ He Hf Ev). lia.
  - destruct (sub_assign (right s) f) as [v|] eqn:Ev; [|discriminate].
    intros [= <-]. cbn. pose proof (sub_assign_upper _ _ _ He Hf Ev). lia.
  - destruct (add_assign (top s) f) as [v|] eqn:Ev; [|discriminate].
    intros [= <-]. cbn. pose proof (add_assign_lower _ _ _ He Hf Ev). lia.
  - destruct (sub_assign (bottom s) f) as [v|] eqn:Ev; [|discriminate].
    intros [= <-]. cbn. pose proof (sub_assign_upper _ _ _ He Hf Ev). lia.
Qed.

Lemma moved_refl se s : moved se s s.
Proof. destruct se; cbn; lia. Qed.

Lemma clamp_dst_bounded de d W H : dst_bounded d W H -> dst_bounded (clamp_dst de d W H) W H.
Proof. unfold dst_bounded. destruct de; cbn; lia. Qed.

Lemma clip_block_moves de se scale degenerate W H r :
  nonneg scale -> dst_bounded (r_dst r) W H -> 0 <= edge_of se (r_src r) < 2 ^ 24 ->
  match clip_block de se scale degenerate W H r with
  | Undefined => True
  | Return r' | Go r' => moved se (r_src r) (r_src r') /\ dst_bounded (r_dst r') W H
  end.
Proof.
  intros Hs Hd He. unfold clip_block.
  destruct (sticks_out de (r_dst r) W H) eqn:Hout; [|split; [apply moved_refl | exact Hd]].
  pose proof (shrink_nonneg _ scale (overflow_nonneg _ _ _ _ Hd Hout) Hs) as Hf.
  destruct (move_src se _ (r_src r)) as [s'|] eqn:Em; [|exact I].
  pose proof (move_src_moved _ _ _ _ Hf He Em) as Hm.
  destruct (degenerate s'); cbn [r_src r_dst]; (split; [exact Hm | apply clamp_dst_bounded, Hd]).
Qed.

Ltac clip_src_step :=
  lazymatch goal with
  | |- context [clip_block ?de ?se ?sc ?dg ?W ?H ?r] =>
      let Hb := fresh "Hb" in
      let r' := fresh "r" in
      assert (Hb := clip_block_moves de se sc dg W H r);
      destruct (clip_block de se sc dg W H r) as [|r'|r'];
      cbv beta iota delta [and_then clipped];
      [ discriminate
      | destruct Hb as [Hb _];
        [ assumption | assumption | cbn [edge_of moved] in *; lia | ];
        intros [= <-]; cbn [moved] in *; unfold src_within; lia
      | destruct Hb as [? ?];
        [ assumption | assumption | cbn [edge_of moved] in *; lia | ];
        cbn [moved] in * ]
  end.

Lemma g2d_clip_rects_src_within (transform : g2d_rotation) (r r' : rects) (W H : Z) :
  src_proper (r_src r) -> dst_proper (r_dst r) W H ->
  clipped (g2d_clip_rects transform r W H) = Some r' ->
  src_within (r_src r') (r_src r).
Proof.
  intros Hs (Hw & Hh & Hd). unfold src_proper in Hs. unfold g2d_clip_rects.
  pose proof Hd as Hd'. unfold dst_bounded in Hd'.
  assert (forall a b, 0 <= a -> 0 <= b -> nonneg (F32.div (F32.of_int a) (F32.of_int b)))
    as Hscale by (intros; apply div_nonneg; apply of_int_nonneg; assumption).
  assert (0 <= int32 (right (r_src r) - left (r_src r))) as Hsw by (rewrite int32_small; lia).
  assert (0 <= int32 (bottom (r_src r) - top (r_src r))) as Hsh by (rewrite int32_small; lia).
  assert (0 <= int32 (right (r_dst r) - left (r_dst r))) as Hdw by (rewrite int32_small; lia).
  assert (0 <= int32 (bottom (r_dst r) - top (r_dst r))) as Hdh by (rewrite int32_small; lia).
  pose proof (Hscale _ _ Hsw Hdw) as Hww. pose proof (Hscale _ _ Hsh Hdh) as Hhh.
  pose proof (Hscale _ _ Hsh Hdw) as Hhw. pose proof (Hscale _ _ Hsw Hdh) as Hwh.
  clear Hscale.
  destruct transform; cbv beta iota zeta delta [and_then];
    try (cbn [clipped]; intros [= <-]; unfold src_within; lia);
    do 4 clip_src_step; intros [= <-]; unfold src_within; lia.
Qed.

Lemma src_within_area (s' s : g2dRECT) :
  src_within s' s -> left s' <= right s' -> top s' <= bottom s' ->
  rect_area s' <= rect_area s.
Proof. unfold src_within, rect_area. intros. nia. Qed.

(** C2, as the code has it. Whenever the conversions of [g2d_clip_rects]
    have a result: for the rotations 0, 90, 180 and 270 degrees the
    function either runs through its four blocks and leaves the
    destination inside the bounds (0 <= left, right <= W, 0 <= top,
    bottom <= H), or returns from the block after which the source
    rectangle is clipped away, the destination edges of the later blocks
    being left as they were; for a flip it changes nothing; and when the
    source is a rectangle of coordinates from 0 to below 2^24 and the
    destination a rectangle well inside the range of an int, no source
    edge moves outward, so that a source that is still a rectangle has at
    most the area it had. *)
Theorem g2d_clip_rects_clamps (transform : g2d_rotation) (r r' : rects) (W H : Z) :
  clipped (g2d_clip_rects transform r W H) = Some r' ->
  (hardware_rotation transform ->
   (g2d_clip_rects transform r W H = Go r' /\ rect_inside (r_dst r') W H)
   \/ (g2d_clip_rects transform r W H = Return r' /\ src_clipped_away (r_src r')))
  /\ (~ hardware_rotation transform -> r' = r)
  /\ (src_proper (r_src r) -> dst_proper (r_dst r) W H ->
      src_within (r_src r') (r_src r)
      /\ (left (r_src r') <= right (r_src r') -> top (r_src r') <= bottom (r_src r') ->
          rect_area (r_src r') <= rect_area (r_src r))).
Proof.
  intros Hres. split; [|split].
  - intros Hrot. pose proof (g2d_clip_rects_outcome transform r W H Hrot) as Hout.
    destruct (g2d_clip_rects transform r W H) as [|r1|r1]; cbn in Hres;
      [discriminate | injection Hres as -> | injection Hres as ->]; auto.
  - intros Hflip. rewrite (g2d_clip_rects_flip transform r W H Hflip) in Hres.
    cbn in Hres. congruence.
  - intros Hs Hd.
    pose proof (g2d_clip_rects_src_within transform r r' W H Hs Hd Hres) as Hin.
    split; [exact Hin|]. intros. apply src_within_area; assumption.
Qed.

Lemma g2d_clip_rects_clamps_witness :
  (hardware_rotation G2D_ROTATION_180 ->
   (g2d_clip_rects G2D_ROTATION_180
      (mkRects (mkRECT 0 0 100 100) (mkRECT (-10) (-10) 90 90)) 80 80
    = Go (mkRects (mkRECT 10 10 90 90) (mkRECT 0 0 80 80))
    /\ rect_inside (mkRECT 0 0 80 80) 80 80)
   \/ (g2d_clip_rects G2D_ROTATION_180
         (mkRects (mkRECT 0 0 100 100) (mkRECT (-10) (-10) 90 90)) 80 80
       = Return (mkRects (mkRECT 10 10 90 90) (mkRECT 0 0 80 80))
       /\ src_clipped_away (mkRECT 10 10 90 90)))
  /\ (~ hardware_rotation G2D_ROTATION_180 ->
      mkRects (mkRECT 10 10 90 90) (mkRECT 0 0 80 80)
      = mkRects (mkRECT 0 0 100 100) (mkRECT (-10) (-10) 90 90))
  /\ (src_proper (mkRECT 0 0 100 100) -> dst_proper (mkRECT (-10) (-10) 90 90) 80 80 ->
      src_within (mkRECT 10 10 90 90) (mkRECT 0 0 100 100)
      /\ (10 <= 90 -> 10 <= 90 ->
          rect_area (mkRECT 10 10 90 90) <= rect_area (mkRECT 0 0 100 100))).
Proof.
  apply (g2d_clip_rects_clamps G2D_ROTATION_180
           (mkRects (mkRECT 0 0 100 100) (mkRECT (-10) (-10) 90 90))
           (mkRects (mkRECT 10 10 90 90) (mkRECT 0 0 80 80)) 80 80).
  vm_compute. reflexivity.
Defined.

(** C2, as the design document has it, fails. Under a flip the
    destination (-10,-10,90,90) stays as it is against the bounds 80 by
    80. Under rotation 0 the destination (-20,-20,-10,-10) uses up the
    source at its left edge: the function returns there and the top edge
    stays at -20. And a source edge at 2^24 + 1, which no float holds,
    comes back as 2^24: the source (16777217,0,16777219,1) of area 2
    becomes (16777216,0,16777219,1) of area 3. With small coordinates
    and rotation 270 a destination below and right of the bounds turns
    the source (1000,0,1010,10) over on both axes, and the product of
    its sides grows from 100 to 9890100. *)
Lemma g2d_clip_rects_leaves_outside :
  g2d_clip_rects G2D_FLIP_V
    (mkRects (mkRECT 0 0 100 100) (mkRECT (-10) (-10) 90 90)) 80 80
  = Go (mkRects (mkRECT 0 0 100 100) (mkRECT (-10) (-10) 90 90))
  /\ ~ rect_inside (mkRECT (-10) (-10) 90 90) 80 80
  /\ g2d_clip_rects G2D_ROTATION_0
       (mkRects (mkRECT 0 0 100 100) (mkRECT (-20) (-20) (-10) (-10))) 80 80
     = Return (mkRects (mkRECT 200 0 100 100) (mkRECT 0 (-20) (-10) (-10)))
  /\ ~ rect_inside (mkRECT 0 (-20) (-10) (-10)) 80 80
  /\ g2d_clip_rects G2D_ROTATION_0
       (mkRects (mkRECT 16777217 0 16777219 1) (mkRECT (-1) 0 99 1)) 99 1
     = Go (mkRects (mkRECT 16777216 0 16777219 1) (mkRECT 0 0 99 1))
  /\ rect_area (mkRECT 16777217 0 16777219 1) < rect_area (mkRECT 16777216 0 16777219 1)
  /\ g2d_clip_rects G2D_ROTATION_270
       (mkRects (mkRECT 1000 0 1010 10) (mkRECT 1000 109 1001 110)) 1 10
     = Return (mkRects (mkRECT 1000 10000 10 10) (mkRECT 1000 109 1 10))
  /\ rect_area (mkRECT 1000 0 1010 10) < rect_area (mkRECT 1000 10000 10 10).
Proof.
  repeat split; try (vm_compute; reflexivity);
    unfold rect_inside; cbn; lia.
Qed.

(** ** The damage ring *)

Lemma region_contains_init (x y : Z) : region_contains pixman_region32_init x y = false.
Proof. reflexivity. Qed.

Lemma BoxLists_union_law : @union_law BoxLists.pixman.
Proof.
  intros a b x y. cbn. unfold BoxLists.union, region_contains. apply existsb_app.
Qed.

Section DamageRingProperties.
Context `{Pixman}.
Hypothesis law : union_law.

(** The pixels of [output_get_damage] are those of the three regions of
    the ring and of the region it starts from. *)
Lemma output_get_damage_pixels (c : Z) (s0 s1 s2 acc : pixman_region32) (x y : Z) :
  region_contains (output_get_damage (mkRing c [s0; s1; s2]) acc) x y
  = region_contains acc x y || region_contains s0 x y
    || region_contains s1 x y || region_contains s2 x y.
Proof.
  change (output_get_damage (mkRing c [s0; s1; s2]) acc)
    with (pixman_region32_union
            (pixman_region32_union (pixman_region32_union acc s0) s1) s2).
  rewrite !law. reflexivity.
Qed.

(** One repaint on a ring of three regions: the new damage takes the
    place after [current_buffer], and the total is the damage of the
    ring before the call together with the new damage. *)
Lemma repaint_output_damage_step (c : Z) (s0 s1 s2 d : pixman_region32) :
  0 <= c < 3 ->
  exists total,
    repaint_output_damage (mkRing c [s0; s1; s2]) d
    = Some (total,
            mkRing ((c + 1) mod 3)
              (if c =? 0 then [s0; d; s2] else if c =? 1 then [s0; s1; d] else [d; s1; s2]))
    /\ forall x y,
         region_contains total x y
         = region_contains s0 x y || region_contains s1 x y
           || region_contains s2 x y || region_contains d x y.
Proof.
  intros Hc.
  exists (pixman_region32_union
            (output_get_damage (mkRing c [s0; s1; s2]) pixman_region32_init) d).
  split.
  - assert (c = 0 \/ c = 1 \/ c = 2) as [-> | [-> | ->]] by lia; reflexivity.
  - intros x y. rewrite law, output_get_damage_pixels, region_contains_init. reflexivity.
Qed.

Lemma repaint_frames_cons (go go' : damage_ring) (d total : pixman_region32)
    (rest : list pixman_region32) :
  repaint_output_damage go d = Some (total, go') ->
  repaint_frames go (d :: rest)
  = match repaint_frames go' rest with
    | Some (totals, go'') => Some (total :: totals, go'')
    | None => None
    end.
Proof.
  intros Hstep. cbn [repaint_frames]. rewrite Hstep. cbn.
  destruct (repaint_frames go' rest) as [[totals go'']|]; reflexivity.
Qed.

Ltac ring_step c s0 s1 s2 d t Heq Ht :=
  let Hc := fresh in
  assert (0 <= c < 3) as Hc by lia;
  destruct (repaint_output_damage_step c s0 s1 s2 d Hc) as (t & Heq & Ht);
  cbn in Heq; clear Hc.

Ltac ring_pixels :=
  repeat match goal with H : forall x y : Z, region_contains _ x y = _ |- _ => rewrite H; clear H end;
  cbn [existsb region_contains];
  repeat match goal with |- context [existsb ?f ?r] => destruct (existsb f r) end;
  try reflexivity; try discriminate; auto.

(** C1, as the code has it. On a ring of three regions the total damage
    of a repaint is the damage of the frame together with the damage of
    the three frames before it: on a new output frame 3 repaints
    D1 + D2 + D3 and frame 4 repaints D1 + D2 + D3 + D4; from any state of
    the ring, a pixel damaged at frame F is in the total of the frames F,
    F+1, F+2 and F+3, and the total of frame F+4 is the damage of the
    frames F+1 to F+4 alone. *)
Theorem damage_ring_coverage (go : damage_ring) (d1 d2 d3 d4 d5 : pixman_region32) :
  ring_ok go -> ring_coverage go d1 d2 d3 d4 d5.
Proof.
  intros [Hc Hlen]. destruct go as [c slots].
  unfold BUFFER_DAMAGE_COUNT in Hc, Hlen. cbn [current_buffer buffer_damage] in Hc, Hlen.
  destruct slots as [|s0 [|s1 [|s2 [|? ?]]]]; try discriminate Hlen.
  unfold ring_coverage.
  assert (c = 0 \/ c = 1 \/ c = 2) as [-> | [-> | ->]] by lia.
  - ring_step 0%Z s0 s1 s2 d1 t1 E1 P1.
    ring_step 1%Z s0 d1 s2 d2 t2 E2 P2.
    ring_step 2%Z s0 d1 d2 d3 t3 E3 P3.
    ring_step 0%Z d3 d1 d2 d4 t4 E4 P4.
    ring_step 1%Z d3 d4 d2 d5 t5 E5 P5.
    exists t1, t2, t3, t4, t5. eexists.
    split; [|split; [|split; [|split; [|split]]]].
    + rewrite (repaint_frames_cons _ _ _ _ _ E1), (repaint_frames_cons _ _ _ _ _ E2),
        (repaint_frames_cons _ _ _ _ _ E3), (repaint_frames_cons _ _ _ _ _ E4),
        (repaint_frames_cons _ _ _ _ _ E5). reflexivity.
    + split; [vm_compute; split; [discriminate | reflexivity] | reflexivity].
    + intros x y Hd. rewrite P1, P2, P3, P4, Hd. rewrite !orb_true_r. cbn. auto.
    + intros x y. rewrite P4. cbn [existsb].
      destruct (region_contains d1 x y), (region_contains d2 x y),
        (region_contains d3 x y), (region_contains d4 x y); reflexivity.
    + intros x y. rewrite P5. cbn [existsb].
      destruct (region_contains d2 x y), (region_contains d3 x y),
        (region_contains d4 x y), (region_contains d5 x y); reflexivity.
    + intros Hnew. injection Hnew as -> -> ->.
      repeat split; intros x y; rewrite ?P1, ?P2, ?P3; cbn [existsb];
        rewrite !region_contains_init;
        destruct (region_contains d1 x y), (region_contains d2 x y),
          (region_contains d3 x y); reflexivity.
  - ring_step 1%Z s0 s1 s2 d1 t1 E1 P1.
    ring_step 2%Z s0 s1 d1 d2 t2 E2 P2.
    ring_step 0%Z d2 s1 d1 d3 t3 E3 P3.
    ring_step 1%Z d2 d3 d1 d4 t4 E4 P4.
    ring_step 2%Z d2 d3 d4 d5 t5 E5 P5.
    exists t1, t2, t3, t4, t5. eexists.
    split; [|split; [|split; [|split; [|split]]]].
    + rewrite (repaint_frames_cons _ _ _ _ _ E1), (repaint_frames_cons _ _ _ _ _ E2),
        (repaint_frames_cons _ _ _ _ _ E3), (repaint_frames_cons _ _ _ _ _ E4),
        (repaint_frames_cons _ _ _ _ _ E5). reflexivity.
    + split; [vm_compute; split; [discriminate | reflexivity] | reflexivity].
    + intros x y Hd. rewrite P1, P2, P3, P4, Hd. rewrite !orb_true_r. cbn. auto.
    + intros x y. rewrite P4. cbn [existsb].
      destruct (region_contains d1 x y), (region_contains d2 x y),
        (region_contains d3 x y), (region_contains d4 x y); reflexivity.
    + intros x y. rewrite P5. cbn [existsb].
      destruct (region_contains d2 x y), (region_contains d3 x y),
        (region_contains d4 x y), (region_contains d5 x y); reflexivity.
    + intros Hnew. discriminate Hnew.
  - ring_step 2%Z s0 s1 s2 d1 t1 E1 P1.
    ring_step 0%Z d1 s1 s2 d2 t2 E2 P2.
    ring_step 1%Z d1 d2 s2 d3 t3 E3 P3.
    ring_step 2%Z d1 d2 d3 d4 t4 E4 P4.
    ring_step 0%Z d4 d2 d3 d5 t5 E5 P5.
    exists t1, t2, t3, t4, t5. eexists.
    split; [|split; [|split; [|split; [|split]]]].
    + rewrite (repaint_frames_cons _ _ _ _ _ E1), (repaint_frames_cons _ _ _ _ _ E2),
        (repaint_frames_cons _ _ _ _ _ E3), (repaint_frames_cons _ _ _ _ _ E4),
        (repaint_frames_cons _ _ _ _ _ E5). reflexivity.
    + split; [vm_compute; split; [discriminate | reflexivity] | reflexivity].
    + intros x y Hd. rewrite P1, P2, P3, P4, Hd. rewrite !orb_true_r. cbn. auto.
    + intros x y. rewrite P4. cbn [existsb].
      destruct (region_contains d1 x y), (region_contains d2 x y),
        (region_contains d3 x y), (region_contains d4 x y); reflexivity.
    + intros x y. rewrite P5. cbn [existsb].
      destruct (region_contains d2 x y), (region_contains d3 x y),
        (region_contains d4 x y), (region_contains d5 x y); reflexivity.
    + intros Hnew. discriminate Hnew.
Qed.
End DamageRingProperties.

Lemma damage_ring_coverage_witness :
  ring_ok output_create_ring
  /\ @ring_coverage BoxLists.pixman output_create_ring
       [mkBox 0 0 1 1] [mkBox 1 0 2 1] [mkBox 2 0 3 1] [] [].
Proof.
  assert (ring_ok output_create_ring) as Hok
    by (split; [vm_compute; split; [discriminate | reflexivity] | reflexivity]).
  split; [exact Hok|].
  exact (@damage_ring_coverage BoxLists.pixman BoxLists_union_law output_create_ring
           [mkBox 0 0 1 1] [mkBox 1 0 2 1] [mkBox 2 0 3 1] [] [] Hok).
Defined.

(** C1, as the design document has it, fails at frame 4: with the damage
    D1 = the pixel (0,0), D2 = the pixel (1,0), D3 = the pixel (2,0) on
    three frames of a new output and no damage on the fourth, the total
    damage of each of the four frames holds the pixel (0,0), which is not
    in D2 + D3. *)
Lemma damage_ring_frame4_keeps_frame1 :
  option_map (fun r => map (fun t => region_contains t 0 0) (fst r))
    (@repaint_frames BoxLists.pixman output_create_ring
       [[mkBox 0 0 1 1]; [mkBox 1 0 2 1]; [mkBox 2 0 3 1]; []])
  = Some [true; true; true; true]
  /\ region_contains
       (@pixman_region32_union BoxLists.pixman [mkBox 1 0 2 1] [mkBox 2 0 3 1]) 0 0 = false.
Proof. split; vm_compute; reflexivity. Qed.

(** ** The repaint driver *)

Lemma yields_ret {A : Type} (ok : hw_call -> bool) (post : A -> Prop) (a : A) :
  post a -> yields ok post (ret a).
Proof.
  intros Hp w a' w' [= <- <-]. split; [exact Hp|]. exists []. rewrite app_nil_r. auto.
Qed.

Lemma yields_undefined {A : Type} (ok : hw_call -> bool) (post : A -> Prop) :
  yields ok post (@undefined A).
Proof. intros w a w' [=]. Qed.

Lemma yields_bind {A B : Type} (ok : hw_call -> bool) (mid : A -> Prop) (post : B -> Prop)
    (m : M A) (k : A -> M B) :
  yields ok mid m -> (forall a, mid a -> yields ok post (k a)) -> yields ok post (bind m k).
Proof.
  intros Hm Hk w b w'. unfold bind.
  destruct (m w) as [[a w1]|] eqn:Em; [|discriminate].
  intros Ek. destruct (Hm _ _ _ Em) as (Ha & l1 & E1 & F1).
  destruct (Hk a Ha _ _ _ Ek) as (Hb & l2 & E2 & F2).
  split; [exact Hb|].
  exists (l1 ++ l2). rewrite E2, E1, <- app_assoc. split; [reflexivity|].
  rewrite forallb_app, F1, F2. reflexivity.
Qed.

Lemma yields_weaken {A : Type} (ok : hw_call -> bool) (post post' : A -> Prop) (m : M A) :
  yields ok post m -> (forall a, post a -> post' a) -> yields ok post' m.
Proof.
  intros Hm Hpp w a w' E. destruct (Hm _ _ _ E) as [Hp Hc]. auto.
Qed.

Lemma yields_emit (ok : hw_call -> bool) (c : hw_call) :
  ok c = true -> yields ok (fun _ => True) (emit c).
Proof.
  intros Hc w a w' [= <- <-]. split; [exact I|]. exists [c]. cbn. rewrite Hc. auto.
Qed.

Lemma yields_set_errno (ok : hw_call -> bool) (e : Z) : yields ok (fun _ => True) (set_errno e).
Proof. intros w a w' [= <- <-]. split; [exact I|]. exists []. cbn. rewrite app_nil_r. auto. Qed.

Lemma yields_get_errno (ok : hw_call -> bool) : yields ok (fun _ => True) get_errno.
Proof. intros w a w' [= <- <-]. split; [exact I|]. exists []. cbn. rewrite app_nil_r. auto. Qed.

Lemma yields_calls {A : Type} (ok ok' : hw_call -> bool) (post : A -> Prop) (m : M A) :
  (forall c, ok c = true -> ok' c = true) -> yields ok post m -> yields ok' post m.
Proof.
  intros Hok Hm w a w' E. destruct (Hm _ _ _ E) as (Hp & added & Ec & Fc).
  split; [exact Hp|]. exists added. split; [exact Ec|].
  rewrite List.forallb_forall in *. auto.
Qed.

Lemma yields_for_each {A : Type} (ok : hw_call -> bool) (l : list A) (body : A -> M unit) :
  (forall x, yields ok (fun _ => True) (body x)) ->
  yields ok (fun _ => True) (for_each l body).
Proof.
  intros Hbody. induction l as [|x l IH]; cbn [for_each]; [apply yields_ret; exact I|].
  eapply yields_bind; [apply Hbody|]. intros _ _. exact IH.
Qed.

(** A call of the creation of a surface state is no call of
    [ensure_surface_buffer_is_ready], switches nothing and draws nothing. *)
Lemma creation_call_only (c : hw_call) :
  is_creation_call c = true ->
  is_readiness_call c = false /\ is_switch_call c = false /\ is_draw_call c = false.
Proof.
  destruct c; cbn; try discriminate; try (intros _; repeat split; reflexivity).
  intros Hmsg. repeat split.
  apply orb_true_iff in Hmsg as [Hmsg | Hmsg];
    [apply orb_true_iff in Hmsg as [Hmsg | Hmsg]|];
    apply String.eqb_eq in Hmsg; subst msg; reflexivity.
Qed.

Section DriverProperties.
Context `{Geometry} `{Pixman} `{Platform}.
Variable env : environment.
Variable G2D_TILED_STATUS : Z.

Lemma g2d_renderer_copy_shm_buffer_creation gs buffer :
  yields is_creation_call (fun _ => True) (g2d_renderer_copy_shm_buffer gs buffer).
Proof.
  unfold g2d_renderer_copy_shm_buffer.
  destruct (buffer_shm buffer) as [shm|]; [|apply yields_undefined].
  destruct (gs_shm_buf gs) as [shm_buf|]; [|apply yields_undefined].
  cbv zeta.
  destruct (copy_plan _ _ _) as [plan|]; [|apply yields_emit; reflexivity].
  eapply yields_bind; [apply yields_emit; reflexivity|]. intros _ _.
  eapply yields_bind with (mid := fun _ => True); [|intros _ _; apply yields_emit; reflexivity].
  destruct (_ && _).
  - apply yields_for_each. intros i. apply yields_emit. reflexivity.
  - eapply yields_bind;
      [apply yields_for_each; intros i; apply yields_emit; reflexivity|].
    intros _ _. apply yields_for_each. intros i. apply yields_for_each. intros j.
    apply yields_emit. reflexivity.
Qed.

Lemma g2d_renderer_flush_damage_creation gs surface buffer :
  yields is_creation_call (fun _ => True) (g2d_renderer_flush_damage gs surface buffer).
Proof.
  unfold g2d_renderer_flush_damage. cbv zeta.
  destruct buffer as [buffer|]; [|apply yields_ret; exact I].
  destruct (negb (existsb _ _)); [apply yields_ret; exact I|].
  eapply yields_bind with (mid := fun _ => True).
  - destruct (negb _); [apply yields_ret; exact I|].
    destruct (buffer_shm buffer); [apply g2d_renderer_copy_shm_buffer_creation|].
    apply yields_ret; exact I.
  - intros _ _.
    eapply yields_bind; [apply yields_emit; reflexivity|]. intros _ _.
    eapply yields_bind; [apply yields_emit; reflexivity|]. intros _ _.
    apply yields_ret. exact I.
Qed.

Lemma g2d_renderer_attach_shm_creation gs buffer :
  yields is_creation_call (fun _ => True) (g2d_renderer_attach_shm env gs buffer).
Proof.
  unfold g2d_renderer_attach_shm.
  destruct (buffer_shm buffer) as [shm_buffer|]; [|apply yields_undefined].
  cbv zeta.
  destruct (shm_layout _ _ _) as [[[[g2dFormat bpp] height] buffer_length]|].
  - eapply yields_bind with (mid := fun _ => True); [|intros gs' _; apply yields_ret; exact I].
    match goal with |- context [if ?b then _ else ret _] => destruct b end;
      [|apply yields_ret; exact I].
    eapply yields_bind with (mid := fun _ => True).
    { match goal with |- context [gs_shm_buf ?g] => destruct (gs_shm_buf g) end;
        [apply yields_emit; reflexivity|apply yields_ret; exact I]. }
    intros _ _.
    eapply yields_bind with (mid := fun _ => True).
    { intros w a w' [= <- <-]. split; [exact I|]. eexists [_]. cbn [calls]. split; reflexivity. }
    intros [buf|] _; [apply yields_ret; exact I|apply yields_undefined].
  - eapply yields_bind; [apply yields_emit; reflexivity|]. intros _ _.
    apply yields_ret. exact I.
Qed.

Lemma g2d_renderer_get_g2dformat_from_dmabuf_creation dmaformat bpp :
  yields is_creation_call (fun _ => True) (g2d_renderer_get_g2dformat_from_dmabuf dmaformat bpp).
Proof.
  unfold g2d_renderer_get_g2dformat_from_dmabuf.
  repeat (match goal with |- context [if ?b then ret _ else _] => destruct b end;
          [apply yields_ret; exact I|]).
  eapply yields_bind; [apply yields_emit; reflexivity|]. intros _ _.
  apply yields_ret. exact I.
Qed.

Lemma g2d_renderer_attach_dmabuf_creation gs buffer :
  yields is_creation_call (fun _ => True) (g2d_renderer_attach_dmabuf gs buffer).
Proof.
  unfold g2d_renderer_attach_dmabuf.
  destruct (buffer_dmabuf buffer) as [dmabuf|]; [|apply yields_undefined].
  cbv zeta.
  eapply yields_bind; [apply g2d_renderer_get_g2dformat_from_dmabuf_creation|].
  intros found _.
  destruct (fst found) as [g2dFormat|].
  - match goal with |- context [fold_left ?f ?l ?a] => destruct (fold_left f l a) end;
      [|apply yields_undefined].
    match goal with |- context [let '(_, _) := ?p in _] => destruct p end.
    apply yields_ret. exact I.
  - destruct g2d_format_signed; [apply yields_ret; exact I|apply yields_undefined].
Qed.

Lemma g2d_renderer_attach_creation gs buffer :
  yields is_creation_call (fun _ => True) (g2d_renderer_attach env gs buffer).
Proof.
  unfold g2d_renderer_attach. cbv zeta.
  destruct buffer as [buffer|]; [|apply yields_ret; exact I].
  eapply yields_bind with (mid := fun _ => True).
  - destruct (buffer_type (buffer_base buffer)).
    + apply g2d_renderer_attach_shm_creation.
    + apply g2d_renderer_attach_dmabuf_creation.
    + apply yields_ret. exact I.
    + destruct (g2d_renderer_attach_solid _ _); [apply yields_ret; exact I|apply yields_undefined].
  - intros r _.
    eapply yields_bind; [apply yields_emit; reflexivity|]. intros _ _.
    eapply yields_bind; [apply yields_emit; reflexivity|]. intros _ _.
    apply yields_ret. exact I.
Qed.

Lemma g2d_renderer_create_surface_creation surface :
  yields is_creation_call (fun _ => True) (g2d_renderer_create_surface env surface).
Proof.
  unfold g2d_renderer_create_surface. cbv zeta.
  eapply yields_bind with (mid := fun _ => True).
  { intros w a w' [= <- <-]. split; [exact I|]. eexists [_]. cbn [calls]. split; reflexivity. }
  intros allocated _.
  destruct (negb allocated); [apply yields_ret; exact I|].
  eapply yields_bind; [apply yields_emit; reflexivity|]. intros _ _.
  eapply yields_bind; [apply yields_emit; reflexivity|]. intros _ _.
  destruct (surface_buffer_ref surface) as [buffer|]; [|apply yields_ret; exact I].
  eapply yields_bind; [apply g2d_renderer_attach_creation|]. intros attached _.
  destruct (buffer_type (buffer_base buffer)); try (apply yields_ret; exact I).
  eapply yields_bind; [apply g2d_renderer_flush_damage_creation|]. intros gs _.
  apply yields_ret. exact I.
Qed.

(** [get_surface_state] makes calls only when there is no surface state,
    and then only calls of its creation. *)
Lemma get_surface_state_creation surface state :
  yields is_creation_call (fun _ => True) (get_surface_state env surface state).
Proof.
  unfold get_surface_state. destruct state as [gs|]; [apply yields_ret; exact I|].
  eapply yields_bind; [apply g2d_renderer_create_surface_creation|]. intros created _.
  apply yields_ret. exact I.
Qed.

(** [repaint_region] returns at once for a view whose opacity is below
    one: no call, the frame buffer surface as it was. *)
Lemma repaint_region_translucent ev output gs drm_hw_buffer region surf_region w :
  translucent ev = true ->
  repaint_region env ev output gs drm_hw_buffer region surf_region w = Some (drm_hw_buffer, w).
Proof.
  unfold translucent, repaint_region. intros ->. reflexivity.
Qed.

(** C10. [repaint_region] makes no call (no clear, no blit, no scissor)
    and leaves the frame buffer surface, the calls made so far and [errno]
    as they were when the surface state has no attached buffer, when the
    bounding box of the view has no rectangle, or when the surface is not a
    solid colour and its hardware surface has a width or a height of zero
    or less. *)
Theorem repaint_region_guards ev output gs drm_hw_buffer region surf_region w :
  attached gs = 0
  \/ pixman_region32_rectangles (transform_boundingbox ev) = []
  \/ (solid_clear gs = false
      /\ (base_width (base (g2d_surface_of gs)) <= 0
          \/ base_height (base (g2d_surface_of gs)) <= 0)) ->
  repaint_region env ev output gs drm_hw_buffer region surf_region w = Some (drm_hw_buffer, w).
Proof.
  intros Hguard. unfold repaint_region.
  destruct (F64.ltb (F64.of_float (alpha ev)) F64.one); [reflexivity|].
  destruct (negb (solid_clear gs)
            && ((base_width (base (g2d_surface_of gs)) <=? 0)
                || (base_height (base (g2d_surface_of gs)) <=? 0))) eqn:Hsize; [reflexivity|].
  destruct Hguard as [Hatt | [Hbb | [Hsolid Hdim]]].
  - rewrite Hatt. reflexivity.
  - rewrite Hbb. cbn. rewrite orb_true_r. reflexivity.
  - exfalso. rewrite Hsolid in Hsize. cbn in Hsize.
    apply orb_false_elim in Hsize. lia.
Qed.

(** C8. When the repaint region of a view, its bounding box intersected
    with the damage and without its clip region, is empty, [draw_view]
    does none of the work that makes the buffer ready and draws nothing.
    All that it does is the first access to the surface state, which
    comes before the test: its result is that of [get_surface_state] and
    the frame buffer surface as it was. For a surface that has its state
    that is nothing: the state is as it was, no call is made and [errno] is
    kept. For a surface that has none yet the state is created there; the
    calls of that creation are the only ones made, and none of them is a
    call of [ensure_surface_buffer_is_ready] (no refresh of a buffer of
    EGL, no wait for the fence, none of its log lines), none switches
    blending or the global alpha, none sets a scissor, clears or blits.
    The state created for a buffer of EGL, the buffer whose descriptor
    [ensure_surface_buffer_is_ready] refreshes, has the descriptor of a
    zeroed structure. *)
Theorem draw_view_nothing_to_repaint fuel gr ev output state drm_hw_buffer damage w :
  pixman_region32_not_empty
    (pixman_region32_subtract
       (pixman_region32_intersect (transform_boundingbox ev) damage) (clip ev)) = false ->
  draw_view env G2D_TILED_STATUS fuel gr ev output state drm_hw_buffer damage w
  = (state <- get_surface_state env (surface ev) state ;; ret (state, drm_hw_buffer))%M w
  /\ (forall gs, state = Some gs ->
        draw_view env G2D_TILED_STATUS fuel gr ev output state drm_hw_buffer damage w
        = Some ((Some gs, drm_hw_buffer), w))
  /\ forall r w',
       draw_view env G2D_TILED_STATUS fuel gr ev output state drm_hw_buffer damage w
       = Some (r, w') ->
       snd r = drm_hw_buffer
       /\ exists added,
            calls w' = calls w ++ added
            /\ Forall (fun c => is_creation_call c = true
                                /\ is_readiness_call c = false
                                /\ is_switch_call c = false
                                /\ is_draw_call c = false) added
            /\ forall buffer gs,
                 state = None ->
                 surface_buffer_ref (surface ev) = Some buffer ->
                 buffer_type (buffer_base buffer) = WESTON_BUFFER_RENDERER_OPAQUE ->
                 fst r = Some gs ->
                 g2d_surface_of (gs_state gs) = zeroed_g2d_surface
                 /\ added = [zalloc; wl_signal_add surface_destroy_listener;
                             wl_signal_add renderer_destroy_listener;
                             weston_buffer_reference true BUFFER_MAY_BE_ACCESSED;
                             weston_buffer_release_reference true].
Proof.
  intros Hempty.
  assert (draw_view env G2D_TILED_STATUS fuel gr ev output state drm_hw_buffer damage w
          = (state <- get_surface_state env (surface ev) state ;; ret (state, drm_hw_buffer))%M w)
    as Hrun.
  { unfold draw_view, bind.
    destruct (get_surface_state env (surface ev) state w) as [[state' w1]|]; [|reflexivity].
    cbv zeta. rewrite Hempty. reflexivity. }
  split; [exact Hrun|]. split.
  - intros gs ->. rewrite Hrun. reflexivity.
  - intros r w'. rewrite Hrun. intros E.
    assert (yields is_creation_call (fun r => snd r = drm_hw_buffer)
              (state <- get_surface_state env (surface ev) state ;; ret (state, drm_hw_buffer))%M)
      as Hy.
    { eapply yields_bind; [apply get_surface_state_creation|]. intros state' _.
      apply yields_ret. reflexivity. }
    destruct (Hy _ _ _ E) as (Hr & added & Ec & Fc).
    split; [exact Hr|]. exists added. split; [exact Ec|]. split.
    + apply List.Forall_forall. intros c Hc.
      rewrite List.forallb_forall in Fc. specialize (Fc c Hc).
      split; [exact Fc|]. apply creation_call_only, Fc.
    + intros buffer gs -> Hbuffer Htype Hgs. revert E.
      unfold get_surface_state, g2d_renderer_create_surface, g2d_renderer_attach, bind, ret,
        emit. cbn [calls errno]. rewrite Hbuffer, Htype.
      destruct (zalloc_result env (calls w ++ [zalloc])); cbn [negb fst snd calls errno];
        intros [= <- <-]; cbn [fst snd calls] in *; [|discriminate].
      injection Hgs as <-. split; [reflexivity|].
      rewrite <- !app_assoc in Ec. apply app_inv_head in Ec. symmetry. exact Ec.
Qed.

Lemma sync_wait_loop_quiet fuel fd timeout :
  yields not_drawing (fun _ => True) (sync_wait_loop env fuel fd timeout).
Proof.
  induction fuel as [|fuel IH]; [apply yields_undefined|].
  intros w a w'. cbn [sync_wait_loop].
  destruct (poll_result env (calls w ++ [poll fd timeout])) as [[r revents] e].
  assert (forall x v, Some (x, mkWorld (calls w ++ [poll fd timeout]) v) = Some (a, w') ->
          True /\ exists added, calls w' = calls w ++ added /\ forallb not_drawing added = true)
    as Hdone.
  { intros x v [= <- <-]. split; [exact I|]. exists [poll fd timeout]. auto. }
  destruct (r >? 0).
  - destruct (negb _); apply Hdone.
  - destruct (r =? 0); [apply Hdone|].
    destruct ((r =? -1) && _); [|apply Hdone].
    intros E. destruct (IH _ _ _ E) as (_ & added & Ec & Fc).
    split; [exact I|]. exists (poll fd timeout :: added).
    rewrite Ec. cbn [calls]. rewrite <- app_assoc. cbn. auto.
Qed.

Lemma sync_wait_quiet fuel fd timeout :
  yields not_drawing (fun _ => True) (sync_wait env fuel fd timeout).
Proof.
  unfold sync_wait. destruct (fd <? 0); [|apply sync_wait_loop_quiet].
  eapply yields_bind; [apply yields_set_errno|]. intros _ _. apply yields_ret. exact I.
Qed.

Lemma get_g2dSurface_quiet buffer g2dSurface :
  yields not_drawing (fun _ => True) (get_g2dSurface G2D_TILED_STATUS buffer g2dSurface).
Proof.
  unfold get_g2dSurface. destruct (_ || _).
  - eapply yields_bind; [apply yields_emit; reflexivity|].
    intros _ _. apply yields_ret. exact I.
  - destruct (viv_physical buffer) as [[p0 p1] p2].
    destruct (_ && _); apply yields_ret; exact I.
Qed.

Lemma ensure_surface_buffer_is_ready_quiet fuel gr surface gs :
  yields not_drawing (fun _ => True)
    (ensure_surface_buffer_is_ready env G2D_TILED_STATUS fuel gr surface gs).
Proof.
  assert (forall gs', yields not_drawing (fun _ : Z * g2d_surface_state => True)
            (if acquire_fence_fd surface <? 0 then ret (0, gs')
             else
               (r <- sync_wait env fuel (acquire_fence_fd surface) 2000 ;;
                e <- get_errno ;;
                if (r <? 0) && (e =? ETIME) then
                  emit (weston_log "ensure_surface_buffer_is_ready: Warning: wait for fence fd") ;;;
                  r <- sync_wait env fuel (acquire_fence_fd surface) (-1) ;;
                  ret (r, gs')
                else ret (r, gs'))%M)) as Hwait.
  { intros gs'. destruct (acquire_fence_fd surface <? 0); [apply yields_ret; exact I|].
    eapply yields_bind; [apply sync_wait_quiet|]. intros r _.
    eapply yields_bind; [apply yields_get_errno|]. intros e _.
    destruct (_ && _); [|apply yields_ret; exact I].
    eapply yields_bind; [apply yields_emit; reflexivity|]. intros _ _.
    eapply yields_bind; [apply sync_wait_quiet|]. intros r' _.
    apply yields_ret. exact I. }
  unfold ensure_surface_buffer_is_ready.
  destruct (buffer_ref_buffer gs) as [buffer|]; [|apply yields_ret; exact I].
  destruct (buffer_type buffer); try apply Hwait.
  destruct (negb (buffer_resource buffer)); [apply yields_ret; exact I|].
  eapply yields_bind with (mid := fun _ => True).
  - destruct (has_update_buffer gr); [|apply yields_ret; exact I].
    intros w a w' [= <- <-]. split; [exact I|]. exists [update_buffer]. auto.
  - intros viv _. eapply yields_bind; [apply get_g2dSurface_quiet|]. intros got _.
    destruct (fst got <? 0); [apply yields_ret; exact I|apply Hwait].
Qed.

Lemma store_global_alpha_quiet ev gs :
  yields not_drawing (fun _ => True) (store_global_alpha ev gs).
Proof.
  unfold store_global_alpha.
  destruct (F32.to_int _); [apply yields_ret; exact I|apply yields_undefined].
Qed.

(** On a view whose opacity is below one, [draw_view] draws nothing:
    whatever it calls is no scissor, no clear and no blit, and the frame
    buffer surface is as it was. *)
Lemma draw_view_translucent fuel gr ev output state drm_hw_buffer damage :
  translucent ev = true ->
  yields not_drawing (fun r => snd r = drm_hw_buffer)
    (draw_view env G2D_TILED_STATUS fuel gr ev output state drm_hw_buffer damage).
Proof.
  intros Htr. unfold draw_view.
  eapply yields_bind with (mid := fun _ => True).
  { eapply yields_calls; [|apply get_surface_state_creation].
    intros c Hc. unfold not_drawing. apply creation_call_only in Hc as (_ & _ & ->).
    reflexivity. }
  intros state' _. cbv zeta.
  destruct (negb (pixman_region32_not_empty _)); [apply yields_ret; reflexivity|].
  destruct state' as [whole|]; [|apply yields_undefined].
  eapply yields_bind with (mid := fun r => snd r = drm_hw_buffer);
    [|intros drawn Hdrawn; apply yields_ret; exact Hdrawn].
  eapply yields_bind; [apply ensure_surface_buffer_is_ready_quiet|]. intros ready _.
  destruct (fst ready <? 0); [apply yields_ret; reflexivity|].
  fold (translucent ev). rewrite Htr.
  eapply yields_bind with (mid := fun r => snd r = drm_hw_buffer).
  - destruct (pixman_region32_not_empty _); [|apply yields_ret; reflexivity].
    eapply yields_bind with (mid := fun _ => True).
    { eapply yields_bind; [apply yields_emit; reflexivity|]. intros _ _.
      eapply yields_bind; [apply yields_emit; reflexivity|]. intros _ _.
      apply store_global_alpha_quiet. }
    intros gs' _.
    eapply yields_bind with (mid := fun dst => dst = drm_hw_buffer).
    { intros w a w' E. rewrite repaint_region_translucent in E by exact Htr.
      injection E as <- <-. split; [reflexivity|]. exists []. rewrite app_nil_r. auto. }
    intros dst ->.
    eapply yields_bind; [apply yields_emit; reflexivity|]. intros _ _.
    eapply yields_bind; [apply yields_emit; reflexivity|]. intros _ _.
    apply yields_ret. reflexivity.
  - intros after Hafter. rewrite Hafter.
    destruct (pixman_region32_not_empty _); [|apply yields_ret; reflexivity].
    eapply yields_bind; [apply yields_emit; reflexivity|]. intros _ _.
    eapply yields_bind with (mid := fun _ => True).
    { eapply yields_bind; [apply yields_emit; reflexivity|]. intros _ _.
      apply store_global_alpha_quiet. }
    intros gs' _.
    eapply yields_bind with (mid := fun dst => dst = drm_hw_buffer).
    { intros w a w' E. rewrite repaint_region_translucent in E by exact Htr.
      injection E as <- <-. split; [reflexivity|]. exists []. rewrite app_nil_r. auto. }
    intros dst ->.
    eapply yields_bind; [apply yields_emit; reflexivity|]. intros _ _.
    eapply yields_bind; [apply yields_emit; reflexivity|]. intros _ _.
    apply yields_ret. reflexivity.
Qed.

(** C3, as the code has it. A view whose opacity is below one is not
    drawn, whether its transformation is enabled or not: [repaint_region]
    returns at once, without a call and without a change, and all of
    [draw_view], which switches blending and the global alpha on and off
    around it, sets no scissor, clears nothing and blits nothing. *)
Theorem translucent_view_is_skipped fuel gr ev output gs state drm_hw_buffer damage
    region surf_region w :
  translucent ev = true ->
  repaint_region env ev output gs drm_hw_buffer region surf_region w = Some (drm_hw_buffer, w)
  /\ forall r w',
       draw_view env G2D_TILED_STATUS fuel gr ev output state drm_hw_buffer damage w
       = Some (r, w') ->
       snd r = drm_hw_buffer
       /\ exists added,
            calls w' = calls w ++ added /\ List.filter (fun c => is_draw_call c) added = [].
Proof.
  intros Htr. split; [apply repaint_region_translucent; exact Htr|].
  intros r w' E.
  destruct (draw_view_translucent fuel gr ev output state drm_hw_buffer damage Htr _ _ _ E)
    as (Hr & added & Ec & Fc).
  split; [exact Hr|]. exists added. split; [exact Ec|].
  clear Ec. induction added as [|c added IH]; [reflexivity|].
  cbn in Fc. apply andb_true_iff in Fc as [Hc Fc]. cbn [List.filter].
  unfold not_drawing in Hc. apply negb_true_iff in Hc. rewrite Hc. apply IH, Fc.
Qed.

(** A pair of rectangles whose polygon has fewer than three vertices is
    passed over: no call, and the loops go on. *)
Lemma repaint_pair_few_vertices ev output gs srcRect dstrect rect surf_rect st w :
  (length (calculate_edges ev rect surf_rect) < 3)%nat ->
  repaint_pair env ev output gs srcRect dstrect rect surf_rect st w = Some ((false, st), w).
Proof.
  intros Hn. unfold repaint_pair.
  destruct (calculate_edges ev rect surf_rect) as [|e0 es]; [reflexivity|].
  replace (Z.of_nat (length (e0 :: es)) <? 3) with true by (symmetry; apply Z.ltb_lt; lia).
  reflexivity.
Qed.

(** A pair of rectangles whose clip rectangle is empty or inverted makes
    [repaint_region] return: no call, and the loops stop. *)
Lemma repaint_pair_degenerate_clip ev output gs srcRect dstrect rect surf_rect st w e0 es :
  calculate_edges ev rect surf_rect = e0 :: es ->
  (3 <= length (e0 :: es))%nat ->
  left (clip_rect_of output (loop_dst st) e0 es) >= right (clip_rect_of output (loop_dst st) e0 es)
  \/ top (clip_rect_of output (loop_dst st) e0 es) >= bottom (clip_rect_of output (loop_dst st) e0 es) ->
  repaint_pair env ev output gs srcRect dstrect rect surf_rect st w = Some ((true, st), w).
Proof.
  intros He Hn Hdeg. unfold repaint_pair. rewrite He.
  replace (Z.of_nat (length (e0 :: es)) <? 3) with false by (symmetry; apply Z.ltb_ge; lia).
  replace ((left (clip_rect_of output (loop_dst st) e0 es)
            >=? right (clip_rect_of output (loop_dst st) e0 es))
           || (top (clip_rect_of output (loop_dst st) e0 es)
               >=? bottom (clip_rect_of output (loop_dst st) e0 es))) with true; [reflexivity|].
  symmetry. apply orb_true_iff. destruct Hdeg; [left | right]; lia.
Qed.

(** Once a pair has made [repaint_region] return, no later pair of the
    two loops is looked at, whatever it is. *)
Lemma repaint_rects_stop_at_return ev output gs srcRect dstrect rect rects surf_rect surf_rects
    st w :
  repaint_pair env ev output gs srcRect dstrect rect surf_rect st w = Some ((true, st), w) ->
  repaint_rects env ev output gs srcRect dstrect (rect :: rects) (surf_rect :: surf_rects) st w
  = Some ((true, st), w).
Proof.
  intros Hpair. cbn [repaint_rects repaint_surf_rects]. unfold bind. rewrite Hpair. reflexivity.
Qed.
End DriverProperties.

(** The witnesses of the guards run the renderer on the scene. *)
Lemma repaint_region_guards_witness :
  @repaint_region Scene.geometry Scene.willing (Scene.plain_view F32.one) Scene.output0
    (mkGs false 0 None 0 (Scene.blank 100 100 G2D_BGRA8888)) Scene.frame_buffer
    Scene.full_damage [mkBox 0 0 100 100] Scene.start
  = Some (Scene.frame_buffer, Scene.start).
Proof.
  apply (@repaint_region_guards Scene.geometry Scene.willing). left. reflexivity.
Defined.

Lemma draw_view_nothing_to_repaint_witness :
  @draw_view Scene.geometry BoxLists.pixman Scene.platform Scene.willing 0x20 8
    (mkRenderer false) Scene.egl_view Scene.output0 None Scene.frame_buffer
    [mkBox 200 200 300 300] Scene.start
  = (state <- @get_surface_state BoxLists.pixman Scene.platform Scene.willing
                (surface Scene.egl_view) None ;;
     ret (state, Scene.frame_buffer))%M Scene.start
  /\ (forall gs, None = Some gs ->
        @draw_view Scene.geometry BoxLists.pixman Scene.platform Scene.willing 0x20 8
          (mkRenderer false) Scene.egl_view Scene.output0 None Scene.frame_buffer
          [mkBox 200 200 300 300] Scene.start
        = Some ((Some gs, Scene.frame_buffer), Scene.start))
  /\ forall r w',
       @draw_view Scene.geometry BoxLists.pixman Scene.platform Scene.willing 0x20 8
         (mkRenderer false) Scene.egl_view Scene.output0 None Scene.frame_buffer
         [mkBox 200 200 300 300] Scene.start
       = Some (r, w') ->
       snd r = Scene.frame_buffer
       /\ exists added,
            calls w' = calls Scene.start ++ added
            /\ Forall (fun c => is_creation_call c = true
                                /\ is_readiness_call c = false
                                /\ is_switch_call c = false
                                /\ is_draw_call c = false) added
            /\ forall buffer gs,
                 @None renderer_state = None ->
                 surface_buffer_ref (surface Scene.egl_view) = Some buffer ->
                 buffer_type (buffer_base buffer) = WESTON_BUFFER_RENDERER_OPAQUE ->
                 fst r = Some gs ->
                 g2d_surface_of (gs_state gs) = @zeroed_g2d_surface Scene.platform
                 /\ added = [zalloc; wl_signal_add surface_destroy_listener;
                             wl_signal_add renderer_destroy_listener;
                             weston_buffer_reference true BUFFER_MAY_BE_ACCESSED;
                             weston_buffer_release_reference true].
Proof.
  apply (@draw_view_nothing_to_repaint Scene.geometry BoxLists.pixman Scene.platform
           Scene.willing 0x20).
  vm_compute. reflexivity.
Defined.

Lemma translucent_view_is_skipped_witness :
  @repaint_region Scene.geometry Scene.willing (Scene.plain_view Scene.half) Scene.output0
    Scene.attached_state Scene.frame_buffer Scene.full_damage [mkBox 0 0 100 100] Scene.start
  = Some (Scene.frame_buffer, Scene.start)
  /\ forall r w',
       @draw_view Scene.geometry BoxLists.pixman Scene.platform Scene.willing 0x20 8
         (mkRenderer false) (Scene.plain_view Scene.half) Scene.output0
         (Some Scene.attached_renderer_state) Scene.frame_buffer
         Scene.full_damage Scene.start = Some (r, w') ->
       snd r = Scene.frame_buffer
       /\ exists added,
            calls w' = calls Scene.start ++ added
            /\ List.filter (fun c => is_draw_call c) added = [].
Proof.
  apply (@translucent_view_is_skipped Scene.geometry BoxLists.pixman Scene.platform
           Scene.willing 0x20).
  vm_compute. reflexivity.
Defined.

(** C3, as the design document has it, fails on its second half: the
    view of the scene with opacity 0.5 and its transformation disabled
    gets blending and the global alpha switched on and off and not one
    draw call, where the same view with opacity 1 is drawn with a scissor
    and a blit. *)
Lemma translucent_plain_view_not_drawn :
  transform_enabled (Scene.plain_view Scene.half) = false
  /\ option_map (fun r => calls (snd r))
       (@draw_view Scene.geometry BoxLists.pixman Scene.platform Scene.willing 0x20 8
          (mkRenderer false) (Scene.plain_view Scene.half) Scene.output0
          (Some Scene.attached_renderer_state) Scene.frame_buffer
          Scene.full_damage Scene.start)
     = Some [g2d_enable G2D_BLEND; g2d_enable G2D_GLOBAL_ALPHA;
             g2d_disable G2D_GLOBAL_ALPHA; g2d_disable G2D_BLEND]
  /\ option_map (fun r => map is_draw_call (calls (snd r)))
       (@draw_view Scene.geometry BoxLists.pixman Scene.platform Scene.willing 0x20 8
          (mkRenderer false) (Scene.plain_view F32.one) Scene.output0
          (Some Scene.attached_renderer_state) Scene.frame_buffer
          Scene.full_damage Scene.start)
     = Some [true; true; false; false].
Proof. repeat split; vm_compute; reflexivity. Qed.

(** C5 at its failing input. The view of the scene enlarged by 1.25
    along x has the surface rectangles (0,0,50,50) and (0,50,100,100).
    Against the damage rectangle (63,0,125,100) the first pair has no
    vertex, it is passed over and the second pair is drawn. Against the
    damage rectangle (62,0,125,100) the first pair has four vertices and
    the clip rectangle (62,0,62,50), which is empty: [repaint_region]
    returns there and the second pair, which the scissor (62,50,125,100)
    would draw, gets no call. *)
Theorem repaint_region_degenerate_pair_stops_all :
  option_map (fun r => map is_draw_call (calls (snd r)))
    (@repaint_region Scene.geometry Scene.willing Scene.scaled_view Scene.output0
       Scene.attached_state Scene.frame_buffer
       [mkBox 63 0 125 100] [mkBox 0 0 50 50; mkBox 0 50 100 100] Scene.start)
  = Some [true; true]
  /\ option_map (fun r => calls (snd r))
       (@repaint_region Scene.geometry Scene.willing Scene.scaled_view Scene.output0
          Scene.attached_state Scene.frame_buffer
          [mkBox 62 0 125 100] [mkBox 0 0 50 50; mkBox 0 50 100 100] Scene.start)
     = Some []
  /\ option_map (fun r => hd_error (calls (snd r)))
       (@repaint_region Scene.geometry Scene.willing Scene.scaled_view Scene.output0
          Scene.attached_state Scene.frame_buffer
          [mkBox 62 0 125 100] [mkBox 0 50 100 100] Scene.start)
     = Some (Some (g2d_set_clipping 62 50 125 100)).
Proof. repeat split; vm_compute; reflexivity. Qed.

(** ** The read-back path *)

Lemma read_pixels_bytes_exact (bpp : pixman_format_code -> Z) (format : pixman_format_code)
    (width height bytes_per_pixel : Z) :
  0 <= width -> 0 <= height -> 0 <= bytes_per_pixel ->
  bpp format = 8 * bytes_per_pixel ->
  width * height * bpp format < 2 ^ 32 ->
  read_pixels_bytes bpp format width height = width * height * bytes_per_pixel.
Proof.
  intros Hw Hh Hb Hbpp Hfit. unfold read_pixels_bytes, uint32.
  assert (0 <= width * height) by nia.
  destruct (Z.eq_dec bytes_per_pixel 0) as [-> | Hnz].
  - rewrite Hbpp. replace (8 * 0) with 0 by lia. rewrite !Z.mul_0_r. reflexivity.
  - assert (width * height < 2 ^ 32) by nia.
    rewrite (Z.mod_small (width * height)) by lia.
    rewrite Z.mod_small by nia.
    rewrite Hbpp. replace (width * height * (8 * bytes_per_pixel))
      with (width * height * bytes_per_pixel * 8) by lia.
    apply Z.div_mul. lia.
Qed.

(** What [g2d_blit_surface] does: it sets the rectangles and the blend
    functions, switches blending off for a source without alpha, blits,
    and logs the two surfaces when the blit fails. *)
Lemma g2d_blit_surface_run (env : environment) (src0 dst0 : g2d_surfaceEx)
    (srcRect dstRect : g2dRECT) (w : world) :
  g2d_blit_surface env src0 dst0 srcRect dstRect w
  = let src := with_base (set_blendfunc G2D_ONE) (g2d_SetSurfaceRect src0 srcRect) in
    let dst := with_base (set_blendfunc G2D_ONE_MINUS_SRC_ALPHA) (g2d_SetSurfaceRect dst0 dstRect) in
    let before := if _hasAlpha (base_format (base src)) then [] else [g2d_disable G2D_BLEND] in
    let upto_blit := calls w ++ before ++ [g2d_blitEx src dst] in
    if g2d_status env upto_blit =? 0 then Some ((0, src, dst), mkWorld upto_blit (errno w))
    else Some ((-1, src, dst),
               mkWorld (upto_blit ++ [printG2dSurfaceInfo src "SRC:"; printG2dSurfaceInfo dst "DST:"])
                 (errno w)).
Proof.
  unfold g2d_blit_surface. cbv zeta.
  destruct (_hasAlpha _); unfold bind, ret, emit, g2d; cbn [calls errno app];
    rewrite <- ?app_assoc; cbn [app];
    match goal with
    | |- context [g2d_status env ?cs =? 0] => destruct (g2d_status env cs =? 0)
    end; cbn [calls errno]; rewrite <- ?app_assoc; reflexivity.
Qed.




(** * Further properties *)

(** ** Rotations and rectangles *)

(** For the eight transforms of a view and the four rotations of an
    output, [convert_transform_to_rot] gives the rotation by the
    difference of the two in quarter turns when the view is not flipped,
    and no rotation when it is. *)
Theorem convert_transform_to_rot_quarter_turns (view_transform output_transform : Z) :
  0 <= view_transform <= 7 -> 0 <= output_transform <= 3 ->
  convert_transform_to_rot view_transform output_transform
  = if view_transform <=? 3 then quarter_turns (output_transform - view_transform)
    else G2D_ROTATION_0.
Proof.
  intros Hv Ho.
  assert (In view_transform [0; 1; 2; 3; 4; 5; 6; 7]) as Hvi by (cbn; lia).
  assert (In output_transform [0; 1; 2; 3]) as Hoi by (cbn; lia).
  cbn in Hvi, Hoi.
  repeat destruct Hvi as [<- | Hvi]; try contradiction;
    repeat destruct Hoi as [<- | Hoi]; try contradiction; reflexivity.
Qed.

Lemma convert_transform_to_rot_quarter_turns_witness :
  convert_transform_to_rot 1 3
  = if 1 <=? 3 then quarter_turns (3 - 1) else G2D_ROTATION_0.
Proof. apply convert_transform_to_rot_quarter_turns; lia. Defined.

Ltac no_wrap :=
  repeat match goal with
         | |- context [int32 ?z] => rewrite (int32_small z) by (cbn [left top right bottom]; lia)
         end.

(** [calculate_rect_with_transform] maps a rectangle inside the surface
    as the transform sees it to a rectangle inside the surface of [W] by
    [H], and the size of the rectangle is converted as
    [convert_size_by_view_transform] converts the size of a surface. *)
Theorem calculate_rect_with_transform_inside (W H transform : Z) (rect : g2dRECT) :
  0 <= transform <= 3 -> 0 <= W < 2 ^ 30 -> 0 <= H < 2 ^ 30 ->
  rect_within rect (fst (convert_size_by_view_transform W H transform))
                   (snd (convert_size_by_view_transform W H transform)) ->
  rect_within (calculate_rect_with_transform W H transform rect) W H
  /\ rect_size (calculate_rect_with_transform W H transform rect)
     = convert_size_by_view_transform (fst (rect_size rect)) (snd (rect_size rect)) transform.
Proof.
  intros Ht HW HH. destruct rect as [l t r b].
  assert (transform = 0 \/ transform = 1 \/ transform = 2 \/ transform = 3)
    as [-> | [-> | [-> | ->]]] by lia;
    unfold rect_within, rect_size, calculate_rect_with_transform; cbn; intros Hin;
    no_wrap; cbn; (split; [lia | f_equal; lia]).
Qed.

Lemma calculate_rect_with_transform_inside_witness :
  rect_within (calculate_rect_with_transform 1920 1080 1 (mkRECT 10 20 110 220)) 1920 1080
  /\ rect_size (calculate_rect_with_transform 1920 1080 1 (mkRECT 10 20 110 220))
     = convert_size_by_view_transform (fst (rect_size (mkRECT 10 20 110 220)))
         (snd (rect_size (mkRECT 10 20 110 220))) 1.
Proof.
  apply calculate_rect_with_transform_inside; try lia.
  unfold rect_within. cbn. lia.
Defined.

(** Away from the ends of [int], the rotation by a half turn is its own
    inverse, and the rotations by a quarter turn and by three quarter
    turns undo each other on the surface turned. *)
Theorem calculate_rect_with_transform_round_trip (W H : Z) (rect : g2dRECT) :
  rect_small rect -> - 2 ^ 29 <= W < 2 ^ 29 -> - 2 ^ 29 <= H < 2 ^ 29 ->
  calculate_rect_with_transform W H WL_OUTPUT_TRANSFORM_180
    (calculate_rect_with_transform W H WL_OUTPUT_TRANSFORM_180 rect) = rect
  /\ calculate_rect_with_transform H W WL_OUTPUT_TRANSFORM_270
       (calculate_rect_with_transform W H WL_OUTPUT_TRANSFORM_90 rect) = rect
  /\ calculate_rect_with_transform H W WL_OUTPUT_TRANSFORM_90
       (calculate_rect_with_transform W H WL_OUTPUT_TRANSFORM_270 rect) = rect.
Proof.
  destruct rect as [l t r b]. unfold rect_small. cbn [left top right bottom].
  intros Hr HW HH.
  repeat split; unfold calculate_rect_with_transform; cbn; no_wrap; cbn; no_wrap; f_equal; lia.
Qed.

Lemma calculate_rect_with_transform_round_trip_witness :
  calculate_rect_with_transform 1920 1080 WL_OUTPUT_TRANSFORM_180
    (calculate_rect_with_transform 1920 1080 WL_OUTPUT_TRANSFORM_180 (mkRECT 10 20 110 220))
  = mkRECT 10 20 110 220
  /\ calculate_rect_with_transform 1080 1920 WL_OUTPUT_TRANSFORM_270
       (calculate_rect_with_transform 1920 1080 WL_OUTPUT_TRANSFORM_90 (mkRECT 10 20 110 220))
     = mkRECT 10 20 110 220
  /\ calculate_rect_with_transform 1080 1920 WL_OUTPUT_TRANSFORM_90
       (calculate_rect_with_transform 1920 1080 WL_OUTPUT_TRANSFORM_270 (mkRECT 10 20 110 220))
     = mkRECT 10 20 110 220.
Proof.
  apply calculate_rect_with_transform_round_trip; unfold rect_small; cbn; lia.
Defined.

(** ** The clamp, once more *)

Lemma g2d_clip_rects_unchanged_inside (transform : g2d_rotation) (r : rects) (W H : Z) :
  rect_inside (r_dst r) W H -> g2d_clip_rects transform r W H = Go r.
Proof.
  intros Hin. rewrite rect_inside_edges in Hin.
  unfold g2d_clip_rects.
  destruct transform; cbv beta iota zeta delta [and_then];
    repeat rewrite clip_block_inside by apply Hin; reflexivity.
Qed.

(** [g2d_clip_rects] is idempotent: the rectangles that it has let
    through it lets through unchanged. *)
Theorem g2d_clip_rects_idempotent (transform : g2d_rotation) (r r' : rects) (W H : Z) :
  g2d_clip_rects transform r W H = Go r' -> g2d_clip_rects transform r' W H = Go r'.
Proof.
  intros Hgo.
  assert (hardware_rotation transform \/ ~ hardware_rotation transform) as [Hrot | Hflip]
    by (unfold hardware_rotation; destruct transform; auto;
        right; intros [|[|[|]]]; discriminate).
  - pose proof (g2d_clip_rects_outcome transform r W H Hrot) as Hout.
    rewrite Hgo in Hout. apply g2d_clip_rects_unchanged_inside, Hout.
  - apply g2d_clip_rects_flip, Hflip.
Qed.

Lemma g2d_clip_rects_idempotent_witness :
  g2d_clip_rects G2D_ROTATION_0 (mkRects (mkRECT 100 0 200 100) (mkRECT 0 0 100 100)) 1920 1080
  = Go (mkRects (mkRECT 100 0 200 100) (mkRECT 0 0 100 100)).
Proof.
  apply (g2d_clip_rects_idempotent G2D_ROTATION_0
           (mkRects (mkRECT 0 0 200 100) (mkRECT (-100) 0 100 100))).
  vm_compute. reflexivity.
Defined.

(** ** The damage ring over any number of frames *)

Section RingWindow.
Context `{Pixman}.
Hypothesis law : union_law.

(** However many frames are repainted, every one of them succeeds, the
    ring stays well formed and holds the damage of the last three
    frames, and frame [i] repaints the union of its own damage and of the
    three regions before it in the history of the ring. *)
Theorem repaint_frames_window (ds : list pixman_region32) : forall go,
  ring_ok go ->
  exists totals go',
    repaint_frames go ds = Some (totals, go')
    /\ ring_ok go'
    /\ length totals = length ds
    /\ ring_history go' = drop (length ds) (ring_history go ++ ds)
    /\ sliding_window (ring_history go ++ ds) totals.
Proof.
  induction ds as [|d rest IH]; intros go Hok.
  - exists [], go. split; [reflexivity|]. split; [exact Hok|]. split; [reflexivity|].
    split; [reflexivity|]. intros i t Hi. destruct i; discriminate Hi.
  - destruct Hok as [Hc Hlen]. destruct go as [c slots].
    unfold BUFFER_DAMAGE_COUNT in Hc, Hlen. cbn [current_buffer buffer_damage] in Hc, Hlen.
    destruct slots as [|s0 [|s1 [|s2 [|? ?]]]]; try discriminate Hlen.
    destruct (repaint_output_damage_step law c s0 s1 s2 d Hc) as (total & Estep & Ptotal).
    match type of Estep with _ = Some (_, ?g) => set (go1 := g) in * end.
    assert (ring_ok go1) as Hok1.
    { unfold go1, ring_ok, BUFFER_DAMAGE_COUNT. cbn [current_buffer buffer_damage].
      split; [apply Z.mod_pos_bound; lia|].
      destruct (c =? 0); [reflexivity|]. destruct (c =? 1); reflexivity. }
    destruct (IH go1 Hok1) as (totals & go' & Erest & Hok' & Hlen' & Hhist & Hwin).
    assert (ring_history go1 = drop 1 (ring_history (mkRing c [s0; s1; s2]) ++ [d])) as Hh1.
    { unfold go1. assert (c = 0 \/ c = 1 \/ c = 2) as [-> | [-> | ->]] by lia; reflexivity. }
    exists (total :: totals), go'. split; [|split; [|split; [|split]]].
    + rewrite (repaint_frames_cons _ _ _ _ _ Estep), Erest. reflexivity.
    + exact Hok'.
    + cbn. rewrite Hlen'. reflexivity.
    + rewrite Hhist, Hh1. cbn [length drop app ring_history]. reflexivity.
    + intros i t Hi. destruct i as [|i].
      * injection Hi as <-. intros x y. rewrite Ptotal.
        assert (c = 0 \/ c = 1 \/ c = 2) as [-> | [-> | ->]] by lia;
          match goal with
          | |- context [ring_history ?g] =>
              let h := eval vm_compute in (ring_history g) in
              change (ring_history g) with h
          end;
          cbn [app drop take existsb];
          destruct (region_contains s0 x y), (region_contains s1 x y),
            (region_contains s2 x y), (region_contains d x y); reflexivity.
      * cbn in Hi. specialize (Hwin i t Hi).
        rewrite Hh1 in Hwin. cbn [ring_history app drop] in Hwin |- *. exact Hwin.
Qed.
End RingWindow.

Lemma repaint_frames_window_witness :
  exists totals go',
    @repaint_frames BoxLists.pixman output_create_ring
      [[mkBox 0 0 1 1]; [mkBox 1 0 2 1]; [mkBox 2 0 3 1]; []; []; [mkBox 5 0 6 1]]
    = Some (totals, go')
    /\ ring_ok go'
    /\ length totals
       = length [[mkBox 0 0 1 1]; [mkBox 1 0 2 1]; [mkBox 2 0 3 1]; []; []; [mkBox 5 0 6 1]]
    /\ ring_history go'
       = drop (length [[mkBox 0 0 1 1]; [mkBox 1 0 2 1]; [mkBox 2 0 3 1]; []; [];
                       [mkBox 5 0 6 1]])
           (ring_history output_create_ring
            ++ [[mkBox 0 0 1 1]; [mkBox 1 0 2 1]; [mkBox 2 0 3 1]; []; []; [mkBox 5 0 6 1]])
    /\ @sliding_window BoxLists.pixman
         (ring_history output_create_ring
          ++ [[mkBox 0 0 1 1]; [mkBox 1 0 2 1]; [mkBox 2 0 3 1]; []; []; [mkBox 5 0 6 1]])
         totals.
Proof.
  apply (@repaint_frames_window BoxLists.pixman BoxLists_union_law).
  split; [vm_compute; split; [discriminate | reflexivity] | reflexivity].
Defined.

(** ** Waiting for a fence *)

Section SyncWait.
Variable env : environment.

Lemma sync_wait_loop_answered (fd timeout : Z) (n : nat) : forall fuel w,
  (n < fuel)%nat ->
  (forall k, (k < n)%nat -> interrupted (poll_answer env (calls w) fd timeout k) = true) ->
  interrupted (poll_answer env (calls w) fd timeout n) = false ->
  sync_wait_loop env fuel fd timeout w
  = Some (fst (sync_wait_end (poll_answer env (calls w) fd timeout n)),
          mkWorld (calls w ++ replicate (S n) (poll fd timeout))
            (snd (sync_wait_end (poll_answer env (calls w) fd timeout n)))).
Proof.
  induction n as [|n IH]; intros fuel w Hfuel Hbefore Hend.
  - destruct fuel as [|fuel]; [lia|]. cbn [sync_wait_loop].
    unfold poll_answer in *. cbn [replicate] in *.
    unfold sync_wait_end, signalled, interrupted in *.
    destruct (poll_result env (calls w ++ [poll fd timeout])) as [[r revents] e].
    cbn [fst snd] in *.
    destruct (r >? 0) eqn:Hpos.
    + cbn [andb]. destruct (Z.land revents (Z.lor POLLERR POLLNVAL) =? 0); reflexivity.
    + cbn [andb]. destruct (r =? 0); [reflexivity|].
      rewrite Hend. reflexivity.
  - destruct fuel as [|fuel]; [lia|]. cbn [sync_wait_loop].
    pose proof (Hbefore 0%nat ltac:(lia)) as H0.
    unfold poll_answer in H0. cbn [replicate] in H0. unfold interrupted in H0.
    destruct (poll_result env (calls w ++ [poll fd timeout])) as [[r revents] e] eqn:E0.
    cbn [fst snd] in H0. apply andb_true_iff in H0 as [Hr He].
    assert (r = -1) as -> by lia. cbn [Z.gtb Z.compare Z.eqb andb].
    rewrite He.
    set (w1 := mkWorld (calls w ++ [poll fd timeout]) e).
    assert (forall k, poll_answer env (calls w1) fd timeout k
                      = poll_answer env (calls w) fd timeout (S k)) as Hshift.
    { intros k. unfold poll_answer, w1. cbn [calls]. rewrite <- app_assoc. reflexivity. }
    rewrite (IH fuel w1).
    + rewrite Hshift. unfold w1. cbn [calls]. rewrite <- app_assoc. reflexivity.
    + lia.
    + intros k Hk. rewrite Hshift. apply Hbefore. lia.
    + rewrite Hshift. exact Hend.
Qed.

(** [sync_wait] on a descriptor polls again as long as [poll] is
    interrupted, and the first other answer decides: 0 when the
    descriptor is ready, -1 with [EINVAL] on an error event, -1 with
    [ETIME] on a timeout, and what [poll] returned otherwise. The calls
    are the polls, one more than the interruptions. *)
Theorem sync_wait_polls_until_answered (fuel : nat) (fd timeout : Z) (n : nat) (w : world) :
  0 <= fd -> (n < fuel)%nat ->
  (forall k, (k < n)%nat -> interrupted (poll_answer env (calls w) fd timeout k) = true) ->
  interrupted (poll_answer env (calls w) fd timeout n) = false ->
  sync_wait env fuel fd timeout w
  = Some (fst (sync_wait_end (poll_answer env (calls w) fd timeout n)),
          mkWorld (calls w ++ replicate (S n) (poll fd timeout))
            (snd (sync_wait_end (poll_answer env (calls w) fd timeout n)))).
Proof.
  intros Hfd Hfuel Hbefore Hend. unfold sync_wait.
  replace (fd <? 0) with false by (symmetry; apply Z.ltb_ge; lia).
  apply sync_wait_loop_answered; assumption.
Qed.

Lemma sync_wait_loop_result (fd timeout : Z) : forall fuel w r w',
  sync_wait_loop env fuel fd timeout w = Some (r, w') ->
  exists n,
    calls w' = calls w ++ replicate (S n) (poll fd timeout)
    /\ r <= 0
    /\ (r = 0 <-> signalled (poll_result env (calls w')) = true)
    /\ (fst (fst (poll_result env (calls w'))) = 0 -> r = -1 /\ errno w' = ETIME).
Proof.
  induction fuel as [|fuel IH]; intros w r w' E; [discriminate E|].
  cbn [sync_wait_loop] in E.
  destruct (poll_result env (calls w ++ [poll fd timeout])) as [[pr revents] e] eqn:E0.
  assert (forall v x, Some (x, mkWorld (calls w ++ [poll fd timeout]) v) = Some (r, w') ->
          calls w' = calls w ++ replicate 1 (poll fd timeout)
          /\ poll_result env (calls w') = (pr, revents, e) /\ x = r /\ errno w' = v) as Hdone.
  { intros v x [= <- <-]. cbn [calls errno replicate]. auto. }
  destruct (pr >? 0) eqn:Hpos.
  - destruct (Z.land revents (Z.lor POLLERR POLLNVAL) =? 0) eqn:Herr; cbn [negb] in E;
      destruct (Hdone _ _ E) as (Hc & Ha & <- & He); exists 0%nat;
      (split; [exact Hc|]); rewrite Ha; unfold signalled; cbn [fst snd];
      rewrite Hpos, Herr; cbn [andb]; repeat split; try lia; try discriminate.
  - destruct (pr =? 0) eqn:Hzero.
    + destruct (Hdone _ _ E) as (Hc & Ha & <- & He); exists 0%nat.
      split; [exact Hc|]. rewrite Ha. unfold signalled. cbn [fst snd]. rewrite Hpos.
      cbn [andb]. repeat split; try lia; try discriminate; exact He.
    + destruct ((pr =? -1) && ((e =? EINTR) || (e =? EAGAIN))).
      * destruct (IH _ _ _ E) as (n & Hc & Hrest). exists (S n).
        split; [|exact Hrest]. rewrite Hc. cbn [calls]. rewrite <- app_assoc. reflexivity.
      * destruct (Hdone _ _ E) as (Hc & Ha & <- & He); exists 0%nat.
        split; [exact Hc|]. rewrite Ha. unfold signalled. cbn [fst snd]. rewrite Hpos.
        cbn [andb]. repeat split; try lia; try discriminate.
Qed.

(** Whatever [poll] answers, [sync_wait] never returns a positive
    value. On a negative descriptor it returns -1 with [EINVAL] without a
    call. It returns 0 only after a poll whose answer says that the
    descriptor is ready, and a last poll that timed out gives -1 with
    [ETIME]. *)
Theorem sync_wait_never_positive (fuel : nat) (fd timeout : Z) (w w' : world) (r : Z) :
  sync_wait env fuel fd timeout w = Some (r, w') ->
  r <= 0
  /\ (fd < 0 -> r = -1 /\ errno w' = EINVAL /\ calls w' = calls w)
  /\ (r = 0 ->
      exists n, calls w' = calls w ++ replicate (S n) (poll fd timeout)
                /\ signalled (poll_result env (calls w')) = true)
  /\ (0 <= fd -> fst (fst (poll_result env (calls w'))) = 0 -> r = -1 /\ errno w' = ETIME).
Proof.
  unfold sync_wait. destruct (fd <? 0) eqn:Hfd.
  - intros [= <- <-]. cbn [calls errno]. repeat split; try lia; try discriminate.
  - intros E. destruct (sync_wait_loop_result _ _ _ _ _ _ E) as (n & Hc & Hr & H0 & Ht).
    repeat split; try lia; auto.
    intros Hz. exists n. split; [exact Hc|]. apply H0, Hz.
Qed.
End SyncWait.

Lemma sync_wait_polls_until_answered_witness :
  sync_wait Cases.interrupted_twice 8 7 2000 Scene.start
  = Some (fst (sync_wait_end (poll_answer Cases.interrupted_twice (calls Scene.start) 7 2000 2)),
          mkWorld (calls Scene.start ++ replicate 3 (poll 7 2000))
            (snd (sync_wait_end
                    (poll_answer Cases.interrupted_twice (calls Scene.start) 7 2000 2)))).
Proof.
  apply (sync_wait_polls_until_answered Cases.interrupted_twice 8 7 2000 2 Scene.start).
  - lia.
  - lia.
  - intros k Hk. destruct k as [|[|k]]; [reflexivity | reflexivity | lia].
  - reflexivity.
Defined.

Lemma sync_wait_never_positive_witness :
  -1 <= 0
  /\ (7 < 0 ->
      -1 = -1
      /\ errno (mkWorld [poll 7 2000] ETIME) = EINVAL
      /\ calls (mkWorld [poll 7 2000] ETIME) = calls Scene.start)
  /\ (-1 = 0 ->
      exists n,
        calls (mkWorld [poll 7 2000] ETIME) = calls Scene.start ++ replicate (S n) (poll 7 2000)
        /\ signalled (poll_result Cases.timing_out (calls (mkWorld [poll 7 2000] ETIME))) = true)
  /\ (0 <= 7 ->
      fst (fst (poll_result Cases.timing_out (calls (mkWorld [poll 7 2000] ETIME)))) = 0 ->
      -1 = -1 /\ errno (mkWorld [poll 7 2000] ETIME) = ETIME).
Proof.
  apply (sync_wait_never_positive Cases.timing_out 8 7 2000 Scene.start).
  vm_compute. reflexivity.
Defined.

(** ** The calls of a repaint *)

Lemma appends_ret {A : Type} (post : A -> list hw_call -> Prop) (a : A) :
  post a [] -> appends post (ret a).
Proof. intros Hp w a' w' [= <- <-]. exists []. rewrite app_nil_r. auto. Qed.

Lemma appends_undefined {A : Type} (post : A -> list hw_call -> Prop) :
  appends post (@undefined A).
Proof. intros w a w' [=]. Qed.

Lemma appends_bind {A B : Type} (mid : A -> list hw_call -> Prop)
    (post : B -> list hw_call -> Prop) (m : M A) (k : A -> M B) :
  appends mid m ->
  (forall a l1, mid a l1 -> appends (fun b l2 => post b (l1 ++ l2)) (k a)) ->
  appends post (bind m k).
Proof.
  intros Hm Hk w b w'. unfold bind.
  destruct (m w) as [[a w1]|] eqn:Em; [|discriminate].
  intros Ek. destruct (Hm _ _ _ Em) as (l1 & E1 & H1).
  destruct (Hk a l1 H1 _ _ _ Ek) as (l2 & E2 & H2).
  exists (l1 ++ l2). rewrite E2, E1, <- app_assoc. auto.
Qed.

Lemma appends_weaken {A : Type} (post post' : A -> list hw_call -> Prop) (m : M A) :
  appends post m -> (forall a l, post a l -> post' a l) -> appends post' m.
Proof.
  intros Hm Hpp w a w' E. destruct (Hm _ _ _ E) as (l & Hc & Hp). eauto.
Qed.

Lemma appends_emit (c : hw_call) : appends (fun _ l => l = [c]) (emit c).
Proof. intros w a w' [= <- <-]. exists [c]. auto. Qed.

Lemma yields_appends {A : Type} (ok : hw_call -> bool) (post : A -> Prop) (m : M A) :
  yields ok post m -> appends (fun a l => post a /\ forallb ok l = true) m.
Proof.
  intros Hm w a w' E. destruct (Hm _ _ _ E) as (Hp & added & Hc & Hf). eauto.
Qed.

Lemma scissor_scan_app (l1 l2 : list hw_call) : forall armed,
  scissor_scan armed (l1 ++ l2)
  = match scissor_scan armed l1 with
    | Some armed' => scissor_scan armed' l2
    | None => None
    end.
Proof.
  induction l1 as [|c l1 IH]; intros armed; [reflexivity|].
  destruct c; cbn [app scissor_scan]; try apply IH; destruct armed; try reflexivity; apply IH.
Qed.

Lemma scissored_app (l1 l2 : list hw_call) : scissored l1 -> scissored l2 -> scissored (l1 ++ l2).
Proof. unfold scissored. intros H1 H2. rewrite scissor_scan_app, H1. exact H2. Qed.

Lemma draws_app (l1 l2 : list hw_call) : draws (l1 ++ l2) = (draws l1 + draws l2)%nat.
Proof. unfold draws. rewrite List.filter_app, length_app. reflexivity. Qed.

Lemma same_buffer_refl (a : g2d_surfaceEx) : same_buffer a a.
Proof. unfold same_buffer. repeat split. Qed.

Lemma same_buffer_trans (a b c : g2d_surfaceEx) :
  same_buffer a b -> same_buffer b c -> same_buffer a c.
Proof. unfold same_buffer. intuition congruence. Qed.

Lemma drawn_nothing (bound : nat) (dst : g2d_surfaceEx) : drawn bound dst dst [].
Proof. split; [apply same_buffer_refl|]. split; [reflexivity|]. cbn. lia. Qed.

Lemma drawn_app (n1 n2 : nat) (dst0 dst1 dst2 : g2d_surfaceEx) (l1 l2 : list hw_call) :
  drawn n1 dst0 dst1 l1 -> drawn n2 dst1 dst2 l2 -> drawn (n1 + n2) dst0 dst2 (l1 ++ l2).
Proof.
  intros (Hb1 & Hs1 & Hd1) (Hb2 & Hs2 & Hd2). split; [|split].
  - eapply same_buffer_trans; eassumption.
  - apply scissored_app; assumption.
  - rewrite draws_app. lia.
Qed.

(** What [g2d_clear_solid] does: it sets the rectangle and the colour of
    the destination, clears, and logs the surface when the clear fails. *)
Lemma g2d_clear_solid_run (env : environment) (dst0 : g2d_surfaceEx) (clipRect : g2dRECT)
    (clcolor : Z) (w : world) :
  g2d_clear_solid env dst0 clipRect clcolor w
  = let dst := with_base (set_clrcolor clcolor) (g2d_SetSurfaceRect dst0 clipRect) in
    let upto_clear := calls w ++ [g2d_clear (base dst)] in
    if g2d_status env upto_clear =? 0 then Some ((0, dst), mkWorld upto_clear (errno w))
    else Some ((-1, dst),
               mkWorld (upto_clear ++ [printG2dSurfaceInfo dst "SOILD DST:"]) (errno w)).
Proof.
  unfold g2d_clear_solid. cbv zeta. unfold bind, ret, emit, g2d. cbn [calls errno].
  destruct (g2d_status env _ =? 0); reflexivity.
Qed.

Section RepaintShape.
Context `{Geometry}.
Variable env : environment.

Lemma repaint_pair_drawn ev output gs srcRect dstrect rect surf_rect st :
  appends (fun r added => drawn 1 (loop_dst st) (loop_dst (snd r)) added)
    (repaint_pair env ev output gs srcRect dstrect rect surf_rect st).
Proof.
  unfold repaint_pair.
  destruct (calculate_edges ev rect surf_rect) as [|e0 es];
    [apply appends_ret, drawn_nothing|].
  destruct (Z.of_nat (length (e0 :: es)) <? 3); [apply appends_ret, drawn_nothing|].
  destruct (_ || _); [apply appends_ret, drawn_nothing|].
  intros w r w' E. unfold bind at 1 in E. cbn [emit] in E.
  unfold bind at 1 in E.
  destruct (solid_clear gs).
  - destruct (buffer_ref_buffer gs) as [buffer|]; [|discriminate E].
    cbn [ret] in E.
    match type of E with
    | (if ?c then _ else _) _ = _ => destruct c
    end.
    + unfold bind at 1 in E. rewrite g2d_clear_solid_run in E. cbv zeta in E.
      cbn [calls errno] in E.
      destruct (g2d_status env _ =? 0); injection E as <- <-; cbn [calls snd loop_dst];
        rewrite <- ?app_assoc; eexists; (split; [reflexivity|]);
        (split; [unfold same_buffer; cbn; repeat split | split; [reflexivity | cbn; lia]]).
    + unfold bind at 1 in E. rewrite g2d_blit_surface_run in E. cbv zeta in E.
      cbn [calls errno] in E.
      destruct (_hasAlpha _);
      destruct (g2d_status env _ =? 0); injection E as <- <-; cbn [calls snd loop_dst];
        rewrite <- ?app_assoc; eexists; (split; [reflexivity|]);
        (split; [unfold same_buffer; cbn; repeat split | split; [reflexivity | cbn; lia]]).
  - cbn [ret] in E. unfold bind at 1 in E. rewrite g2d_blit_surface_run in E. cbv zeta in E.
    cbn [calls errno] in E.
    destruct (_hasAlpha _);
      destruct (g2d_status env _ =? 0); injection E as <- <-; cbn [calls snd loop_dst];
        rewrite <- ?app_assoc; eexists; (split; [reflexivity|]);
        (split; [unfold same_buffer; cbn; repeat split | split; [reflexivity | cbn; lia]]).
Qed.

Lemma repaint_surf_rects_drawn ev output gs srcRect dstrect rect surf_rects : forall st,
  appends (fun r added => drawn (length surf_rects) (loop_dst st) (loop_dst (snd r)) added)
    (repaint_surf_rects env ev output gs srcRect dstrect rect surf_rects st).
Proof.
  induction surf_rects as [|surf_rect rest IH]; intros st;
    [apply appends_ret, drawn_nothing|].
  cbn [repaint_surf_rects].
  eapply appends_bind; [apply repaint_pair_drawn|].
  intros r l1 H1. cbn beta in H1.
  destruct (fst r).
  - apply appends_ret. rewrite app_nil_r.
    destruct H1 as (? & ? & ?). split; [assumption|]. split; [assumption|]. cbn. lia.
  - eapply appends_weaken; [apply IH|]. intros r2 l2 H2.
    apply (drawn_app 1 (length rest) _ _ _ _ _ H1 H2).
Qed.

Lemma repaint_rects_drawn ev output gs srcRect dstrect rects surf_rects : forall st,
  appends (fun r added =>
             drawn (length rects * length surf_rects) (loop_dst st) (loop_dst (snd r)) added)
    (repaint_rects env ev output gs srcRect dstrect rects surf_rects st).
Proof.
  induction rects as [|rect rest IH]; intros st; [apply appends_ret, drawn_nothing|].
  cbn [repaint_rects].
  eapply appends_bind; [apply repaint_surf_rects_drawn|].
  intros r l1 H1. cbn beta in H1.
  destruct (fst r).
  - apply appends_ret. rewrite app_nil_r.
    destruct H1 as (? & ? & ?). split; [assumption|]. split; [assumption|]. cbn. lia.
  - eapply appends_weaken; [apply IH|]. intros r2 l2 H2.
    apply (drawn_app (length surf_rects) (length rest * length surf_rects) _ _ _ _ _ H1 H2).
Qed.

Lemma repaint_region_drawn ev output gs drm_hw_buffer region surf_region :
  appends (fun dst added =>
             drawn (length (pixman_region32_rectangles region)
                    * length (pixman_region32_rectangles surf_region)) drm_hw_buffer dst added)
    (repaint_region env ev output gs drm_hw_buffer region surf_region).
Proof.
  unfold repaint_region.
  destruct (F64.ltb _ _); [apply appends_ret, drawn_nothing|].
  destruct (_ && _); [apply appends_ret, drawn_nothing|].
  destruct (_ || _); [apply appends_ret, drawn_nothing|].
  destruct (pixman_region32_rectangles (transform_boundingbox ev)) as [|bb0 ?];
    [apply appends_ret, drawn_nothing|].
  destruct (convert_size_by_view_transform _ _ _) as [src_width src_height].
  destruct (clipped _) as [r|]; [|apply appends_undefined].
  eapply appends_bind; [apply repaint_rects_drawn|].
  intros done l1 H1. apply appends_ret. rewrite app_nil_r. exact H1.
Qed.

(** Whatever [repaint_region] draws, every clear and every blit comes
    after a scissor of its own, there is at most one of them for each
    pair of a damage rectangle and a surface rectangle, and the surface
    behind the frame buffer keeps its format, its planes, its stride, its
    size, its rotation and its tiling: a draw changes only the rectangle,
    the blend function and the clear colour. *)
Theorem repaint_region_scissors_every_draw ev output gs drm_hw_buffer region surf_region
    w dst w' :
  repaint_region env ev output gs drm_hw_buffer region surf_region w = Some (dst, w') ->
  exists added,
    calls w' = calls w ++ added
    /\ same_buffer dst drm_hw_buffer
    /\ scissored added
    /\ (draws added <= length (pixman_region32_rectangles region)
                       * length (pixman_region32_rectangles surf_region))%nat.
Proof. apply repaint_region_drawn. Qed.
End RepaintShape.

Lemma repaint_region_scissors_every_draw_witness :
  exists added,
    calls (mkWorld
             [g2d_set_clipping 0 0 50 50;
              g2d_blitEx
                (with_base (set_blendfunc G2D_ONE)
                   (g2d_SetSurfaceRect (Scene.blank 100 100 G2D_BGRA8888) (mkRECT 0 0 100 100)))
                (with_base (set_blendfunc G2D_ONE_MINUS_SRC_ALPHA)
                   (g2d_SetSurfaceRect Scene.frame_buffer (mkRECT 0 0 100 100)))] 0)
    = calls Scene.start ++ added
    /\ same_buffer
         (with_base (set_blendfunc G2D_ONE_MINUS_SRC_ALPHA)
            (g2d_SetSurfaceRect Scene.frame_buffer (mkRECT 0 0 100 100)))
         Scene.frame_buffer
    /\ scissored added
    /\ (draws added
        <= length (pixman_region32_rectangles [mkBox 0 0 50 50])
           * length (pixman_region32_rectangles [mkBox 0 0 100 100]))%nat.
Proof.
  apply (@repaint_region_scissors_every_draw Scene.geometry Scene.willing
           (Scene.plain_view F32.one) Scene.output0 Scene.attached_state Scene.frame_buffer
           [mkBox 0 0 50 50] [mkBox 0 0 100 100] Scene.start).
  vm_compute. reflexivity.
Defined.

(** ** Readiness, blending and memory *)

Lemma switch_free_app (l1 l2 : list hw_call) :
  forallb (fun c => negb (is_enable c)) l1 = true ->
  forallb (fun c => negb (is_enable c)) l2 = true ->
  forallb (fun c => negb (is_enable c)) (l1 ++ l2) = true.
Proof. intros H1 H2. rewrite forallb_app, H1, H2. reflexivity. Qed.

Lemma readiness_calls_enable_nothing (l : list hw_call) :
  forallb is_readiness_call l = true -> forallb (fun c => negb (is_enable c)) l = true.
Proof.
  induction l as [|c l IH]; [reflexivity|]. cbn [forallb].
  intros Hl. apply andb_true_iff in Hl as [Hc Hl]. rewrite (IH Hl).
  destruct c; try discriminate Hc; reflexivity.
Qed.

Lemma creation_calls_enable_nothing (l : list hw_call) :
  forallb is_creation_call l = true -> forallb (fun c => negb (is_enable c)) l = true.
Proof.
  induction l as [|c l IH]; [reflexivity|]. cbn [forallb].
  intros Hl. apply andb_true_iff in Hl as [Hc Hl]. rewrite (IH Hl).
  destruct c; try discriminate Hc; reflexivity.
Qed.

Lemma ends_disabled_app (l1 l2 : list hw_call) : ends_disabled l2 -> ends_disabled (l1 ++ l2).
Proof. intros [b ->]. exists (l1 ++ b). rewrite app_assoc. reflexivity. Qed.

Section Readiness.
Context `{Geometry} `{Pixman} `{Platform}.
Variable env : environment.
Variable G2D_TILED_STATUS : Z.

Lemma sync_wait_loop_readiness fuel fd timeout :
  yields is_readiness_call (fun _ => True) (sync_wait_loop env fuel fd timeout).
Proof.
  induction fuel as [|fuel IH]; [apply yields_undefined|].
  intros w a w'. cbn [sync_wait_loop].
  destruct (poll_result env (calls w ++ [poll fd timeout])) as [[r revents] e].
  assert (forall x v, Some (x, mkWorld (calls w ++ [poll fd timeout]) v) = Some (a, w') ->
          True /\ exists added,
                    calls w' = calls w ++ added /\ forallb is_readiness_call added = true)
    as Hdone.
  { intros x v [= <- <-]. split; [exact I|]. exists [poll fd timeout]. auto. }
  destruct (r >? 0).
  - destruct (negb _); apply Hdone.
  - destruct (r =? 0); [apply Hdone|].
    destruct ((r =? -1) && _); [|apply Hdone].
    intros E. destruct (IH _ _ _ E) as (_ & added & Ec & Fc).
    split; [exact I|]. exists (poll fd timeout :: added).
    rewrite Ec. cbn [calls]. rewrite <- app_assoc. cbn. auto.
Qed.

Lemma sync_wait_readiness fuel fd timeout :
  yields is_readiness_call (fun _ => True) (sync_wait env fuel fd timeout).
Proof.
  unfold sync_wait. destruct (fd <? 0); [|apply sync_wait_loop_readiness].
  eapply yields_bind; [apply yields_set_errno|]. intros _ _. apply yields_ret. exact I.
Qed.

Lemma get_g2dSurface_readiness buffer g2dSurface :
  yields is_readiness_call (fun _ => True) (get_g2dSurface G2D_TILED_STATUS buffer g2dSurface).
Proof.
  unfold get_g2dSurface. destruct (_ || _).
  - eapply yields_bind; [apply yields_emit; reflexivity|].
    intros _ _. apply yields_ret. exact I.
  - destruct (viv_physical buffer) as [[p0 p1] p2].
    destruct (_ && _); apply yields_ret; exact I.
Qed.

(** The calls of [ensure_surface_buffer_is_ready] are the refresh of a
    buffer of EGL, polls and its two log lines. *)
Lemma ensure_surface_buffer_is_ready_readiness fuel gr surface gs :
  yields is_readiness_call (fun _ => True)
    (ensure_surface_buffer_is_ready env G2D_TILED_STATUS fuel gr surface gs).
Proof.
  assert (forall gs', yields is_readiness_call (fun _ : Z * g2d_surface_state => True)
            (if acquire_fence_fd surface <? 0 then ret (0, gs')
             else
               (r <- sync_wait env fuel (acquire_fence_fd surface) 2000 ;;
                e <- get_errno ;;
                if (r <? 0) && (e =? ETIME) then
                  emit (weston_log "ensure_surface_buffer_is_ready: Warning: wait for fence fd") ;;;
                  r <- sync_wait env fuel (acquire_fence_fd surface) (-1) ;;
                  ret (r, gs')
                else ret (r, gs'))%M)) as Hwait.
  { intros gs'. destruct (acquire_fence_fd surface <? 0); [apply yields_ret; exact I|].
    eapply yields_bind; [apply sync_wait_readiness|]. intros r _.
    eapply yields_bind; [apply yields_get_errno|]. intros e _.
    destruct (_ && _); [|apply yields_ret; exact I].
    eapply yields_bind; [apply yields_emit; reflexivity|]. intros _ _.
    eapply yields_bind; [apply sync_wait_readiness|]. intros r' _.
    apply yields_ret. exact I. }
  unfold ensure_surface_buffer_is_ready.
  destruct (buffer_ref_buffer gs) as [buffer|]; [|apply yields_ret; exact I].
  destruct (buffer_type buffer); try apply Hwait.
  destruct (negb (buffer_resource buffer)); [apply yields_ret; exact I|].
  eapply yields_bind with (mid := fun _ => True).
  - destruct (has_update_buffer gr); [|apply yields_ret; exact I].
    intros w a w' [= <- <-]. split; [exact I|]. exists [update_buffer]. auto.
  - intros viv _. eapply yields_bind; [apply get_g2dSurface_readiness|]. intros got _.
    destruct (fst got <? 0); [apply yields_ret; exact I|apply Hwait].
Qed.

Lemma store_global_alpha_silent ev gs :
  appends (fun _ l => l = []) (store_global_alpha ev gs).
Proof.
  unfold store_global_alpha.
  destruct (F32.to_int _); [apply appends_ret; reflexivity|apply appends_undefined].
Qed.

(** One of the two passes of [draw_view]: it ends with the two
    [g2d_disable]. *)
Lemma draw_view_pass_ends_disabled ev output drm_hw_buffer repaint surf
    (prepare : M g2d_surface_state) :
  appends (fun _ _ => True) prepare ->
  appends (fun _ added => ends_disabled added)
    (gs' <- prepare ;;
     dst <- repaint_region env ev output gs' drm_hw_buffer repaint surf ;;
     emit (g2d_disable G2D_GLOBAL_ALPHA) ;;;
     emit (g2d_disable G2D_BLEND) ;;;
     ret (gs', dst))%M.
Proof.
  intros Hprep.
  eapply appends_bind; [exact Hprep|]. intros gs' l1 _.
  eapply appends_bind; [apply repaint_region_drawn|]. intros dst l2 _.
  eapply appends_bind; [apply appends_emit|]. intros _ l3 ->.
  eapply appends_bind; [apply appends_emit|]. intros _ l4 ->.
  apply appends_ret. rewrite app_nil_r.
  exists (l1 ++ l2). rewrite <- !app_assoc. reflexivity.
Qed.

(** [draw_view] leaves blending and the global alpha switched off:
    either it has switched nothing on, or its last two calls are the
    [g2d_disable] of the global alpha and of blending, whatever the
    hardware answered in between. *)
Theorem draw_view_leaves_blending_off fuel gr ev output state drm_hw_buffer damage w r w' :
  draw_view env G2D_TILED_STATUS fuel gr ev output state drm_hw_buffer damage w
  = Some (r, w') ->
  exists added,
    calls w' = calls w ++ added
    /\ (forallb (fun c => negb (is_enable c)) added = true \/ ends_disabled added).
Proof.
  revert w r w'.
  change (appends (fun _ added =>
                     forallb (fun c => negb (is_enable c)) added = true \/ ends_disabled added)
            (draw_view env G2D_TILED_STATUS fuel gr ev output state drm_hw_buffer damage)).
  unfold draw_view.
  eapply appends_bind; [apply yields_appends, get_surface_state_creation|].
  intros state' lc [_ Hlc]. apply creation_calls_enable_nothing in Hlc. cbv zeta.
  destruct (negb (pixman_region32_not_empty _));
    [apply appends_ret; rewrite app_nil_r; left; exact Hlc|].
  destruct state' as [whole|]; [|apply appends_undefined].
  assert (forall l, forallb (fun c => negb (is_enable c)) l = true \/ ends_disabled l ->
                    forallb (fun c => negb (is_enable c)) (lc ++ l) = true
                    \/ ends_disabled (lc ++ l)) as Hafter.
  { intros l [Hl | Hl]; [left; apply switch_free_app; assumption|].
    right. apply ends_disabled_app, Hl. }
  eapply appends_bind with
    (mid := fun _ l => forallb (fun c => negb (is_enable c)) l = true \/ ends_disabled l);
    [|intros drawn l1 Hdrawn; apply appends_ret; rewrite app_nil_r; apply Hafter, Hdrawn].
  eapply appends_bind;
    [apply yields_appends, ensure_surface_buffer_is_ready_readiness|].
  intros ready l0 [_ Hl0]. apply readiness_calls_enable_nothing in Hl0.
  destruct (fst ready <? 0); [apply appends_ret; rewrite app_nil_r; left; exact Hl0|].
  assert (forall (first : bool) gs0,
            appends (fun (_ : g2d_surface_state) (_ : list hw_call) => True)
              (if F64.ltb (F64.of_float (alpha ev)) F64.one then
                 (if first then
                    emit (g2d_enable G2D_BLEND) ;;;
                    emit (g2d_enable G2D_GLOBAL_ALPHA) ;;;
                    store_global_alpha ev gs0
                  else
                    emit (g2d_enable G2D_GLOBAL_ALPHA) ;;;
                    store_global_alpha ev gs0)
               else ret gs0)%M) as Hprep.
  { intros first gs0. destruct (F64.ltb _ _); [|apply appends_ret; exact I].
    destruct first.
    - eapply appends_bind; [apply appends_emit|]. intros _ ? _.
      eapply appends_bind; [apply appends_emit|]. intros _ ? _.
      eapply appends_weaken; [apply store_global_alpha_silent|]. auto.
    - eapply appends_bind; [apply appends_emit|]. intros _ ? _.
      eapply appends_weaken; [apply store_global_alpha_silent|]. auto. }
  eapply appends_bind with
    (mid := fun _ l => l = [] \/ ends_disabled l).
  - destruct (pixman_region32_not_empty _); [|apply appends_ret; left; reflexivity].
    eapply appends_weaken.
    + apply draw_view_pass_ends_disabled.
      specialize (Hprep true (snd ready)).
      destruct (F64.ltb _ _); exact Hprep.
    + intros a l Hl. right. exact Hl.
  - intros after l1 Hl1.
    destruct (pixman_region32_not_empty _).
    + eapply appends_bind; [apply appends_emit|]. intros _ l2 ->.
      eapply appends_weaken.
      * apply draw_view_pass_ends_disabled.
        specialize (Hprep false (fst after)).
        destruct (F64.ltb _ _); exact Hprep.
      * intros a l Hl. right. rewrite !app_assoc. apply ends_disabled_app, Hl.
    + apply appends_ret. rewrite app_nil_r.
      destruct Hl1 as [-> | Hl1].
      * left. rewrite app_nil_r. exact Hl0.
      * right. apply ends_disabled_app, Hl1.
Qed.

(** A buffer of EGL whose refreshed user data have a width or a height
    of zero or less is not drawn: [draw_view] logs that the buffer is
    invalid and returns; it waits for no fence, switches nothing on and
    leaves the surface state and the frame buffer surface as they were. *)
Theorem draw_view_invalid_egl_buffer fuel gr ev output gs drm_hw_buffer damage w buffer :
  pixman_region32_not_empty
    (pixman_region32_subtract
       (pixman_region32_intersect (transform_boundingbox ev) damage) (clip ev)) = true ->
  buffer_ref_buffer (gs_state gs) = Some buffer ->
  buffer_type buffer = WESTON_BUFFER_RENDERER_OPAQUE ->
  buffer_resource buffer = true ->
  viv_width (refreshed_viv_buffer env gr buffer w) <= 0
  \/ viv_height (refreshed_viv_buffer env gr buffer w) <= 0 ->
  draw_view env G2D_TILED_STATUS fuel gr ev output (Some gs) drm_hw_buffer damage w
  = Some ((Some gs, drm_hw_buffer),
          mkWorld (refreshed_calls gr w
                   ++ [weston_log "invalid EGL buffer in function get_g2dSurface"])
            (errno w)).
Proof.
  intros Hrepaint Hbuf Htype Hres Hdim.
  unfold draw_view. unfold bind at 1. cbn [get_surface_state ret]. cbv zeta.
  rewrite Hrepaint. cbn [negb].
  unfold bind at 1. unfold bind at 1. unfold ensure_surface_buffer_is_ready.
  rewrite Hbuf, Htype, Hres. cbn [negb].
  unfold refreshed_viv_buffer, refreshed_calls in *.
  assert (forall viv w1,
            viv_width viv <= 0 \/ viv_height viv <= 0 ->
            get_g2dSurface G2D_TILED_STATUS viv (g2d_surface_of (gs_state gs)) w1
            = Some ((- EINVAL, g2d_surface_of (gs_state gs)),
                    mkWorld (calls w1 ++ [weston_log "invalid EGL buffer in function get_g2dSurface"])
                      (errno w1))) as Hget.
  { intros viv w1 Hd. unfold get_g2dSurface.
    replace ((viv_width viv <=? 0) || (viv_height viv <=? 0)) with true
      by (symmetry; apply orb_true_iff; destruct Hd; [left | right]; lia).
    reflexivity. }
  destruct gs as [[sc cc bb at0 surf] color pitch bpp shm len td].
  cbn [g2d_surface_of gs_state] in *.
  destruct (has_update_buffer gr).
  - unfold bind at 1. unfold bind at 1. rewrite Hget by exact Hdim. reflexivity.
  - unfold bind at 1. unfold bind at 1. cbn [ret]. rewrite Hget by exact Hdim.
    destruct w. reflexivity.
Qed.

(** When the first wait for the fence of a surface times out,
    [ensure_surface_buffer_is_ready] logs a warning and waits again
    without a timeout: what it returns is what that second wait returns. *)
Theorem fence_timeout_waits_for_ever fuel gr surface gs buffer w revents e :
  buffer_ref_buffer gs = Some buffer ->
  buffer_type buffer <> WESTON_BUFFER_RENDERER_OPAQUE ->
  0 <= acquire_fence_fd surface ->
  (0 < fuel)%nat ->
  poll_result env (calls w ++ [poll (acquire_fence_fd surface) 2000]) = (0, revents, e) ->
  ensure_surface_buffer_is_ready env G2D_TILED_STATUS fuel gr surface gs w
  = wait_for_ever env fuel (acquire_fence_fd surface) gs
      (mkWorld (calls w ++ [poll (acquire_fence_fd surface) 2000;
                            weston_log "ensure_surface_buffer_is_ready: Warning: wait for fence fd"])
         ETIME).
Proof.
  intros Hbuf Htype Hfd Hfuel Hpoll.
  assert (sync_wait env fuel (acquire_fence_fd surface) 2000 w
          = Some (-1, mkWorld (calls w ++ [poll (acquire_fence_fd surface) 2000]) ETIME)) as Hfirst.
  { unfold sync_wait.
    replace (acquire_fence_fd surface <? 0) with false by (symmetry; apply Z.ltb_ge; lia).
    destruct fuel as [|fuel]; [lia|]. cbn [sync_wait_loop]. rewrite Hpoll. reflexivity. }
  unfold ensure_surface_buffer_is_ready. rewrite Hbuf.
  replace (acquire_fence_fd surface <? 0) with false by (symmetry; apply Z.ltb_ge; lia).
  destruct (buffer_type buffer); try (exfalso; apply Htype; reflexivity);
    unfold bind at 1; rewrite Hfirst; unfold bind at 1; cbn [get_errno errno];
    cbn [Z.ltb Z.compare andb]; rewrite Z.eqb_refl;
    unfold bind at 1; cbn [emit calls errno]; rewrite <- app_assoc; reflexivity.
Qed.

(** When there is no memory for the state of a surface,
    [get_surface_state] returns a null pointer after the one call of
    [zalloc]. [draw_view] returns with it when there is nothing to
    repaint, and has no defined result when there is: it hands the null
    pointer to [ensure_surface_buffer_is_ready], which dereferences it. *)
Theorem draw_view_without_memory fuel gr ev output drm_hw_buffer damage w :
  zalloc_result env (calls w ++ [zalloc]) = false ->
  get_surface_state env (surface ev) None w
  = Some (None, mkWorld (calls w ++ [zalloc]) (errno w))
  /\ draw_view env G2D_TILED_STATUS fuel gr ev output None drm_hw_buffer damage w
     = if pixman_region32_not_empty
            (pixman_region32_subtract
               (pixman_region32_intersect (transform_boundingbox ev) damage) (clip ev))
       then None
       else Some ((None, drm_hw_buffer), mkWorld (calls w ++ [zalloc]) (errno w)).
Proof.
  intros Hmem.
  assert (get_surface_state env (surface ev) None w
          = Some (None, mkWorld (calls w ++ [zalloc]) (errno w))) as Hstate.
  { unfold get_surface_state, g2d_renderer_create_surface, bind. rewrite Hmem. reflexivity. }
  split; [exact Hstate|].
  unfold draw_view. unfold bind at 1. rewrite Hstate. cbv zeta.
  destruct (pixman_region32_not_empty _); reflexivity.
Qed.
End Readiness.

Lemma draw_view_leaves_blending_off_witness :
  exists added,
    calls (mkWorld [g2d_enable G2D_BLEND; g2d_enable G2D_GLOBAL_ALPHA;
                    g2d_disable G2D_GLOBAL_ALPHA; g2d_disable G2D_BLEND] 0)
    = calls Scene.start ++ added
    /\ (forallb (fun c => negb (is_enable c)) added = true \/ ends_disabled added).
Proof.
  eapply (@draw_view_leaves_blending_off Scene.geometry BoxLists.pixman Scene.platform
            Scene.willing 0x20 8 (mkRenderer false) (Scene.plain_view Scene.half)
            Scene.output0 (Some Scene.attached_renderer_state) Scene.frame_buffer
            Scene.full_damage Scene.start).
  lazy. reflexivity.
Defined.

Lemma draw_view_invalid_egl_buffer_witness :
  @draw_view Scene.geometry BoxLists.pixman Scene.platform Scene.willing 0x20 8
    (mkRenderer false) Scene.egl_view Scene.output0 (Some Cases.egl_state) Scene.frame_buffer
    Scene.full_damage Scene.start
  = Some ((Some Cases.egl_state, Scene.frame_buffer),
          mkWorld (refreshed_calls (mkRenderer false) Scene.start
                   ++ [weston_log "invalid EGL buffer in function get_g2dSurface"])
            (errno Scene.start)).
Proof.
  eapply (@draw_view_invalid_egl_buffer Scene.geometry BoxLists.pixman Scene.platform
            Scene.willing 0x20).
  - vm_compute. reflexivity.
  - reflexivity.
  - reflexivity.
  - reflexivity.
  - left. vm_compute. discriminate.
Defined.

Lemma fence_timeout_waits_for_ever_witness :
  ensure_surface_buffer_is_ready Cases.timing_out 0x20 8 (mkRenderer false)
    Cases.fenced_surface Scene.attached_state Scene.start
  = wait_for_ever Cases.timing_out 8 (acquire_fence_fd Cases.fenced_surface)
      Scene.attached_state
      (mkWorld (calls Scene.start
                ++ [poll (acquire_fence_fd Cases.fenced_surface) 2000;
                    weston_log "ensure_surface_buffer_is_ready: Warning: wait for fence fd"])
         ETIME).
Proof.
  apply (fence_timeout_waits_for_ever Cases.timing_out 0x20 8 (mkRenderer false)
           Cases.fenced_surface Scene.attached_state Scene.shm_buffer Scene.start 0 0).
  - reflexivity.
  - discriminate.
  - vm_compute. discriminate.
  - lia.
  - reflexivity.
Defined.

Lemma draw_view_without_memory_witness :
  @get_surface_state BoxLists.pixman Scene.platform Cases.out_of_memory
    (surface (Scene.plain_view F32.one)) None Scene.start
  = Some (None, mkWorld (calls Scene.start ++ [zalloc]) (errno Scene.start))
  /\ @draw_view Scene.geometry BoxLists.pixman Scene.platform Cases.out_of_memory 0x20 8
       (mkRenderer false) (Scene.plain_view F32.one) Scene.output0 None Scene.frame_buffer
       Scene.full_damage Scene.start
     = if pixman_region32_not_empty
            (@pixman_region32_subtract BoxLists.pixman
               (@pixman_region32_intersect BoxLists.pixman
                  (transform_boundingbox (Scene.plain_view F32.one)) Scene.full_damage)
               (clip (Scene.plain_view F32.one)))
       then None
       else Some ((None, Scene.frame_buffer),
                  mkWorld (calls Scene.start ++ [zalloc]) (errno Scene.start)).
Proof.
  apply (@draw_view_without_memory Scene.geometry BoxLists.pixman Scene.platform
           Cases.out_of_memory 0x20).
  reflexivity.
Defined.

(** ** The buffer of a read-back *)

Section ReadPixels.
Variable env : environment.
Variable bpp : pixman_format_code -> Z.

End ReadPixels.

(** ** Attaching a buffer *)

Lemma round_to_uint8_channel (x : spec_float) (v : Z) :
  round_to_uint8 x = Some v -> is_channel v.
Proof.
  unfold round_to_uint8, is_channel. destruct x as [s| | |s m e]; try discriminate.
  - intros [= <-]. lia.
  - destruct (_ && _) eqn:Hv; [|discriminate]. intros [= <-].
    apply andb_true_iff in Hv. lia.
Qed.

Lemma lor_shifted (y x n : Z) :
  0 <= n -> 0 <= x < 2 ^ n -> Z.lor (y * 2 ^ n) x = y * 2 ^ n + x.
Proof.
  intros Hn Hx.
  assert (Z.land (y * 2 ^ n) x = 0) as Hland.
  { apply Z.bits_inj'. intros i Hi. rewrite Z.land_spec, Z.bits_0.
    destruct (Z_lt_ge_dec i n) as [Hlt|Hge].
    - rewrite Z.mul_pow2_bits_low by lia. reflexivity.
    - replace (Z.testbit x i) with false; [apply andb_false_r|].
      symmetry. destruct (Z.eq_dec x 0) as [->|Hx0]; [apply Z.bits_0|].
      apply Z.bits_above_log2; [lia|].
      assert (Z.log2 x < n) by (apply Z.log2_lt_pow2; lia). lia. }
  rewrite <- Z.lxor_lor by exact Hland. symmetry. apply Z.add_nocarry_lxor, Hland.
Qed.

Lemma int32_mod (z : Z) : int32 z mod 2 ^ 32 = z mod 2 ^ 32.
Proof.
  unfold int32. rewrite Zminus_mod, Z.mod_mod by lia.
  change (2 ^ 31 mod 2 ^ 32) with (2 ^ 31).
  rewrite <- (Z.mod_mod (2 ^ 31) (2 ^ 32)) at 2 by lia.
  change (2 ^ 31 mod 2 ^ 32) with (2 ^ 31).
  rewrite <- Zminus_mod. f_equal. lia.
Qed.

Ltac pow_consts :=
  change (2 ^ 8) with 256 in *; change (2 ^ 16) with 65536 in *;
  change (2 ^ 24) with 16777216 in *; change (2 ^ 32) with 4294967296 in *.

Lemma color_word_lor (r g b a : Z) :
  is_channel r -> is_channel g -> is_channel b -> is_channel a ->
  uint32 (Z.lor (Z.lor (Z.lor (int32 (Z.shiftl a 24)) (int32 (Z.shiftl b 16)))
                 (int32 (Z.shiftl g 8))) r)
  = color_word r g b a.
Proof.
  unfold is_channel, color_word. intros Hr Hg Hb Ha.
  rewrite !Z.shiftl_mul_pow2 by lia.
  rewrite (int32_small (b * 2 ^ 16)) by (pow_consts; lia).
  rewrite (int32_small (g * 2 ^ 8)) by (pow_consts; lia).
  unfold uint32.
  rewrite <- (Z.land_ones _ 32) by lia.
  rewrite !Z.land_lor_distr_l.
  rewrite !Z.land_ones by lia.
  rewrite int32_mod.
  rewrite (Z.mod_small (a * 2 ^ 24)), (Z.mod_small (b * 2 ^ 16)), (Z.mod_small (g * 2 ^ 8)),
    (Z.mod_small r) by (pow_consts; lia).
  rewrite (lor_shifted a (b * 2 ^ 16) 24) by (pow_consts; lia).
  replace (a * 2 ^ 24 + b * 2 ^ 16) with ((a * 2 ^ 8 + b) * 2 ^ 16) by (pow_consts; lia).
  rewrite (lor_shifted (a * 2 ^ 8 + b) (g * 2 ^ 8) 16) by (pow_consts; lia).
  replace ((a * 2 ^ 8 + b) * 2 ^ 16 + g * 2 ^ 8) with ((a * 2 ^ 16 + b * 2 ^ 8 + g) * 2 ^ 8)
    by (pow_consts; lia).
  rewrite (lor_shifted _ r 8) by (pow_consts; lia). pow_consts. lia.
Qed.

Lemma byte_of_color_word (r g b a : Z) :
  is_channel r -> is_channel g -> is_channel b -> is_channel a ->
  byte_of (color_word r g b a) 0 = r /\ byte_of (color_word r g b a) 1 = g
  /\ byte_of (color_word r g b a) 2 = b /\ byte_of (color_word r g b a) 3 = a.
Proof.
  unfold is_channel, color_word, byte_of. intros Hr Hg Hb Ha.
  change 255 with (Z.ones 8). rewrite !Z.land_ones, !Z.shiftr_div_pow2 by lia.
  cbn [Z.mul Pos.mul]. change (2 ^ 0) with 1. rewrite Z.div_1_r.
  pow_consts. repeat split; Z.to_euclidean_division_equations; lia.
Qed.

Lemma pack_color_known_format (format : Z)
    (c : spec_float * spec_float * spec_float * spec_float) (v : Z) :
  pack_color format c = Some v ->
  format = DRM_FORMAT_ARGB8888 \/ format = DRM_FORMAT_XRGB8888.
Proof.
  destruct c as [[[c0 c1] c2] c3]. unfold pack_color.
  destruct (round_to_uint8 (F32.mul c0 _)) as [r|]; [|discriminate].
  destruct (round_to_uint8 (F32.mul c1 _)) as [g|]; [|discriminate].
  destruct (round_to_uint8 (F32.mul c2 _)) as [b|]; [|discriminate].
  destruct (round_to_uint8 (F32.mul c3 _)) as [a|]; [|discriminate].
  cbn [mbind option_bind].
  destruct (_ || _) eqn:Hf; [|discriminate]. intros _.
  apply orb_true_iff in Hf. lia.
Qed.

(** When [pack_color] returns, the format is one of the two that it
    knows and the word has the rounded red in its lowest byte, then
    green, then blue, and alpha in its highest byte, each the channel
    times 255 rounded to a byte, and nothing else: the red and the blue
    of [DRM_FORMAT_ARGB8888] are exchanged. *)
Theorem pack_color_layout (format : Z) (c : spec_float * spec_float * spec_float * spec_float)
    (v : Z) :
  pack_color format c = Some v ->
  (format = DRM_FORMAT_ARGB8888 \/ format = DRM_FORMAT_XRGB8888)
  /\ round_to_uint8 (F32.mul (fst (fst (fst c))) (F32.of_int 255)) = Some (byte_of v 0)
  /\ round_to_uint8 (F32.mul (snd (fst (fst c))) (F32.of_int 255)) = Some (byte_of v 1)
  /\ round_to_uint8 (F32.mul (snd (fst c)) (F32.of_int 255)) = Some (byte_of v 2)
  /\ round_to_uint8 (F32.mul (snd c) (F32.of_int 255)) = Some (byte_of v 3)
  /\ v = color_word (byte_of v 0) (byte_of v 1) (byte_of v 2) (byte_of v 3).
Proof.
  destruct c as [[[c0 c1] c2] c3]. unfold pack_color. cbn [fst snd].
  destruct (round_to_uint8 (F32.mul c0 _)) as [r|] eqn:Er; [|discriminate].
  destruct (round_to_uint8 (F32.mul c1 _)) as [g|] eqn:Eg; [|discriminate].
  destruct (round_to_uint8 (F32.mul c2 _)) as [b|] eqn:Eb; [|discriminate].
  destruct (round_to_uint8 (F32.mul c3 _)) as [a|] eqn:Ea; [|discriminate].
  cbn [mbind option_bind].
  apply round_to_uint8_channel in Er, Eg, Eb, Ea.
  destruct (_ || _) eqn:Hf; [|discriminate]. intros [= <-].
  rewrite color_word_lor by assumption.
  destruct (byte_of_color_word r g b a Er Eg Eb Ea) as (-> & -> & -> & ->).
  split; [apply orb_true_iff in Hf; lia|]. auto 10.
Qed.

Lemma pack_color_layout_witness :
  (DRM_FORMAT_XRGB8888 = DRM_FORMAT_ARGB8888 \/ DRM_FORMAT_XRGB8888 = DRM_FORMAT_XRGB8888)
  /\ round_to_uint8 (F32.mul F32.one (F32.of_int 255)) = Some (byte_of 4278223103 0)
  /\ round_to_uint8 (F32.mul Scene.half (F32.of_int 255)) = Some (byte_of 4278223103 1)
  /\ round_to_uint8 (F32.mul (S754_zero false) (F32.of_int 255)) = Some (byte_of 4278223103 2)
  /\ round_to_uint8 (F32.mul F32.one (F32.of_int 255)) = Some (byte_of 4278223103 3)
  /\ 4278223103
     = color_word (byte_of 4278223103 0) (byte_of 4278223103 1) (byte_of 4278223103 2)
         (byte_of 4278223103 3).
Proof.
  apply (pack_color_layout DRM_FORMAT_XRGB8888
           (F32.one, Scene.half, S754_zero false, F32.one) 4278223103).
  vm_compute. reflexivity.
Defined.

Section Loops.
Context `{Geometry}.
Variable env : environment.
Variable Q : hw_call -> Prop.

Lemma repaint_region_all ev output gs drm_hw_buffer region surf_region :
  (forall srcRect dstrect rect surf_rect st,
     appends (fun _ added => Forall Q added)
       (repaint_pair env ev output gs srcRect dstrect rect surf_rect st)) ->
  appends (fun _ added => Forall Q added)
    (repaint_region env ev output gs drm_hw_buffer region surf_region).
Proof.
  intros Hpair.
  assert (forall srcRect dstrect rect surf_rects st,
            appends (fun _ added => Forall Q added)
              (repaint_surf_rects env ev output gs srcRect dstrect rect surf_rects st)) as Hinner.
  { intros srcRect dstrect rect surf_rects.
    induction surf_rects as [|surf_rect rest IH]; intros st; [apply appends_ret; constructor|].
    cbn [repaint_surf_rects]. eapply appends_bind; [apply Hpair|].
    intros r l1 Hl1. destruct (fst r).
    - apply appends_ret. rewrite app_nil_r. exact Hl1.
    - eapply appends_weaken; [apply IH|]. intros ? l2 Hl2. apply Forall_app; auto. }
  assert (forall srcRect dstrect rects surf_rects st,
            appends (fun _ added => Forall Q added)
              (repaint_rects env ev output gs srcRect dstrect rects surf_rects st)) as Houter.
  { intros srcRect dstrect rects surf_rects.
    induction rects as [|rect rest IH]; intros st; [apply appends_ret; constructor|].
    cbn [repaint_rects]. eapply appends_bind; [apply Hinner|].
    intros r l1 Hl1. destruct (fst r).
    - apply appends_ret. rewrite app_nil_r. exact Hl1.
    - eapply appends_weaken; [apply IH|]. intros ? l2 Hl2. apply Forall_app; auto. }
  unfold repaint_region.
  destruct (F64.ltb _ _); [apply appends_ret; constructor|].
  destruct (_ && _); [apply appends_ret; constructor|].
  destruct (_ || _); [apply appends_ret; constructor|].
  destruct (pixman_region32_rectangles (transform_boundingbox ev)) as [|bb0 ?];
    [apply appends_ret; constructor|].
  destruct (convert_size_by_view_transform _ _ _) as [src_width src_height].
  destruct (clipped _) as [r|]; [|apply appends_undefined].
  eapply appends_bind; [apply Houter|].
  intros done l1 Hl1. apply appends_ret. rewrite app_nil_r. exact Hl1.
Qed.
End Loops.

Section AttachProperties.
Context `{Geometry} `{Pixman} `{Platform}.
Variable env : environment.


Lemma repaint_pair_solid ev output gs buffer srcRect dstrect rect surf_rect st :
  solid_clear gs = true ->
  buffer_ref_buffer gs = Some buffer ->
  buffer_type buffer = WESTON_BUFFER_SOLID ->
  buffer_pixel_format buffer <> DRM_FORMAT_ARGB8888 ->
  appends (fun _ added => Forall (paints_with (clcolor gs)) added)
    (repaint_pair env ev output gs srcRect dstrect rect surf_rect st).
Proof.
  intros Hsolid Hbuf Htype Hfmt. unfold repaint_pair.
  destruct (calculate_edges ev rect surf_rect) as [|e0 es]; [apply appends_ret; constructor|].
  destruct (Z.of_nat (length (e0 :: es)) <? 3); [apply appends_ret; constructor|].
  destruct (_ || _); [apply appends_ret; constructor|].
  rewrite Hsolid, Hbuf, Htype.
  replace (buffer_pixel_format buffer =? DRM_FORMAT_ARGB8888) with false
    by (symmetry; apply Z.eqb_neq; exact Hfmt).
  cbn [negb].
  intros w r w' E. unfold bind at 1 in E. cbn [emit] in E.
  unfold bind at 1 in E. cbn [ret] in E.
  unfold bind at 1 in E. rewrite g2d_clear_solid_run in E. cbv zeta in E.
  cbn [calls errno] in E.
  destruct (g2d_status env _ =? 0); injection E as <- <-; cbn [calls];
    rewrite <- ?app_assoc; eexists; (split; [reflexivity|]);
    repeat constructor.
Qed.


End AttachProperties.


Lemma bounded_alloc_sized : @alloc_sized Scene.platform Cases.bounded_alloc.
Proof.
  intros cs n cacheable buf. cbn [g2d_alloc_result Cases.bounded_alloc].
  rewrite last_snoc. destruct (n <=? 0x100000) eqn:Hn; [|discriminate].
  intros [= <-]. cbn [buf_size Scene.platform]. lia.
Qed.


(** ** The copy of a buffer in shared memory *)

Lemma ALIGN_TO_16_multiple (a : Z) :
  0 <= a < 2 ^ 30 -> ALIGN_TO_16 a = 16 * ((a + 15) / 16).
Proof.
  intros Ha. unfold ALIGN_TO_16. rewrite int32_small by lia.
  change (Z.lnot 15) with (Z.lnot (Z.ones 4)).
  rewrite <- Z.ldiff_land, Z.ldiff_ones_r by lia.
  rewrite Z.shiftr_div_pow2, Z.shiftl_mul_pow2 by lia. change (2 ^ 4) with 16. lia.
Qed.

Lemma ALIGN_TO_16_bounds (a : Z) :
  0 <= a < 2 ^ 30 -> a <= ALIGN_TO_16 a < a + 16.
Proof.
  intros Ha. rewrite ALIGN_TO_16_multiple by exact Ha.
  Z.to_euclidean_division_equations. lia.
Qed.

Lemma in_upto (i n : Z) : In i (upto n) <-> 0 <= i < n.
Proof.
  unfold upto. rewrite in_map_iff. split.
  - intros (k & <- & Hk). apply in_seq in Hk. lia.
  - intros Hi. exists (Z.to_nat i). split; [lia|]. apply in_seq. lia.
Qed.

Lemma appends_for_each {A : Type} (Q : hw_call -> Prop) (l : list A) (body : A -> M unit) :
  (forall x, In x l -> appends (fun _ added => Forall Q added) (body x)) ->
  appends (fun _ added => Forall Q added) (for_each l body).
Proof.
  induction l as [|x l IH]; intros Hbody; cbn [for_each]; [apply appends_ret; constructor|].
  eapply appends_bind; [apply Hbody; left; reflexivity|]. intros u1 l1 Hl1.
  eapply appends_weaken; [apply IH; intros y Hy; apply Hbody; right; exact Hy|].
  intros u2 l2 Hl2. apply Forall_app; auto.
Qed.


